(** * Media-segment request pipeline of http-streaming

    A shallow embedding of [src/media-segment-request.js]: the error
    classifier, the three response handlers, the completion tracker, the
    decryption client, the progress handler and the parse dispatcher,
    followed by the properties the specification states about them.

    Conventions of the embedding.
    - The segment descriptor is a JavaScript object mutated in place; here
      every function takes the descriptor and returns the updated one.
    - Calls to collaborators (XHR handles, the caller's callbacks, the
      transmuxer, the mp4 box parser) are recorded, in order, in a list of
      [Effect]s.
    - [Date.now()] is an explicit argument.
    - An uncaught [TypeError] ends the running callback: it is the last
      entry of the effect list, or the [Raise] outcome of a handler. *)

From Stdlib Require Import ZArith List String Bool Lia PeanoNat.
From Stdlib Require Import Strings.Byte Permutation.
Import ListNotations.
Open Scope Z_scope.

(** ** JavaScript values used by the pipeline *)

(** Numbers, as far as the pipeline can produce them. *)
Module JsNum.
Inductive t : Type :=
| Undefined
| NaN
| Infinity
| Num (z : Z).

(** [x || 0] *)
Definition orZero (x : t) : t :=
  match x with
  | Undefined | NaN => Num 0
  | _ => x
  end.

(** [x + n] for an integer [n] ([undefined + n] is [NaN]). *)
Definition add (x : t) (n : Z) : t :=
  match x with
  | Undefined | NaN => NaN
  | Infinity => Infinity
  | Num z => Num (z + n)
  end.

(** Truthiness of a number. *)
Definition truthy (x : t) : bool :=
  match x with
  | Undefined | NaN => false
  | Infinity => true
  | Num z => negb (z =? 0)
  end.

(** [x === n] for an integer [n] *)
Definition strictEquals (x : t) (n : Z) : bool :=
  match x with
  | Num z => z =? n
  | _ => false
  end.
End JsNum.

(** A JavaScript string is a sequence of UTF-16 code units. *)
Definition JsString := list N.

(** [s.byteLength] of a string [s]: a string has no such property. *)
Definition stringByteLength (s : JsString) : JsNum.t := JsNum.Undefined.

(** [s.substring(start)]: the start index is clamped to [0, s.length];
    [NaN] counts as 0. *)
Definition substring (s : JsString) (start : JsNum.t) : JsString :=
  match start with
  | JsNum.Undefined | JsNum.NaN => s
  | JsNum.Infinity => []
  | JsNum.Num z => skipn (Z.to_nat z) s
  end.

Definition u8 (b : byte) : Z := Z.of_N (Byte.to_N b).

(** [new DataView(buffer).getUint32(byteOffset)]: big-endian; [None] is the
    [RangeError] of a read past the end of the buffer. *)
Definition getUint32 (view : list byte) (byteOffset : nat) : option Z :=
  match skipn byteOffset view with
  | b0 :: b1 :: b2 :: b3 :: _ =>
      Some (Z.lor (Z.shiftl (u8 b0) 24)
             (Z.lor (Z.shiftl (u8 b1) 16)
               (Z.lor (Z.shiftl (u8 b2) 8) (u8 b3))))
  | _ => None
  end.

(** The bytes [new Uint8Array(buffer, byteOffset, byteLength)] shows. *)
Definition subarrayView (buffer : list byte) (byteOffset byteLength : nat)
  : list byte :=
  firstn byteLength (skipn byteOffset buffer).

(** A [Uint8Array]: a window on an [ArrayBuffer].  The code reads such an
    array in two ways: through the array itself ([bytes.byteLength],
    [bytes.subarray]), which sees the window, and through [bytes.buffer],
    which sees the whole buffer from its first byte. *)
Module Uint8Array.
Record t : Type := {
  buffer : list byte;
  byteOffset : nat;
  length : nat
}.

(** The bytes the array shows. *)
Definition bytes (a : t) : list byte :=
  subarrayView (buffer a) (byteOffset a) (length a).

Definition byteLength (a : t) : Z := Z.of_nat (List.length (bytes a)).

(** [new Uint8Array(buffer)]: the window is the whole buffer. *)
Definition ofBuffer (b : list byte) : t :=
  {| buffer := b; byteOffset := 0; length := List.length b |}.
End Uint8Array.

(** ** Data model *)

Module REQUEST_ERRORS.
Definition FAILURE : Z := 2.
Definition TIMEOUT : Z := -101.
Definition ABORTED : Z := -102.
End REQUEST_ERRORS.

(** The XHR object handed to a response callback.  [response] is the body
    of a request of response type [arraybuffer], as the key and the
    init-segment request are; [responseText] is the body of a request of
    response type [text], as the media request is, whose [response] is
    that same string. *)
Module Request.
Record t : Type := {
  status : Z;
  uri : string;
  timedout : bool;
  aborted : bool;
  response : list byte;
  responseText : JsString;
  bandwidth : JsNum.t;
  bytesReceived : JsNum.t;
  roundTripTime : JsNum.t;
  requestTime : Z
}.
End Request.

Module ProgressEvent.
Record t : Type := {
  target : Request.t;
  loaded : Z
}.
End ProgressEvent.

Module ErrorRecord.
Record t : Type := {
  status : Z;
  message : string;
  code : Z;
  xhr : Request.t
}.
End ErrorRecord.

(** [stats.bandwidth]: the figure a completed request reports, or, while
    the request is in progress, the number
    [Math.floor((bytesReceived / roundTripTime) * 8 * 1000)].  The division
    and the two products round as doubles do (323 bytes in 5 ms come to
    516799, not 516800), so the embedding keeps the two operands and does
    not compute the figure. *)
Inductive Bandwidth : Type :=
| Reported (bandwidth : JsNum.t)
| FloorOfRate (bytesReceived roundTripTime : Z).

Module Stats.
Record t : Type := {
  bandwidth : Bandwidth;
  bytesReceived : JsNum.t;
  roundTripTime : JsNum.t;
  firstBytesReceivedAt : option Z
}.
End Stats.

Module Key.
Record t : Type := {
  resolvedUri : string;
  bytes : option (list Z);
  iv : list Z
}.

Definition set_bytes (k : t) (b : list Z) : t :=
  {| resolvedUri := resolvedUri k; bytes := Some b; iv := iv k |}.
End Key.

(** The init-segment sub-record, [segment.map]. *)
Module Map.
Record t : Type := {
  resolvedUri : string;
  bytes : option (list byte)
}.

Definition set_bytes (m : t) (b : list byte) : t :=
  {| resolvedUri := resolvedUri m; bytes := Some b |}.
End Map.

(** The segment descriptor.  [Boxes] is the parser state the mp4 box parser
    carries from one call to the next, [TrackInfo] the metadata the
    transmuxer reports; both belong to collaborators. *)
Module Segment.
Record t (Boxes TrackInfo : Type) : Type := {
  resolvedUri : string;
  requestId : string;
  key : option Key.t;
  map : option Map.t;
  lastReachedChar : JsNum.t;
  stats : option Stats.t;
  bytes : option Uint8Array.t;
  encryptedBytes : option (list byte);
  boxes : option Boxes;
  endOfAllRequests : option Z;
  trackInfo : option TrackInfo
}.
Arguments resolvedUri {Boxes TrackInfo} _.
Arguments requestId {Boxes TrackInfo} _.
Arguments key {Boxes TrackInfo} _.
Arguments map {Boxes TrackInfo} _.
Arguments lastReachedChar {Boxes TrackInfo} _.
Arguments stats {Boxes TrackInfo} _.
Arguments bytes {Boxes TrackInfo} _.
Arguments encryptedBytes {Boxes TrackInfo} _.
Arguments boxes {Boxes TrackInfo} _.
Arguments endOfAllRequests {Boxes TrackInfo} _.
Arguments trackInfo {Boxes TrackInfo} _.

Section Updates.
Context {Boxes TrackInfo : Type}.
Let seg : Type := t Boxes TrackInfo.

Definition set_key (s : seg) (k : option Key.t) : seg :=
  {| resolvedUri := resolvedUri s; requestId := requestId s; key := k;
     map := map s; lastReachedChar := lastReachedChar s;
     stats := stats s; bytes := bytes s;
     encryptedBytes := encryptedBytes s; boxes := boxes s;
     endOfAllRequests := endOfAllRequests s; trackInfo := trackInfo s |}.

Definition set_map (s : seg) (m : option Map.t) : seg :=
  {| resolvedUri := resolvedUri s; requestId := requestId s; key := key s;
     map := m; lastReachedChar := lastReachedChar s;
     stats := stats s; bytes := bytes s;
     encryptedBytes := encryptedBytes s; boxes := boxes s;
     endOfAllRequests := endOfAllRequests s; trackInfo := trackInfo s |}.

Definition set_lastReachedChar (s : seg) (c : JsNum.t) : seg :=
  {| resolvedUri := resolvedUri s; requestId := requestId s; key := key s;
     map := map s; lastReachedChar := c;
     stats := stats s; bytes := bytes s;
     encryptedBytes := encryptedBytes s; boxes := boxes s;
     endOfAllRequests := endOfAllRequests s; trackInfo := trackInfo s |}.

Definition set_stats (s : seg) (st : Stats.t) : seg :=
  {| resolvedUri := resolvedUri s; requestId := requestId s; key := key s;
     map := map s; lastReachedChar := lastReachedChar s;
     stats := Some st; bytes := bytes s;
     encryptedBytes := encryptedBytes s; boxes := boxes s;
     endOfAllRequests := endOfAllRequests s; trackInfo := trackInfo s |}.

Definition set_bytes (s : seg) (b : Uint8Array.t) : seg :=
  {| resolvedUri := resolvedUri s; requestId := requestId s; key := key s;
     map := map s; lastReachedChar := lastReachedChar s;
     stats := stats s; bytes := Some b;
     encryptedBytes := encryptedBytes s; boxes := boxes s;
     endOfAllRequests := endOfAllRequests s; trackInfo := trackInfo s |}.

Definition set_encryptedBytes (s : seg) (b : list byte) : seg :=
  {| resolvedUri := resolvedUri s; requestId := requestId s; key := key s;
     map := map s; lastReachedChar := lastReachedChar s;
     stats := stats s; bytes := bytes s;
     encryptedBytes := Some b; boxes := boxes s;
     endOfAllRequests := endOfAllRequests s; trackInfo := trackInfo s |}.

Definition set_boxes (s : seg) (b : option Boxes) : seg :=
  {| resolvedUri := resolvedUri s; requestId := requestId s; key := key s;
     map := map s; lastReachedChar := lastReachedChar s;
     stats := stats s; bytes := bytes s;
     encryptedBytes := encryptedBytes s; boxes := b;
     endOfAllRequests := endOfAllRequests s; trackInfo := trackInfo s |}.

Definition set_endOfAllRequests (s : seg) (now : Z) : seg :=
  {| resolvedUri := resolvedUri s; requestId := requestId s; key := key s;
     map := map s; lastReachedChar := lastReachedChar s;
     stats := stats s; bytes := bytes s;
     encryptedBytes := encryptedBytes s; boxes := boxes s;
     endOfAllRequests := Some now; trackInfo := trackInfo s |}.

Definition set_trackInfo (s : seg) (ti : TrackInfo) : seg :=
  {| resolvedUri := resolvedUri s; requestId := requestId s; key := key s;
     map := map s; lastReachedChar := lastReachedChar s;
     stats := stats s; bytes := bytes s;
     encryptedBytes := encryptedBytes s; boxes := boxes s;
     endOfAllRequests := endOfAllRequests s; trackInfo := Some ti |}.
End Updates.
End Segment.

Module TimingInfo.
Record t : Type := {
  start : option Z;
  finish : option Z
}.
End TimingInfo.

(** An output chunk handed to the caller's [dataFn]. *)
Module Chunk.
Record t : Type := {
  data : list byte;
  timingInfo : TimingInfo.t
}.
End Chunk.

(** The result the transmuxer passes to its completion callback. *)
Module TransmuxResult.
Record t : Type := {
  audioTimingInfo : option TimingInfo.t;
  videoTimingInfo : option TimingInfo.t
}.
End TransmuxResult.

(** What [boxParsers.inspectMp4] returns. *)
Module Mp4Result.
Record t (Boxes : Type) : Type := {
  bytes : option (list byte);
  boxes : option Boxes;
  numUsedBytes : Z
}.
Arguments bytes {Boxes} _.
Arguments boxes {Boxes} _.
Arguments numUsedBytes {Boxes} _.
End Mp4Result.

(** The requests of one invocation, as tracked in [activeXhrs]. *)
Inductive Xhr : Type :=
| KeyXhr
| InitSegmentXhr
| SegmentXhr.

Definition Xhr_eq_dec (a b : Xhr) : {a = b} + {a <> b}.
Proof. decide equality. Defined.

(** The message posted to the decryption worker and the reply it sends. *)
Module WorkerMessage.
Record t : Type := {
  source : string;
  encrypted : list byte;
  key : list Z;
  iv : list Z
}.
End WorkerMessage.

Module WorkerReply.
Record t : Type := {
  source : string;
  bytes : list byte;
  byteOffset : nat;
  byteLength : nat
}.
End WorkerReply.

(** Calls that leave the module.  A message listener on the worker channel
    is named by the request id of the segment whose [decryptionHandler] it
    is. *)
Inductive Effect : Type :=
| XhrAbort (x : Xhr)
| InspectMp4 (data : list byte) (isEndOfSegment : bool)
| MuxInspect (data : list byte)
| Transmux (buffer : list byte) (isPartial : bool) (hasDoneFn : bool)
| DataFn (chunk : Chunk.t)
| DoneFn (error : option ErrorRecord.t) (result : option TransmuxResult.t)
| ProgressFn (event : ProgressEvent.t)
| AddEventListener (id : string)
| RemoveEventListener (id : string)
| PostMessage (message : WorkerMessage.t)
| Throw.

(** The shared worker channel: the listeners registered on it and the
    messages posted to it, as the calls made on it leave them. *)
Module Decrypter.
Record t : Type := {
  listeners : list string;
  posted : list WorkerMessage.t
}.

Fixpoint remove_first (id : string) (l : list string) : list string :=
  match l with
  | [] => []
  | x :: r => if String.eqb x id then r else x :: remove_first id r
  end.

Definition call (d : t) (e : Effect) : t :=
  match e with
  | AddEventListener id =>
      {| listeners := listeners d ++ [id]; posted := posted d |}
  | RemoveEventListener id =>
      {| listeners := remove_first id (listeners d); posted := posted d |}
  | PostMessage m =>
      {| listeners := listeners d; posted := posted d ++ [m] |}
  | _ => d
  end.

Definition run (d : t) (effects : list Effect) : t :=
  fold_left call effects d.

Definition registered (d : t) (id : string) : bool :=
  existsb (String.eqb id) (listeners d).
End Decrypter.

(** What a response handler does last: its tail call
    [finishProcessingFn(error, segment)], or an uncaught exception. *)
Inductive Outcome (S : Type) : Type :=
| Forward (error : option ErrorRecord.t) (segment : S)
| Raise.
Arguments Forward {S} _ _.
Arguments Raise {S}.

(** ** Error classifier and statistics *)

Definition mkError (request : Request.t) (prefix : string) (code : Z)
  : ErrorRecord.t :=
  {| ErrorRecord.status := Request.status request;
     ErrorRecord.message := prefix ++ Request.uri request;
     ErrorRecord.code := code;
     ErrorRecord.xhr := request |}.

(** [error] is the callback's first argument: [None] is [null]. *)
Definition handleErrors (error : option string) (request : Request.t)
  : option ErrorRecord.t :=
  if Request.timedout request then
    Some (mkError request "HLS request timed-out at URL: "
            REQUEST_ERRORS.TIMEOUT)
  else if Request.aborted request then
    Some (mkError request "HLS request aborted at URL: "
            REQUEST_ERRORS.ABORTED)
  else
    match error with
    | Some _ =>
        Some (mkError request "HLS request errored at URL: "
                REQUEST_ERRORS.FAILURE)
    | None => None
    end.

Definition getRequestStats (request : Request.t) : Stats.t :=
  {| Stats.bandwidth := Reported (Request.bandwidth request);
     Stats.bytesReceived := JsNum.orZero (Request.bytesReceived request);
     Stats.roundTripTime := JsNum.orZero (Request.roundTripTime request);
     Stats.firstBytesReceivedAt := None |}.

Definition getProgressStats (progressEvent : ProgressEvent.t) (now : Z)
  : Stats.t :=
  let request := ProgressEvent.target progressEvent in
  let roundTripTime := now - Request.requestTime request in
  let bytesReceived := ProgressEvent.loaded progressEvent in
  {| Stats.bandwidth := FloorOfRate bytesReceived roundTripTime;
     Stats.bytesReceived := JsNum.Num bytesReceived;
     Stats.roundTripTime := JsNum.Num roundTripTime;
     Stats.firstBytesReceivedAt := None |}.

(** [videojs.mergeOptions(segment.stats, progressStats)]: the three keys of
    the progress statistics replace the old ones, any other key of the old
    object is kept. *)
Definition mergeStats (old : option Stats.t) (new : Stats.t) : Stats.t :=
  {| Stats.bandwidth := Stats.bandwidth new;
     Stats.bytesReceived := Stats.bytesReceived new;
     Stats.roundTripTime := Stats.roundTripTime new;
     Stats.firstBytesReceivedAt :=
       match old with
       | Some o => Stats.firstBytesReceivedAt o
       | None => None
       end |}.

Definition set_firstBytesReceivedAt (s : Stats.t) (now : Z) : Stats.t :=
  {| Stats.bandwidth := Stats.bandwidth s;
     Stats.bytesReceived := Stats.bytesReceived s;
     Stats.roundTripTime := Stats.roundTripTime s;
     Stats.firstBytesReceivedAt := Some now |}.

(** [!stats.firstBytesReceivedAt] *)
Definition firstBytesMissing (s : Stats.t) : bool :=
  match Stats.firstBytesReceivedAt s with
  | None => true
  | Some z => z =? 0
  end.

(** ** Most important error *)

(** [errors.reduce((prev, err) => err.code > prev.code ? err : prev)];
    [None] is the [TypeError] of [reduce] on an empty array. *)
Definition getMostImportantError (errors : list ErrorRecord.t)
  : option ErrorRecord.t :=
  match errors with
  | [] => None
  | first :: rest =>
      Some (fold_left
              (fun prev err =>
                 if ErrorRecord.code err >? ErrorRecord.code prev
                 then err else prev)
              rest first)
  end.

Definition abortAll (activeXhrs : list Xhr) : list Effect :=
  List.map XhrAbort activeXhrs.

(** The requests [mediaSegmentRequest] issues, in the order it pushes them
    on [activeXhrs]: the key if the segment has one, the init segment if
    the segment has a map without cached bytes, the media segment. *)
Definition issuesKey {B T : Type} (segment : Segment.t B T) : bool :=
  match Segment.key segment with Some _ => true | None => false end.

Definition issuesInitSegment {B T : Type} (segment : Segment.t B T) : bool :=
  match Segment.map segment with
  | Some m => match Map.bytes m with Some _ => false | None => true end
  | None => false
  end.

Definition mediaSegmentRequest {B T : Type} (segment : Segment.t B T)
  : list Xhr :=
  (if issuesKey segment then [KeyXhr] else [])
  ++ (if issuesInitSegment segment then [InitSegmentXhr] else [])
  ++ [SegmentXhr].

(** ** Handlers, dispatcher, tracker *)

Section Pipeline.
Context {Boxes TrackInfo : Type}.

(** [stringToArrayBuffer] of [util/string-to-array-buffer] and
    [boxParsers.inspectMp4] of [box-parsers] are imported by the module;
    they are parameters here. *)
Variable stringToArrayBuffer : JsString -> list byte.
Variable inspectMp4 :
  list byte -> bool -> option Boxes -> Mp4Result.t Boxes.

Let Seg : Type := Segment.t Boxes TrackInfo.

Definition byteLength (buffer : list byte) : Z :=
  Z.of_nat (List.length buffer).

Definition handleKeyResponse (segment : Seg)
    (error : option string) (request : Request.t) : Outcome Seg :=
  let response := Request.response request in
  match handleErrors error request with
  | Some errorObj => Forward (Some errorObj) segment
  | None =>
      if negb (byteLength response =? 16) then
        Forward
          (Some (mkError request "Invalid HLS key at URL: "
                   REQUEST_ERRORS.FAILURE))
          segment
      else
        match getUint32 response 0, getUint32 response 4,
              getUint32 response 8, getUint32 response 12,
              Segment.key segment with
        | Some w0, Some w1, Some w2, Some w3, Some k =>
            Forward None
              (Segment.set_key segment
                 (Some (Key.set_bytes k [w0; w1; w2; w3])))
        | _, _, _, _, _ => Raise
        end
  end.

Definition handleInitSegmentResponse (segment : Seg)
    (error : option string) (request : Request.t) : Outcome Seg :=
  let response := Request.response request in
  match handleErrors error request with
  | Some errorObj => Forward (Some errorObj) segment
  | None =>
      if byteLength response =? 0 then
        Forward
          (Some (mkError request "Empty HLS segment content at URL: "
                   REQUEST_ERRORS.FAILURE))
          segment
      else
        match Segment.map segment with
        | Some m =>
            Forward None
              (Segment.set_map segment (Some (Map.set_bytes m response)))
        | None => Raise
        end
  end.

(** The bytes of the response text from the cursor on. *)
Definition newBytesOf (segment : Seg) (request : Request.t) : list byte :=
  stringToArrayBuffer
    (substring (Request.responseText request)
       (JsNum.orZero (Segment.lastReachedChar segment))).

(** [mediaSegmentRequest] issues the media request with
    [responseType: 'text'], so the [request.response] this handler reads is
    the response text, a string, and [response.byteLength] is the
    [byteLength] of a string. *)
Definition handleSegmentResponse (segment : Seg)
    (error : option string) (request : Request.t) : Outcome Seg :=
  let response := Request.responseText request in
  match handleErrors error request with
  | Some errorObj => Forward (Some errorObj) segment
  | None =>
      let newBytes := newBytesOf segment request in
      if JsNum.strictEquals (stringByteLength response) 0 then
        Forward
          (Some (mkError request "Empty HLS segment content at URL: "
                   REQUEST_ERRORS.FAILURE))
          segment
      else
        let segment := Segment.set_stats segment (getRequestStats request) in
        match Segment.key segment with
        | Some _ => Forward None (Segment.set_encryptedBytes segment newBytes)
        | None =>
            Forward None
              (Segment.set_bytes segment (Uint8Array.ofBuffer newBytes))
        end
  end.

Definition emptyTimingInfo : TimingInfo.t :=
  {| TimingInfo.start := None; TimingInfo.finish := None |}.

Definition parseMp4AndNotify (segment : Seg) (bytes : Uint8Array.t)
    (isPartial : bool) : Z * Seg * list Effect :=
  let result :=
    inspectMp4 (Uint8Array.bytes bytes) (negb isPartial)
      (Segment.boxes segment) in
  let notify :=
    match Mp4Result.bytes result with
    | Some data =>
        if (0 <? List.length data)%nat then
          [DataFn {| Chunk.data := data;
                     Chunk.timingInfo := emptyTimingInfo |}]
        else []
    | None => []
    end in
  (Mp4Result.numUsedBytes result,
   Segment.set_boxes segment (Mp4Result.boxes result),
   InspectMp4 (Uint8Array.bytes bytes) (negb isPartial) :: notify).

(** The call [transmux({bytes: bytes.buffer, ...})]: the transmuxer is
    given the buffer behind the array, not the array.  Its three callbacks
    follow. *)
Definition transmuxAndNotify (bytes : Uint8Array.t) (isPartial : bool)
    (doneFn : bool) : list Effect :=
  [Transmux (Uint8Array.buffer bytes) isPartial doneFn].

Definition transmux_onData (result : Chunk.t) : list Effect :=
  [DataFn result].

Definition transmux_onTrackInfo (segment : Seg) (trackInfo : TrackInfo)
  : Seg :=
  Segment.set_trackInfo segment trackInfo.

(** [doneFn] tells whether the caller of [transmuxAndNotify] passed one. *)
Definition transmux_onDone (doneFn : bool) (result : TransmuxResult.t)
  : list Effect :=
  match TransmuxResult.audioTimingInfo result,
        TransmuxResult.videoTimingInfo result with
  | None, None => []
  | _, _ => if negb doneFn then [] else [DoneFn None (Some result)]
  end.

(** The parse dispatcher: the consumed byte count, the descriptor and the
    calls made. *)
Definition handleDecryptedBytes (segment : Seg) (bytes : Uint8Array.t)
    (isPartial : bool) (doneFn : bool) : Z * Seg * list Effect :=
  match Segment.map segment with
  | Some _ => parseMp4AndNotify segment bytes isPartial
  | None =>
      (Uint8Array.byteLength bytes, segment,
       transmuxAndNotify bytes isPartial doneFn)
  end.

(** The listener [decryptSegment] registers, run on a worker reply. *)
Definition decryptionHandler (segment : Seg) (data : WorkerReply.t)
  : Seg * list Effect :=
  if String.eqb (WorkerReply.source data) (Segment.requestId segment) then
    let removed := RemoveEventListener (Segment.requestId segment) in
    if (WorkerReply.byteOffset data + WorkerReply.byteLength data
        <=? List.length (WorkerReply.bytes data))%nat then
      let bytes :=
        {| Uint8Array.buffer := WorkerReply.bytes data;
           Uint8Array.byteOffset := WorkerReply.byteOffset data;
           Uint8Array.length := WorkerReply.byteLength data |} in
      let segment := Segment.set_bytes segment bytes in
      let '(_, segment, effects) :=
        handleDecryptedBytes segment bytes false true in
      (segment, removed :: effects)
    else (segment, [removed; Throw])
  else (segment, []).

(** Registers the listener, then posts the encrypted bytes, the key and
    the iv; the two buffers of the transfer list pass to the worker. *)
Definition decryptSegment (segment : Seg) : list Effect :=
  let added := AddEventListener (Segment.requestId segment) in
  match Segment.encryptedBytes segment, Segment.key segment with
  | Some encrypted, Some k =>
      match Key.bytes k with
      | Some keyBytes =>
          [added;
           PostMessage
             {| WorkerMessage.source := Segment.requestId segment;
                WorkerMessage.encrypted := encrypted;
                WorkerMessage.key := keyBytes;
                WorkerMessage.iv := Key.iv k |}]
      | None => [added; Throw]
      end
  | _, _ => [added; Throw]
  end.

(** A reply arriving on the channel reaches the listener of [segment] if
    it is registered; the channel then reflects the calls the listener
    made. *)
Definition onWorkerMessage (decrypter : Decrypter.t) (segment : Seg)
    (data : WorkerReply.t) : Decrypter.t * Seg * list Effect :=
  if Decrypter.registered decrypter (Segment.requestId segment) then
    let '(segment, effects) := decryptionHandler segment data in
    (Decrypter.run decrypter effects, segment, effects)
  else (decrypter, segment, []).

(** *** Completion tracker *)

(** The variables the closure of [waitForCompletion] captures. *)
Record Tracker : Type := {
  errors : list ErrorRecord.t;
  count : nat
}.

Definition waitForCompletion : Tracker := {| errors := []; count := 0 |}.

(** The final hand-off to the parse dispatcher; [segment.bytes] must be a
    buffer for either collaborator to be called. *)
Definition dispatchFinal (segment : Seg) : Seg * list Effect :=
  match Segment.bytes segment with
  | Some bytes =>
      let '(_, segment, effects) :=
        handleDecryptedBytes segment bytes false true in
      (segment, effects)
  | None => (segment, [Throw])
  end.

(** The callback [waitForCompletion] returns, called
    [finishProcessingFn] by the handlers.  [activeXhrs] is the shared
    array as it is when the callback runs. *)
Definition finishProcessingFn (activeXhrs : list Xhr) (now : Z)
    (tracker : Tracker) (error : option ErrorRecord.t) (segment : Seg)
  : Tracker * Seg * list Effect :=
  let '(errors, aborts) :=
    match error with
    | Some e => (errors tracker ++ [e], abortAll activeXhrs)
    | None => (errors tracker, [])
    end in
  let count := S (count tracker) in
  let tracker := {| errors := errors; count := count |} in
  if (count =? List.length activeXhrs)%nat then
    let segment := Segment.set_endOfAllRequests segment now in
    if (0 <? List.length errors)%nat then
      match getMostImportantError errors with
      | Some worstError =>
          (tracker, segment, aborts ++ [DoneFn (Some worstError) None])
      | None => (tracker, segment, aborts ++ [Throw])
      end
    else
      match Segment.encryptedBytes segment with
      | Some _ => (tracker, segment, aborts ++ decryptSegment segment)
      | None =>
          let '(segment, effects) := dispatchFinal segment in
          (tracker, segment, aborts ++ effects)
      end
  else (tracker, segment, aborts).

(** *** Progress handler *)

(** The guard of [handleProgress]: no key, and no init segment still to
    be fetched. *)
Definition progressParses (segment : Seg) : bool :=
  match Segment.key segment with
  | Some _ => false
  | None =>
      match Segment.map segment with
      | None => true
      | Some m => match Map.bytes m with Some _ => true | None => false end
      end
  end.

(** [now] is the clock read by [getProgressStats], [firstByteNow] the one
    read when the first byte is recorded. *)
Definition handleProgress (segment : Seg) (event : ProgressEvent.t)
    (now firstByteNow : Z) : Seg * list Effect :=
  let request := ProgressEvent.target event in
  let '(segment, parsed) :=
    if progressParses segment then
      let newBytes := newBytesOf segment request in
      let '(handledBytes, segment, effects) :=
        handleDecryptedBytes segment (Uint8Array.ofBuffer newBytes)
          true false in
      (Segment.set_lastReachedChar segment
         (JsNum.add (Segment.lastReachedChar segment) handledBytes),
       effects)
    else (segment, []) in
  let stats := mergeStats (Segment.stats segment)
                 (getProgressStats event now) in
  let stats :=
    if firstBytesMissing stats && JsNum.truthy (Stats.bytesReceived stats)
    then set_firstBytesReceivedAt stats firstByteNow
    else stats in
  (Segment.set_stats segment stats, parsed ++ [ProgressFn event]).

(** *** Runs *)

(** Replies arriving one after the other on the worker channel. *)
Fixpoint deliverAll (decrypter : Decrypter.t) (segment : Seg)
    (replies : list WorkerReply.t) : Decrypter.t * Seg * list Effect :=
  match replies with
  | [] => (decrypter, segment, [])
  | data :: rest =>
      let '(decrypter, segment, effects) :=
        onWorkerMessage decrypter segment data in
      let '(decrypter, segment, later) :=
        deliverAll decrypter segment rest in
      (decrypter, segment, effects ++ later)
  end.

(** One progress notification with the two clock readings it makes. *)
Record ProgressCall : Type := {
  event : ProgressEvent.t;
  now : Z;
  firstByteNow : Z
}.

(** The byte count the dispatcher reports to [handleProgress] for one
    notification; 0 when the guard keeps the dispatcher from being
    called. *)
Definition consumedByProgress (segment : Seg) (call : ProgressCall) : Z :=
  if progressParses segment then
    fst (fst (handleDecryptedBytes segment
                (Uint8Array.ofBuffer
                   (newBytesOf segment (ProgressEvent.target (event call))))
                true false))
  else 0.

(** Progress notifications handled one after the other: the descriptor
    they leave, the calls made, and the consumed counts reported. *)
Fixpoint progressRun (segment : Seg) (calls : list ProgressCall)
  : Seg * list Effect * list Z :=
  match calls with
  | [] => (segment, [], [])
  | call :: rest =>
      let consumed := consumedByProgress segment call in
      let '(segment, effects) :=
        handleProgress segment (event call) (now call) (firstByteNow call) in
      let '(segment, later, counts) := progressRun segment rest in
      (segment, effects ++ later, consumed :: counts)
  end.

(** The state of one invocation of [mediaSegmentRequest]. *)
Record Pipeline : Type := {
  segment : Seg;
  activeXhrs : list Xhr;
  tracker : Tracker;
  decrypter : Decrypter.t
}.

(** What the event loop delivers to the invocation: the response callback
    of a request, a progress notification of the media-segment request, a
    reply on the worker channel. *)
Inductive Event : Type :=
| Response (x : Xhr) (error : option string) (request : Request.t) (at_ : Z)
| Progress (call : ProgressCall)
| WorkerReplied (data : WorkerReply.t).

(** [mediaSegmentRequest] has issued its requests and returned. *)
Definition start (decrypter : Decrypter.t) (segment : Seg) : Pipeline :=
  {| segment := segment;
     activeXhrs := mediaSegmentRequest segment;
     tracker := waitForCompletion;
     decrypter := decrypter |}.

Definition responseHandler (x : Xhr)
  : Seg -> option string -> Request.t -> Outcome Seg :=
  match x with
  | KeyXhr => handleKeyResponse
  | InitSegmentXhr => handleInitSegmentResponse
  | SegmentXhr => handleSegmentResponse
  end.

Definition step (p : Pipeline) (ev : Event) : Pipeline * list Effect :=
  match ev with
  | Response x error request at_ =>
      match responseHandler x (segment p) error request with
      | Forward e seg =>
          let '(tracker, seg, effects) :=
            finishProcessingFn (activeXhrs p) at_ (tracker p) e seg in
          ({| segment := seg;
              activeXhrs := activeXhrs p;
              tracker := tracker;
              decrypter := Decrypter.run (decrypter p) effects |},
           effects)
      | Raise => (p, [Throw])
      end
  | Progress call =>
      let '(seg, effects) :=
        handleProgress (segment p) (event call) (now call)
          (firstByteNow call) in
      ({| segment := seg;
          activeXhrs := activeXhrs p;
          tracker := tracker p;
          decrypter := decrypter p |},
       effects)
  | WorkerReplied data =>
      let '(decrypter, seg, effects) :=
        onWorkerMessage (decrypter p) (segment p) data in
      ({| segment := seg;
          activeXhrs := activeXhrs p;
          tracker := tracker p;
          decrypter := decrypter |},
       effects)
  end.

Fixpoint run (p : Pipeline) (events : list Event) : Pipeline * list Effect :=
  match events with
  | [] => (p, [])
  | ev :: rest =>
      let '(p, effects) := step p ev in
      let '(p, later) := run p rest in
      (p, effects ++ later)
  end.

End Pipeline.

(** ** The other revision of the module

    The repository holds a second revision of the same module.  It differs
    from the one above in two functions only: [handleProgress] tests the
    key alone, and [parseMp4AndNotify] finds the complete boxes itself
    ([completeMp4BoxesOffset]) and asks the mp4 inspector of mux.js for
    their contents.  Everything else is shared. *)

Module Part000.
Section Revision.
Context {Boxes TrackInfo : Type}.
Variable stringToArrayBuffer : JsString -> list byte.

(** The bookkeeping of [parseMp4AndNotify] between the call of the
    inspector and the call of [dataFn]: from the boxes kept on the
    descriptor, the buffer and the offset of the complete boxes, the boxes
    kept afterwards and the bytes to hand to [dataFn].  It is decided by
    the inspector and [parseBoxType] of mux.js; the bytes are [None] when a
    box it looks for is missing and the property access throws. *)
Variable collectBoxes :
  option Boxes -> Uint8Array.t -> Z -> option Boxes * option (list byte).

Let Seg : Type := Segment.t Boxes TrackInfo.

(** The [while] loop of [completeMp4BoxesOffset]; every round that goes on
    takes at least one byte off [remainingBytes], so the length of the
    array bounds the number of rounds.  [view] is
    [new DataView(bytes.buffer)]: the sizes are read in the buffer behind
    the array, from the first byte of the buffer on. *)
Fixpoint completeBoxesLoop (rounds : nat) (view : list byte)
    (reachesEndOfFile : bool) (completeBoxesOffset remainingBytes : Z) : Z :=
  match rounds with
  | O => completeBoxesOffset
  | S rounds =>
      if remainingBytes >=? 8 then
        match getUint32 view (Z.to_nat completeBoxesOffset) with
        | None => completeBoxesOffset
        | Some size =>
            if (size =? 0) && negb reachesEndOfFile then completeBoxesOffset
            else
              let boxLength := if size =? 0 then remainingBytes else size in
              if remainingBytes <? boxLength then completeBoxesOffset
              else
                completeBoxesLoop rounds view reachesEndOfFile
                  (completeBoxesOffset + boxLength)
                  (remainingBytes - boxLength)
        end
      else completeBoxesOffset
  end.

Definition completeMp4BoxesOffset (bytes : Uint8Array.t)
    (reachesEndOfFile : bool) : Z :=
  completeBoxesLoop (S (List.length (Uint8Array.bytes bytes)))
    (Uint8Array.buffer bytes) reachesEndOfFile 0
    (Uint8Array.byteLength bytes).

(** The first component is [None] when the function throws. *)
Definition parseMp4AndNotify (segment : Seg) (bytes : Uint8Array.t)
    (isPartial : bool) : option Z * Seg * list Effect :=
  let completeBoxesOffset := completeMp4BoxesOffset bytes isPartial in
  let inspected :=
    MuxInspect
      (firstn (Z.to_nat completeBoxesOffset) (Uint8Array.bytes bytes)) in
  let '(boxes, resultBytes) :=
    collectBoxes (Segment.boxes segment) bytes completeBoxesOffset in
  let segment := Segment.set_boxes segment boxes in
  match resultBytes with
  | None => (None, segment, [inspected; Throw])
  | Some data =>
      (Some completeBoxesOffset, segment,
       inspected
         :: (if (0 <? List.length data)%nat then
               [DataFn {| Chunk.data := data;
                          Chunk.timingInfo := emptyTimingInfo |}]
             else []))
  end.

Definition handleDecryptedBytes (segment : Seg) (bytes : Uint8Array.t)
    (isPartial : bool) (doneFn : bool) : option Z * Seg * list Effect :=
  match Segment.map segment with
  | Some _ => parseMp4AndNotify segment bytes isPartial
  | None =>
      (Some (Uint8Array.byteLength bytes), segment,
       transmuxAndNotify bytes isPartial doneFn)
  end.

(** The handler ends where the dispatcher throws. *)
Definition handleProgress (segment : Seg) (event : ProgressEvent.t)
    (now firstByteNow : Z) : Seg * list Effect :=
  let request := ProgressEvent.target event in
  let finish (segment : Seg) (parsed : list Effect) :=
    let stats := mergeStats (Segment.stats segment)
                   (getProgressStats event now) in
    let stats :=
      if firstBytesMissing stats && JsNum.truthy (Stats.bytesReceived stats)
      then set_firstBytesReceivedAt stats firstByteNow
      else stats in
    (Segment.set_stats segment stats, parsed ++ [ProgressFn event]) in
  match Segment.key segment with
  | None =>
      let newBytes := newBytesOf stringToArrayBuffer segment request in
      match handleDecryptedBytes segment (Uint8Array.ofBuffer newBytes)
              true false with
      | (Some decryptedBytes, segment, effects) =>
          finish
            (Segment.set_lastReachedChar segment
               (JsNum.add (Segment.lastReachedChar segment) decryptedBytes))
            effects
      | (None, segment, effects) => (segment, effects)
      end
  | Some _ => finish segment []
  end.
End Revision.
End Part000.

(** ** Specification vocabulary *)

(** [w] is the first element of [l] whose code is maximal in [l]. *)
Definition first_maximal (l : list ErrorRecord.t) (w : ErrorRecord.t)
  : Prop :=
  exists before after,
    l = before ++ w :: after
    /\ (forall e, In e before ->
          ErrorRecord.code e < ErrorRecord.code w)
    /\ (forall e, In e after ->
          ErrorRecord.code e <= ErrorRecord.code w).

(** A call of one of the two parsing collaborators, that is, one call of
    the parse dispatcher; a final one has [isPartial = false], which the
    box parser receives as [isEndOfSegment = true]. *)
Definition isDispatch (e : Effect) : bool :=
  match e with
  | InspectMp4 _ _ | Transmux _ _ _ => true
  | _ => false
  end.

Definition isFinalDispatch (e : Effect) : bool :=
  match e with
  | InspectMp4 _ true | Transmux _ false _ => true
  | _ => false
  end.

Definition isDoneFn (e : Effect) : bool :=
  match e with
  | DoneFn _ _ => true
  | _ => false
  end.

Definition countEffects (p : Effect -> bool) (effects : list Effect) : nat :=
  List.length (filter p effects).

(** The three ways the completion tracker hands a segment off. *)
Inductive Path : Type :=
| ErrorPath (worstError : ErrorRecord.t)
| DecryptPath
| ParsePath (bytes : list byte).

(** The hand-off an outgoing call begins, if any: reporting an error to
    [doneFn], registering the decryption listener, or a final call of a
    parsing collaborator, with the bytes the collaborator is given. *)
Definition handOff (e : Effect) : list Path :=
  match e with
  | DoneFn (Some worstError) _ => [ErrorPath worstError]
  | AddEventListener _ => [DecryptPath]
  | InspectMp4 bytes true => [ParsePath bytes]
  | Transmux buffer false _ => [ParsePath buffer]
  | _ => []
  end.

(** What the parsing collaborator of a segment is given of an array: the
    box parser the array, the transmuxer the buffer behind it. *)
Definition dispatched {Boxes TrackInfo : Type}
    (segment : Segment.t Boxes TrackInfo) (bytes : Uint8Array.t)
  : list byte :=
  match Segment.map segment with
  | Some _ => Uint8Array.bytes bytes
  | None => Uint8Array.buffer bytes
  end.

Definition handOffs (effects : list Effect) : list Path :=
  flat_map handOff effects.

(** Calls made on the worker channel. *)
Definition isWorkerCall (e : Effect) : bool :=
  match e with
  | AddEventListener _ | RemoveEventListener _ | PostMessage _ => true
  | _ => false
  end.

Definition sumZ (l : list Z) : Z := fold_right Z.add 0 l.

(** The length of the response text a progress notification sees. *)
Definition textLength (call : ProgressCall) : Z :=
  Z.of_nat (List.length
              (Request.responseText (ProgressEvent.target (event call)))).

(** The cancellation calls one request receives. *)
Definition isAbortOf (x : Xhr) (e : Effect) : bool :=
  match e with
  | XhrAbort y => if Xhr_eq_dec x y then true else false
  | _ => false
  end.

(** The requests whose response callback runs in a list of events, in
    order. *)
Definition responded (events : list Event) : list Xhr :=
  flat_map (fun ev => match ev with
                      | Response x _ _ _ => [x]
                      | _ => []
                      end) events.

(** Events of the requests themselves, as opposed to worker replies. *)
Definition isRequestEvent (ev : Event) : bool :=
  match ev with
  | WorkerReplied _ => false
  | _ => true
  end.

(** The array [decryptionHandler] builds over the buffer of a reply:
    [new Uint8Array(decrypted.bytes, decrypted.byteOffset,
    decrypted.byteLength)]. *)
Definition decryptedView (data : WorkerReply.t) : Uint8Array.t :=
  {| Uint8Array.buffer := WorkerReply.bytes data;
     Uint8Array.byteOffset := WorkerReply.byteOffset data;
     Uint8Array.length := WorkerReply.byteLength data |}.

(** What decides the path of a hand-off: the accumulated errors first,
    of which the first of the most severe ones is reported, then the
    encrypted buffer; the bytes parsed otherwise are those of
    [segment.bytes], an array that covers its buffer. *)
Definition taken {Boxes TrackInfo : Type} (errors : list ErrorRecord.t)
    (segment : Segment.t Boxes TrackInfo) (path : Path) : Prop :=
  match path with
  | ErrorPath worstError =>
      getMostImportantError errors = Some worstError
      /\ first_maximal errors worstError
  | DecryptPath => errors = [] /\ Segment.encryptedBytes segment <> None
  | ParsePath bytes =>
      errors = []
      /\ Segment.encryptedBytes segment = None
      /\ Segment.bytes segment = Some (Uint8Array.ofBuffer bytes)
  end.

(** The sentence of the specification on cancellation, read at a point
    of an invocation where some request has completed with an error:
    every request still in flight (not among the [completed] ones) has
    received exactly one cancellation call. *)
Definition cancelled_exactly_once (xhrs completed : list Xhr)
    (effects : list Effect) : Prop :=
  forall x, In x xhrs -> ~ In x completed ->
            countEffects (isAbortOf x) effects = 1%nat.

Definition isAbort (e : Effect) : bool :=
  match e with
  | XhrAbort _ => true
  | _ => false
  end.

(** The fields of the descriptor that neither the tracker nor the
    dispatcher writes. *)
Definition same_buffers {Boxes TrackInfo : Type}
    (a b : Segment.t Boxes TrackInfo) : Prop :=
  Segment.key b = Segment.key a
  /\ Segment.map b = Segment.map a
  /\ Segment.bytes b = Segment.bytes a
  /\ Segment.encryptedBytes b = Segment.encryptedBytes a
  /\ Segment.lastReachedChar b = Segment.lastReachedChar a.

(** What holds of an invocation for [segment0] once the requests [seen]
    have completed: the tracker has counted them, the sub-records that
    made [mediaSegmentRequest] issue a request are still there, and a
    media-segment response accepted without error has left its bytes, as
    an array of its own buffer. *)
Definition consistent {Boxes TrackInfo : Type}
    (segment0 : Segment.t Boxes TrackInfo) (seen : list Xhr)
    (p : @Pipeline Boxes TrackInfo) : Prop :=
  activeXhrs p = mediaSegmentRequest segment0
  /\ count (tracker p) = List.length seen
  /\ (Segment.key segment0 <> None -> Segment.key (segment p) <> None)
  /\ (Segment.map segment0 <> None -> Segment.map (segment p) <> None)
  /\ (In SegmentXhr seen ->
      errors (tracker p) = [] ->
      Segment.encryptedBytes (segment p) = None ->
      exists bytes,
        Segment.bytes (segment p) = Some (Uint8Array.ofBuffer bytes)).

(** ** Sample values *)

Module Sample.
Definition request (uri : string) (timedout aborted : bool)
    (response : list byte) (responseText : JsString) : Request.t :=
  {| Request.status := 200;
     Request.uri := uri;
     Request.timedout := timedout;
     Request.aborted := aborted;
     Request.response := response;
     Request.responseText := responseText;
     Request.bandwidth := JsNum.Num 8000;
     Request.bytesReceived := JsNum.Num (Z.of_nat (List.length response));
     Request.roundTripTime := JsNum.Num 10;
     Request.requestTime := 1000 |}.

Definition failure : ErrorRecord.t :=
  mkError (request "key.php" false false [] [])
    "HLS request errored at URL: " REQUEST_ERRORS.FAILURE.

Definition timeout : ErrorRecord.t :=
  mkError (request "key.php" true false [] [])
    "HLS request timed-out at URL: " REQUEST_ERRORS.TIMEOUT.

Definition abortedInit : ErrorRecord.t :=
  mkError (request "init.mp4" false true [] [])
    "HLS request aborted at URL: " REQUEST_ERRORS.ABORTED.

Definition abortedSegment : ErrorRecord.t :=
  mkError (request "segment.ts" false true [] [])
    "HLS request aborted at URL: " REQUEST_ERRORS.ABORTED.
End Sample.

(** The big-endian value of four bytes. *)
Definition be32 (b0 b1 b2 b3 : byte) : Z :=
  u8 b0 * 2 ^ 24 + u8 b1 * 2 ^ 16 + u8 b2 * 2 ^ 8 + u8 b3.

Module SampleSegment.
Definition key : Key.t :=
  {| Key.resolvedUri := "key.php"; Key.bytes := None; Key.iv := [0; 0; 0; 1] |}.

Definition pendingMap : Map.t :=
  {| Map.resolvedUri := "init.mp4"; Map.bytes := None |}.

Definition fetchedMap : Map.t :=
  {| Map.resolvedUri := "init.mp4"; Map.bytes := Some ["001"%byte] |}.

(** A descriptor as the caller creates it. *)
Definition fresh (key : option Key.t) (map : option Map.t)
  : Segment.t unit unit :=
  {| Segment.resolvedUri := "segment.ts";
     Segment.requestId := "segment-loader-1";
     Segment.key := key;
     Segment.map := map;
     Segment.lastReachedChar := JsNum.Num 0;
     Segment.stats := None;
     Segment.bytes := None;
     Segment.encryptedBytes := None;
     Segment.boxes := None;
     Segment.endOfAllRequests := None;
     Segment.trackInfo := None |}.

Definition keyBody : list byte :=
  ["000"; "000"; "000"; "001"; "000"; "000"; "001"; "000";
   "000"; "001"; "000"; "000"; "001"; "000"; "000"; "000"]%byte.
End SampleSegment.

Module SampleTransmux.
Definition timing : TimingInfo.t :=
  {| TimingInfo.start := Some 0; TimingInfo.finish := Some 10 |}.

Definition videoOnly : TransmuxResult.t :=
  {| TransmuxResult.audioTimingInfo := None;
     TransmuxResult.videoTimingInfo := Some timing |}.

Definition empty : TransmuxResult.t :=
  {| TransmuxResult.audioTimingInfo := None;
     TransmuxResult.videoTimingInfo := None |}.
End SampleTransmux.

Module SampleWorker.
Definition channel : Decrypter.t :=
  {| Decrypter.listeners := ["segment-loader-0"%string]; Decrypter.posted := [] |}.

Definition encrypted : Segment.t unit unit :=
  Segment.set_encryptedBytes
    (SampleSegment.fresh
       (Some (Key.set_bytes SampleSegment.key [1; 256; 65536; 16777216]))
       None)
    ["017"; "042"]%byte.

Definition otherReply : WorkerReply.t :=
  {| WorkerReply.source := "segment-loader-0";
     WorkerReply.bytes := ["007"]%byte;
     WorkerReply.byteOffset := 0;
     WorkerReply.byteLength := 1 |}.

Definition reply : WorkerReply.t :=
  {| WorkerReply.source := "segment-loader-1";
     WorkerReply.bytes := ["000"; "071"; "064"]%byte;
     WorkerReply.byteOffset := 1;
     WorkerReply.byteLength := 2 |}.

(** A box parser that finds no complete box. *)
Definition noBoxes (data : list byte) (isEndOfSegment : bool)
    (boxes : option unit) : Mp4Result.t unit :=
  {| Mp4Result.bytes := None;
     Mp4Result.boxes := boxes;
     Mp4Result.numUsedBytes := 0 |}.
End SampleWorker.

Module SampleProgress.
(** The response text received so far: one complete 8-byte [free] box. *)
Definition text : JsString := [0; 0; 0; 8; 102; 114; 101; 101]%N.

(** Code unit to byte, as the [x-user-defined] charset is read back. *)
Definition toBytes (s : JsString) : list byte :=
  List.map (fun c => match Byte.of_N (c mod 256) with
                     | Some b => b
                     | None => Byte.x00
                     end) s.

Definition boxEvent : ProgressEvent.t :=
  {| ProgressEvent.target :=
       Sample.request "segment.mp4" false false [] text;
     ProgressEvent.loaded := 8 |}.

(** Two notifications of a transport stream, after 3 and after 5 of its 8
    code units. *)
Definition tsText : JsString := [71; 64; 0; 16; 0; 0; 176; 13]%N.

Definition call (received : nat) (at_ : Z) : ProgressCall :=
  {| event :=
       {| ProgressEvent.target :=
            Sample.request "segment.ts" false false []
              (firstn received tsText);
          ProgressEvent.loaded := Z.of_nat received |};
     now := at_;
     firstByteNow := at_ |}.

Definition calls : list ProgressCall := [call 3 1010; call 5 1020].

Definition completed : Request.t :=
  Sample.request "segment.ts" false false ["071"%byte] tsText.

(** An fmp4 segment without a key whose init segment is still in flight. *)
Definition pendingInit : Segment.t unit unit :=
  SampleSegment.fresh None (Some SampleSegment.pendingMap).
End SampleProgress.

Module SampleRun.
Definition keyed : Segment.t unit unit :=
  SampleSegment.fresh (Some SampleSegment.key) None.

Definition keyResponse : Request.t :=
  Sample.request "key.php" false false SampleSegment.keyBody [].

Definition keyFailed : Request.t :=
  {| Request.status := 500;
     Request.uri := "key.php";
     Request.timedout := false;
     Request.aborted := false;
     Request.response := [];
     Request.responseText := [];
     Request.bandwidth := JsNum.Undefined;
     Request.bytesReceived := JsNum.Undefined;
     Request.roundTripTime := JsNum.Undefined;
     Request.requestTime := 1000 |}.

Definition segmentAborted : Request.t :=
  Sample.request "segment.ts" false true [] [].

Definition idle : Decrypter.t :=
  {| Decrypter.listeners := []; Decrypter.posted := [] |}.

(** The media segment completes first, then the key. *)
Definition succeeding : list Event :=
  [Progress (SampleProgress.call 3 1010);
   Response SegmentXhr None SampleProgress.completed 1030;
   Response KeyXhr None keyResponse 1040].

Definition initAborted : Request.t :=
  Sample.request "init.mp4" false true [] [].

(** An encrypted fmp4 segment: three requests. *)
Definition keyedFmp4 : Segment.t unit unit :=
  SampleSegment.fresh (Some SampleSegment.key)
    (Some SampleSegment.pendingMap).

(** The key request fails; the two requests the tracker cancelled then
    complete as aborted, the init segment first. *)
Definition failing : list Event :=
  [Response KeyXhr (Some "XHR Failed with a response of: 500"%string)
     keyFailed 1030;
   Response InitSegmentXhr None initAborted 1031;
   Response SegmentXhr None segmentAborted 1032].
End SampleRun.

From Stdlib Require Import Ascii DecimalString DecimalZ DecimalPos.

(** ** Further vocabulary *)

(** The bytes pushed to the transmuxer, in order. *)
Definition transmuxed (effects : list Effect) : list byte :=
  flat_map (fun e => match e with
                     | Transmux bytes _ _ => bytes
                     | _ => []
                     end) effects.

(** [!!segment.map] *)
Definition hasMap {Boxes TrackInfo : Type}
    (segment : Segment.t Boxes TrackInfo) : bool :=
  match Segment.map segment with Some _ => true | None => false end.

(** How a call of a parsing collaborator must look for a segment with
    ([fmp4 = true]) or without an init segment: the box parser in the
    first case, the transmuxer in the second, which is given a [doneFn]
    on final pushes only. *)
Definition routed (fmp4 : bool) (e : Effect) : Prop :=
  match e with
  | InspectMp4 _ _ => fmp4 = true
  | Transmux _ isPartial hasDoneFn =>
      fmp4 = false /\ hasDoneFn = negb isPartial
  | _ => True
  end.

(** [segment.stats.firstBytesReceivedAt], undefined without [stats]. *)
Definition firstBytesReceivedAt {Boxes TrackInfo : Type}
    (segment : Segment.t Boxes TrackInfo) : option Z :=
  match Segment.stats segment with
  | Some stats => Stats.firstBytesReceivedAt stats
  | None => None
  end.

(** A cursor that was never initialised, or that one [+=] has turned into
    [NaN]. *)
Definition notANumber (x : JsNum.t) : Prop :=
  x = JsNum.Undefined \/ x = JsNum.NaN.

(** ** ISO BMFF boxes, as [completeMp4BoxesOffset] of the other revision
    reads them *)

(** A complete box: the eight bytes of its header at least, and as many
    bytes as its size field says. *)
Definition completeBox (box : list byte) : Prop :=
  (8 <= List.length box)%nat /\ getUint32 box 0 = Some (byteLength box).

(** A box whose size field is 0: its contents extend to the end of the
    file. *)
Definition openEndedBox (box : list byte) : Prop :=
  (8 <= List.length box)%nat /\ getUint32 box 0 = Some 0.

(** What is left of a buffer that ends inside a box: not even a header, or
    fewer bytes than the size field announces. *)
Definition truncatedBox (rest : list byte) : Prop :=
  (List.length rest < 8)%nat
  \/ exists size, getUint32 rest 0 = Some size /\ byteLength rest < size.

(** What [completeMp4BoxesOffset] reads of an array: as many bytes as the
    array has, but from the first byte of its buffer; they are the bytes
    of the array when the array starts its buffer. *)
Definition scanned (bytes : Uint8Array.t) : list byte :=
  firstn (List.length (Uint8Array.bytes bytes)) (Uint8Array.buffer bytes).

(** How a run of the loop of [completeMp4BoxesOffset] can end: with the
    offset, with the [RangeError] of [getUint32], or not at all within
    the rounds given. *)
Inductive Scan : Type :=
| Offset (completeBoxesOffset : Z)
| ScanRangeError
| ScanUnfinished.

(** The loop once more, round by round, with the two ways of going wrong
    kept apart from the result. *)
Fixpoint scanBoxes (rounds : nat) (view : list byte)
    (reachesEndOfFile : bool) (completeBoxesOffset remainingBytes : Z)
  : Scan :=
  match rounds with
  | O => ScanUnfinished
  | S rounds =>
      if remainingBytes >=? 8 then
        match getUint32 view (Z.to_nat completeBoxesOffset) with
        | None => ScanRangeError
        | Some size =>
            if (size =? 0) && negb reachesEndOfFile then
              Offset completeBoxesOffset
            else
              let boxLength := if size =? 0 then remainingBytes else size in
              if remainingBytes <? boxLength then Offset completeBoxesOffset
              else
                scanBoxes rounds view reachesEndOfFile
                  (completeBoxesOffset + boxLength)
                  (remainingBytes - boxLength)
        end
      else Offset completeBoxesOffset
  end.

Module SampleBoxes.
(** A complete [free] box, an [mdat] box of 16 bytes cut after its header,
    and an [mdat] box with size field 0. *)
Definition free : list byte :=
  ["000"; "000"; "000"; "008"; "f"; "r"; "e"; "e"]%byte.

Definition cutMdat : list byte :=
  ["000"; "000"; "000"; "016"; "m"; "d"; "a"; "t"]%byte.

Definition openMdat : list byte :=
  ["000"; "000"; "000"; "000"; "m"; "d"; "a"; "t"; "001"]%byte.

(** Box bookkeeping that keeps nothing and hands nothing on. *)
Definition collect (_ : option unit) (_ : Uint8Array.t) (_ : Z)
  : option unit * option (list byte) :=
  (None, Some []).

(** The decrypted bytes of a worker reply: the [free] box, shown by an
    array that starts eight bytes into its buffer. *)
Definition decrypted : Uint8Array.t :=
  {| Uint8Array.buffer := cutMdat ++ free;
     Uint8Array.byteOffset := 8;
     Uint8Array.length := 8 |}.
End SampleBoxes.

(** ** What reaches [doneFn] *)

(** An error record carrying one of the three codes of
    [REQUEST_ERRORS]. *)
Definition classified (e : ErrorRecord.t) : Prop :=
  ErrorRecord.code e = REQUEST_ERRORS.FAILURE
  \/ ErrorRecord.code e = REQUEST_ERRORS.TIMEOUT
  \/ ErrorRecord.code e = REQUEST_ERRORS.ABORTED.

(** A call of [doneFn] that reports an error and no result. *)
Definition reportsError (e : Effect) : Prop :=
  match e with
  | DoneFn error result =>
      result = None /\ exists worst, error = Some worst /\ classified worst
  | _ => True
  end.

(** ** Successful responses *)

(** [new Uint32Array([view.getUint32(0), view.getUint32(4),
    view.getUint32(8), view.getUint32(12)])] of the key handler. *)
Definition keyWords (response : list byte) : option (list Z) :=
  match getUint32 response 0, getUint32 response 4,
        getUint32 response 8, getUint32 response 12 with
  | Some w0, Some w1, Some w2, Some w3 => Some [w0; w1; w2; w3]
  | _, _, _, _ => None
  end.

(** A response that passes the checks of its handler: no error, no
    time-out, no abort, and a body of 16 bytes for the key, of at least
    one byte for the init segment. *)
Definition succeeds (x : Xhr) (error : option string) (request : Request.t)
  : Prop :=
  handleErrors error request = None
  /\ match x with
     | KeyXhr => byteLength (Request.response request) = 16
     | InitSegmentXhr => byteLength (Request.response request) <> 0
     | SegmentXhr => True
     end.

(** Every response of the event succeeds; the key request is answered by
    [keyRequest], the media request by [segmentRequest]. *)
Definition answeredBy (keyRequest segmentRequest : Request.t) (ev : Event)
  : Prop :=
  match ev with
  | Response x error request _ =>
      succeeds x error request
      /\ (x = KeyXhr -> request = keyRequest)
      /\ (x = SegmentXhr -> request = segmentRequest)
  | _ => True
  end.

(** ** [rawDataForBox] of the other revision *)

(** [bytes.subarray(begin, end)] *)
Definition subarray (bytes : list byte) (begin_ end_ : nat) : list byte :=
  firstn (end_ - begin_) (skipn begin_ bytes).

(** What [rawDataForBox] comes to: a view on the buffer, [null], or the
    [RangeError] of [getUint32]. *)
Inductive RawData : Type :=
| Found (rawData : list byte)
| NotFound
| OutOfRange.

Section RawDataForBox.
(** [parseType] of mux.js [lib/mp4/probe], imported as [parseBoxType]:
    the name spelt by the first four bytes of its argument. *)
Variable parseBoxType : list byte -> string.

(** The [for] loop: [offset] goes up by 4 until it reaches the length of
    the array, so that length bounds the number of rounds.  The type is
    looked for in the array, the size is read in the buffer behind it
    ([new DataView(bytes.buffer)]), at the same offset counted from the
    first byte of the buffer. *)
Fixpoint rawDataLoop (rounds : nat) (bytes : Uint8Array.t)
    (boxType : string) (offset : nat) : RawData :=
  match rounds with
  | O => NotFound
  | S rounds =>
      if (offset <? List.length (Uint8Array.bytes bytes))%nat then
        if String.eqb
             (parseBoxType
                (subarray (Uint8Array.bytes bytes) offset (offset + 4)))
             boxType
        then
          match getUint32 (Uint8Array.buffer bytes) (offset - 4) with
          | Some boxLength =>
              if boxLength =? 0 then
                Found (skipn (offset - 4) (Uint8Array.bytes bytes))
              else
                Found (subarray (Uint8Array.bytes bytes) (offset - 4)
                         (Z.to_nat boxLength))
          | None => OutOfRange
          end
        else rawDataLoop rounds bytes boxType (offset + 4)
      else NotFound
  end.

Definition rawDataForBox (bytes : Uint8Array.t) (boxType : string)
  : RawData :=
  rawDataLoop (S (List.length (Uint8Array.bytes bytes))) bytes boxType 4.
End RawDataForBox.

Module SampleRawData.
(** The four bytes as characters, as [String.fromCharCode] gives them. *)
Definition parseType (buffer : list byte) : string :=
  string_of_list_byte (firstn 4 buffer).

(** A [free] box of eight bytes followed by an [mdat] box of nine. *)
Definition segment : list byte :=
  ["000"; "000"; "000"; "008"; "f"; "r"; "e"; "e";
   "000"; "000"; "000"; "009"; "m"; "d"; "a"; "t"; "001"]%byte.

(** The [mdat] box alone, shown by an array that starts eight bytes into
    the buffer of the segment. *)
Definition mdat : Uint8Array.t :=
  {| Uint8Array.buffer := segment;
     Uint8Array.byteOffset := 8;
     Uint8Array.length := 9 |}.
End SampleRawData.

(** ** Range headers *)

(** [segment.byterange] *)
Module Byterange.
Record t : Type := {
  offset : Z;
  length : Z
}.
End Byterange.

(** The digits of an integer, with a sign if it is negative. *)
Definition decimal (n : Z) : string :=
  NilZero.string_of_int (Z.to_int n).

(** The integers every one of which a double holds. *)
Definition safeInteger (n : Z) : Prop := - 2 ^ 53 <= n <= 2 ^ 53.

Section RangeHeaders.
(** The numbers of a byte range are doubles with integer values.  [+] and
    [-] on doubles round their result, and a number is written in a
    string by [Number::toString]; the three are parameters here. *)
Variable plus minus : Z -> Z -> Z.
Variable numberToString : Z -> string.

Definition byterangeStr (byterange : Byterange.t) : string :=
  let byterangeEnd :=
    minus (plus (Byterange.offset byterange) (Byterange.length byterange))
      1 in
  let byterangeStart := Byterange.offset byterange in
  ("bytes=" ++ numberToString byterangeStart ++ "-"
   ++ numberToString byterangeEnd)%string.

(** The headers object, as the list of its properties; the argument is
    the [byterange] of the segment or of its [map]. *)
Definition segmentXhrHeaders (byterange : option Byterange.t)
  : list (string * string) :=
  match byterange with
  | Some r => [("Range"%string, byterangeStr r)]
  | None => []
  end.

(** What is known of the three: where operands and result are safe
    integers nothing is rounded, and a safe integer is written in decimal
    digits. *)
Definition exactOnSafeIntegers : Prop :=
  (forall a b, safeInteger a -> safeInteger b -> safeInteger (a + b) ->
               plus a b = a + b)
  /\ (forall a b, safeInteger a -> safeInteger b -> safeInteger (a - b) ->
                  minus a b = a - b)
  /\ (forall a, safeInteger a -> numberToString a = decimal a).
End RangeHeaders.

(** A byte range of a resource that safe integers can address. *)
Definition safeRange (r : Byterange.t) : Prop :=
  0 <= Byterange.offset r
  /\ 0 <= Byterange.length r
  /\ Byterange.offset r + Byterange.length r <= 2 ^ 53.

(** A string without the character [-]. *)
Fixpoint noDash (s : string) : Prop :=
  match s with
  | EmptyString => True
  | String c rest => c <> "-"%char /\ noDash rest
  end.

(** * Properties *)

(** ** The most important error *)

Section MostImportant.
Let pick (prev err : ErrorRecord.t) : ErrorRecord.t :=
  if ErrorRecord.code err >? ErrorRecord.code prev then err else prev.

Lemma first_maximal_snoc l prev err :
  first_maximal l prev -> first_maximal (l ++ [err]) (pick prev err).
Proof.
  intros (before & after & -> & Hb & Ha). unfold pick.
  destruct (ErrorRecord.code err >? ErrorRecord.code prev) eqn:E.
  - apply Z.gtb_lt in E.
    exists (before ++ prev :: after), []. repeat split.
    + intros e [Hin | [<- | Hin]]%in_app_iff.
      * specialize (Hb e Hin). lia.
      * lia.
      * specialize (Ha e Hin). lia.
    + intros e [].
  - assert (ErrorRecord.code err <= ErrorRecord.code prev).
    { rewrite Z.gtb_ltb in E. apply Z.ltb_ge in E. lia. }
    exists before, (after ++ [err]). repeat split.
    + now rewrite <- app_assoc.
    + assumption.
    + intros e [Hin | [<- | []]]%in_app_iff; [now apply Ha | assumption].
Qed.

Lemma first_maximal_fold rest :
  forall l prev,
    first_maximal l prev ->
    first_maximal (l ++ rest) (fold_left pick rest prev).
Proof.
  induction rest as [| err rest IH]; intros l prev H; simpl.
  - now rewrite app_nil_r.
  - replace (l ++ err :: rest) with ((l ++ [err]) ++ rest)
      by now rewrite <- app_assoc.
    apply IH. now apply first_maximal_snoc.
Qed.

Lemma getMostImportantError_spec errors :
  errors <> [] ->
  exists worst,
    getMostImportantError errors = Some worst /\ first_maximal errors worst.
Proof.
  destruct errors as [| first rest]; [congruence | intros _].
  exists (fold_left pick rest first). split; [reflexivity |].
  apply (first_maximal_fold rest [first] first).
  exists [], []. repeat split; intros e [].
Qed.

Lemma first_maximal_In l w : first_maximal l w -> In w l.
Proof.
  intros (before & after & -> & _). apply in_or_app. right. now left.
Qed.

Lemma first_maximal_upper l w e :
  first_maximal l w -> In e l -> ErrorRecord.code e <= ErrorRecord.code w.
Proof.
  intros (before & after & -> & Hb & Ha) [Hin | [<- | Hin]]%in_app_iff.
  - specialize (Hb e Hin). lia.
  - apply Z.le_refl.
  - now apply Ha.
Qed.

(** One error of ErrorRecord.code [c] among two errors of a smaller ErrorRecord.code wins,
    wherever it stands. *)
Lemma single_top_wins errors top a1 a2 c c' :
  c' < c ->
  ErrorRecord.code top = c -> ErrorRecord.code a1 = c' -> ErrorRecord.code a2 = c' ->
  Permutation errors [top; a1; a2] ->
  getMostImportantError errors = Some top.
Proof.
  intros Hlt Ht H1 H2 Hperm.
  assert (Hne : errors <> []).
  { intros ->. now apply Permutation_nil in Hperm. }
  destruct (getMostImportantError_spec errors Hne) as (w & -> & Hw).
  f_equal.
  assert (Htop : In top errors).
  { apply (Permutation_in top (Permutation_sym Hperm)). now left. }
  pose proof (first_maximal_upper _ _ _ Hw Htop) as Hup.
  pose proof (Permutation_in w Hperm (first_maximal_In _ _ Hw)) as Hin.
  destruct Hin as [<- | [<- | [<- | []]]]; [reflexivity | lia | lia].
Qed.
End MostImportant.

(** C2.  On a non-empty list of error records [getMostImportantError]
    returns the first-seen record whose code is maximal: every record
    before it has a strictly smaller code, every record after it a code
    that is not greater.  With the codes Failure = 2, Timeout = -101 and
    Aborted = -102, one Failure among two Aborted resolves to the Failure,
    and one Timeout among two Aborted resolves to the Timeout, in whatever
    order the three were appended. *)
Theorem getMostImportantError_first_seen_maximal :
  forall errors : list ErrorRecord.t,
    errors <> [] ->
    (exists worst,
        getMostImportantError errors = Some worst
        /\ first_maximal errors worst)
    /\ (REQUEST_ERRORS.FAILURE = 2
        /\ REQUEST_ERRORS.TIMEOUT = -101
        /\ REQUEST_ERRORS.ABORTED = -102)
    /\ (forall failure aborted1 aborted2,
          ErrorRecord.code failure = REQUEST_ERRORS.FAILURE ->
          ErrorRecord.code aborted1 = REQUEST_ERRORS.ABORTED ->
          ErrorRecord.code aborted2 = REQUEST_ERRORS.ABORTED ->
          Permutation errors [failure; aborted1; aborted2] ->
          getMostImportantError errors = Some failure)
    /\ (forall timeout aborted1 aborted2,
          ErrorRecord.code timeout = REQUEST_ERRORS.TIMEOUT ->
          ErrorRecord.code aborted1 = REQUEST_ERRORS.ABORTED ->
          ErrorRecord.code aborted2 = REQUEST_ERRORS.ABORTED ->
          Permutation errors [timeout; aborted1; aborted2] ->
          getMostImportantError errors = Some timeout).
Proof.
  intros errors Hne. split; [now apply getMostImportantError_spec |].
  split; [repeat split |]. split.
  - intros f a1 a2 Hf H1 H2.
    now apply (single_top_wins errors f a1 a2
                 REQUEST_ERRORS.FAILURE REQUEST_ERRORS.ABORTED).
  - intros t a1 a2 Ht H1 H2.
    now apply (single_top_wins errors t a1 a2
                 REQUEST_ERRORS.TIMEOUT REQUEST_ERRORS.ABORTED).
Qed.

Lemma getMostImportantError_first_seen_maximal_witness :
  getMostImportantError
    [Sample.abortedInit; Sample.timeout; Sample.abortedSegment]
  = Some Sample.timeout.
Proof.
  assert (Hne : [Sample.abortedInit; Sample.timeout; Sample.abortedSegment]
                <> []) by discriminate.
  destruct (getMostImportantError_first_seen_maximal _ Hne)
    as (_ & _ & _ & Ht).
  apply (Ht Sample.timeout Sample.abortedInit Sample.abortedSegment);
    try reflexivity.
  apply perm_swap.
Defined.

(** ** Key response handler *)

Ltac pow2 :=
  change (2 ^ 8) with 256 in *;
  change (2 ^ 16) with 65536 in *;
  change (2 ^ 24) with 16777216 in *;
  change (2 ^ 32) with 4294967296 in *.

Lemma u8_range b : 0 <= u8 b < 256.
Proof. unfold u8. pose proof (Byte.to_N_bounded b). lia. Qed.

Lemma land_shiftl_low hi lo k :
  0 <= k -> 0 <= lo < 2 ^ k -> Z.land (Z.shiftl hi k) lo = 0.
Proof.
  intros Hk Hlo. apply Z.bits_inj'. intros n Hn.
  rewrite Z.land_spec, Z.bits_0.
  destruct (Z.lt_ge_cases n k) as [Hlt | Hge].
  - now rewrite Z.shiftl_spec_low.
  - rewrite <- (Z.mod_small lo (2 ^ k)) by assumption.
    rewrite Z.mod_pow2_bits_high by lia. apply andb_false_r.
Qed.

Lemma lor_shiftl_add hi lo k :
  0 <= k -> 0 <= lo < 2 ^ k -> Z.lor (Z.shiftl hi k) lo = hi * 2 ^ k + lo.
Proof.
  intros Hk Hlo.
  pose proof (Z.add_lor_land (Z.shiftl hi k) lo) as H.
  rewrite land_shiftl_low in H by assumption.
  rewrite Z.shiftl_mul_pow2 in * by assumption. lia.
Qed.

Lemma word_is_be32 b0 b1 b2 b3 :
  Z.lor (Z.shiftl (u8 b0) 24)
    (Z.lor (Z.shiftl (u8 b1) 16) (Z.lor (Z.shiftl (u8 b2) 8) (u8 b3)))
  = be32 b0 b1 b2 b3.
Proof.
  pose proof (u8_range b0). pose proof (u8_range b1).
  pose proof (u8_range b2). pose proof (u8_range b3).
  unfold be32.
  rewrite (lor_shiftl_add (u8 b2) (u8 b3) 8) by (pow2; lia).
  rewrite (lor_shiftl_add (u8 b1) _ 16) by (pow2; lia).
  rewrite (lor_shiftl_add (u8 b0) _ 24) by (pow2; lia).
  pow2. lia.
Qed.

Lemma be32_range b0 b1 b2 b3 : 0 <= be32 b0 b1 b2 b3 < 2 ^ 32.
Proof.
  pose proof (u8_range b0). pose proof (u8_range b1).
  pose proof (u8_range b2). pose proof (u8_range b3).
  unfold be32. pow2. lia.
Qed.

Lemma byteLength_16 (l : list byte) :
  byteLength l = 16 -> List.length l = 16%nat.
Proof. unfold byteLength. lia. Qed.

(** C6.  A key response the error classifier lets through is handled by
    its length.  After a 16-byte body the descriptor has a key sub-record
    whose [bytes] are exactly four words, the big-endian values of bytes
    0-3, 4-7, 8-11 and 12-15 in that order, each below 2^32; the [iv] and
    the URI of the sub-record and every other field of the descriptor are
    as before, and a null error is forwarded.  A body of any other
    length forwards an error whose code is Failure and leaves the
    descriptor, its key bytes included, as it was. *)
Theorem handleKeyResponse_sixteen_bytes_or_failure :
  forall (Boxes TrackInfo : Type) (segment : Segment.t Boxes TrackInfo)
         (error : option string) (request : Request.t),
    handleErrors error request = None ->
    (forall k b0 b1 b2 b3 b4 b5 b6 b7 b8 b9 b10 b11 b12 b13 b14 b15,
        Segment.key segment = Some k ->
        Request.response request =
          [b0; b1; b2; b3; b4; b5; b6; b7;
           b8; b9; b10; b11; b12; b13; b14; b15] ->
        let words := [be32 b0 b1 b2 b3; be32 b4 b5 b6 b7;
                      be32 b8 b9 b10 b11; be32 b12 b13 b14 b15] in
        (exists segment' k',
            handleKeyResponse segment error request = Forward None segment'
            /\ Segment.key segment' = Some k'
            /\ Key.bytes k' = Some words
            /\ Key.iv k' = Key.iv k
            /\ Key.resolvedUri k' = Key.resolvedUri k
            /\ Segment.resolvedUri segment' = Segment.resolvedUri segment
            /\ Segment.requestId segment' = Segment.requestId segment
            /\ Segment.map segment' = Segment.map segment
            /\ Segment.lastReachedChar segment'
               = Segment.lastReachedChar segment
            /\ Segment.stats segment' = Segment.stats segment
            /\ Segment.bytes segment' = Segment.bytes segment
            /\ Segment.encryptedBytes segment'
               = Segment.encryptedBytes segment
            /\ Segment.boxes segment' = Segment.boxes segment
            /\ Segment.endOfAllRequests segment'
               = Segment.endOfAllRequests segment
            /\ Segment.trackInfo segment' = Segment.trackInfo segment)
        /\ Forall (fun w => 0 <= w < 2 ^ 32) words)
    /\ (List.length (Request.response request) <> 16%nat ->
        exists e,
          handleKeyResponse segment error request = Forward (Some e) segment
          /\ ErrorRecord.code e = REQUEST_ERRORS.FAILURE).
Proof.
  intros Boxes TrackInfo segment error request Herr. split.
  - intros k b0 b1 b2 b3 b4 b5 b6 b7 b8 b9 b10 b11 b12 b13 b14 b15
           Hkey Hbody words.
    split.
    + unfold handleKeyResponse. rewrite Herr, Hbody, Hkey.
      cbn [byteLength List.length getUint32 skipn].
      change (Z.of_nat 16 =? 16) with true. cbn [negb].
      rewrite !word_is_be32.
      eexists _, _. split; [reflexivity |].
      repeat split.
    + subst words. repeat constructor; apply be32_range.
  - intros Hlen.
    assert (Hneq : (byteLength (Request.response request) =? 16) = false).
    { apply Z.eqb_neq. unfold byteLength. lia. }
    eexists. split.
    + unfold handleKeyResponse. rewrite Herr, Hneq. reflexivity.
    + reflexivity.
Qed.

Lemma handleKeyResponse_sixteen_bytes_or_failure_witness :
  exists segment' k',
    handleKeyResponse (SampleSegment.fresh (Some SampleSegment.key) None)
      None (Sample.request "key.php" false false SampleSegment.keyBody [])
    = Forward None segment'
    /\ Segment.key segment' = Some k'
    /\ Key.bytes k' = Some [1; 256; 65536; 16777216]
    /\ Key.iv k' = Key.iv SampleSegment.key.
Proof.
  destruct (proj1 (proj1
    (handleKeyResponse_sixteen_bytes_or_failure unit unit
       (SampleSegment.fresh (Some SampleSegment.key) None) None
       (Sample.request "key.php" false false SampleSegment.keyBody [])
       eq_refl)
    SampleSegment.key _ _ _ _ _ _ _ _ _ _ _ _ _ _ _ _ eq_refl eq_refl))
    as (segment' & k' & Hforward & Hkey & Hbytes & Hiv & _).
  exists segment', k'.
  split; [exact Hforward |]. split; [exact Hkey |].
  split; [exact Hbytes | exact Hiv].
Defined.

(** ** Media-segment response handler *)

(** C5.  On every response the classifier lets through, the
    media-segment handler forwards a null error and writes exactly one of
    the two buffers, chosen by the key sub-record alone:
    [encryptedBytes] when the descriptor has a key, [bytes] when it has
    none, the other one being left as it was; so on a descriptor that had
    neither, exactly one is populated afterwards.  That includes the
    response with an empty body: the handler tests [byteLength] of the
    response text, a string, which is never 0, so it forwards no error of
    its own. *)
Theorem handleSegmentResponse_populates_one_buffer :
  forall (Boxes TrackInfo : Type) (stringToArrayBuffer : JsString -> list byte)
         (segment : Segment.t Boxes TrackInfo)
         (error : option string) (request : Request.t),
    handleErrors error request = None ->
    (exists segment',
        handleSegmentResponse stringToArrayBuffer segment error request
        = Forward None segment'
        /\ match Segment.key segment with
           | Some _ =>
               Segment.encryptedBytes segment'
               = Some (newBytesOf stringToArrayBuffer segment request)
               /\ Segment.bytes segment' = Segment.bytes segment
           | None =>
               Segment.bytes segment'
               = Some (Uint8Array.ofBuffer
                         (newBytesOf stringToArrayBuffer segment request))
               /\ Segment.encryptedBytes segment'
                  = Segment.encryptedBytes segment
           end
        /\ (Segment.bytes segment = None ->
            Segment.encryptedBytes segment = None ->
            (Segment.encryptedBytes segment' <> None
             <-> Segment.key segment <> None)
            /\ (Segment.bytes segment' <> None
                <-> Segment.key segment = None)))
    /\ (forall e segment',
          handleSegmentResponse stringToArrayBuffer segment error request
          <> Forward (Some e) segment').
Proof.
  intros Boxes TrackInfo s2ab segment error request Herr.
  unfold handleSegmentResponse. rewrite Herr.
  cbn [stringByteLength JsNum.strictEquals].
  destruct segment as [uri id key map cur st b eb bx eo ti]; cbn.
  destruct key as [k |]; (split; [| discriminate]);
    eexists; (split; [reflexivity |]); cbn.
  - split; [split; reflexivity |]. intros -> ->.
    split; split; congruence.
  - split; [split; reflexivity |]. intros -> ->.
    split; split; congruence.
Qed.

Lemma handleSegmentResponse_populates_one_buffer_witness :
  handleSegmentResponse SampleProgress.toBytes
    (SampleSegment.fresh None None) None
    (Sample.request "segment.ts" false false [] [])
  = Forward None
      (Segment.set_bytes
         (Segment.set_stats (SampleSegment.fresh None None)
            (getRequestStats
               (Sample.request "segment.ts" false false [] [])))
         (Uint8Array.ofBuffer []))
  /\ forall e segment',
       handleSegmentResponse SampleProgress.toBytes
         (SampleSegment.fresh None None) None
         (Sample.request "segment.ts" false false [] [])
       <> Forward (Some e) segment'.
Proof.
  destruct (handleSegmentResponse_populates_one_buffer unit unit
              SampleProgress.toBytes (SampleSegment.fresh None None) None
              (Sample.request "segment.ts" false false [] []) eq_refl)
    as [_ Hnever].
  split; [reflexivity | exact Hnever].
Defined.

(** ** Handlers are atomic on error *)

(** C10.  Whenever the key, init-segment or media-segment handler forwards
    a non-null error record, the descriptor it forwards is the descriptor
    it received: no key bytes, init-segment bytes, raw or encrypted bytes
    or statistics have been written. *)
Theorem handlers_atomic_on_error :
  forall (Boxes TrackInfo : Type) (stringToArrayBuffer : JsString -> list byte)
         (segment segment' : Segment.t Boxes TrackInfo)
         (error : option string) (request : Request.t) (e : ErrorRecord.t),
    (handleKeyResponse segment error request = Forward (Some e) segment' ->
     segment' = segment)
    /\ (handleInitSegmentResponse segment error request
        = Forward (Some e) segment' ->
        segment' = segment)
    /\ (handleSegmentResponse stringToArrayBuffer segment error request
        = Forward (Some e) segment' ->
        segment' = segment).
Proof.
  intros Boxes TrackInfo s2ab segment segment' error request e.
  repeat split.
  - unfold handleKeyResponse.
    destruct (handleErrors error request); [congruence |].
    destruct (negb (byteLength (Request.response request) =? 16));
      [congruence |].
    repeat match goal with
           | |- context [match ?x with _ => _ end] => destruct x
           end; congruence.
  - unfold handleInitSegmentResponse.
    destruct (handleErrors error request); [congruence |].
    destruct (byteLength (Request.response request) =? 0); [congruence |].
    destruct (Segment.map segment); congruence.
  - unfold handleSegmentResponse.
    destruct (handleErrors error request); [congruence |].
    cbn. destruct (Segment.key segment); congruence.
Qed.

Lemma handlers_atomic_on_error_witness :
  let segment := SampleSegment.fresh (Some SampleSegment.key)
                   (Some SampleSegment.pendingMap) in
  let request := Sample.request "key.php" true false [] [] in
  (handleKeyResponse segment None request
   = Forward (Some Sample.timeout) segment
   /\ segment = segment)
  /\ (handleInitSegmentResponse segment None request
      = Forward (Some Sample.timeout) segment
      /\ segment = segment)
  /\ (handleSegmentResponse (List.map (fun c => Byte.x00)) segment None request
      = Forward (Some Sample.timeout) segment
      /\ segment = segment).
Proof.
  intros segment request.
  pose proof (handlers_atomic_on_error unit unit
                (List.map (fun c => Byte.x00)) segment segment None request
                Sample.timeout) as (Hkey & Hinit & Hseg).
  split; [| split].
  - split; [reflexivity | exact (Hkey eq_refl)].
  - split; [reflexivity | exact (Hinit eq_refl)].
  - split; [reflexivity | exact (Hseg eq_refl)].
Defined.

(** ** Transmuxer completion *)

(** C9.  A transmuxer completion whose result has neither audio nor video
    timing information makes no call at all, so the caller's [doneFn] is
    not invoked for it.  Whenever the completion callback does invoke
    [doneFn], the error is null, the result is passed along, and at least
    one of the two timing informations is present; with timing information
    present and a [doneFn] supplied, that single call is made. *)
Theorem transmux_onDone_ignores_empty_completion :
  forall (doneFn : bool) (result : TransmuxResult.t),
    (TransmuxResult.audioTimingInfo result = None ->
     TransmuxResult.videoTimingInfo result = None ->
     transmux_onDone doneFn result = [])
    /\ (forall error passed,
          In (DoneFn error passed) (transmux_onDone doneFn result) ->
          error = None
          /\ passed = Some result
          /\ (TransmuxResult.audioTimingInfo result <> None
              \/ TransmuxResult.videoTimingInfo result <> None))
    /\ (TransmuxResult.audioTimingInfo result <> None
        \/ TransmuxResult.videoTimingInfo result <> None ->
        doneFn = true ->
        transmux_onDone doneFn result = [DoneFn None (Some result)]).
Proof.
  intros doneFn [audio video]; cbn. split; [| split].
  - now intros -> ->.
  - intros error passed H.
    destruct audio, video, doneFn; cbn in H; try tauto;
      destruct H as [H | []]; inversion H; subst;
      (split; [reflexivity | split; [reflexivity |]]);
      (left; discriminate) || (right; discriminate).
  - intros [H | H] ->; destruct audio, video; cbn; congruence.
Qed.

Lemma transmux_onDone_ignores_empty_completion_witness :
  transmux_onDone true SampleTransmux.empty = []
  /\ transmux_onDone true SampleTransmux.videoOnly
     = [DoneFn None (Some SampleTransmux.videoOnly)].
Proof.
  split.
  - exact (proj1 (transmux_onDone_ignores_empty_completion true
                    SampleTransmux.empty) eq_refl eq_refl).
  - apply (proj2 (proj2 (transmux_onDone_ignores_empty_completion true
                           SampleTransmux.videoOnly))).
    + right. discriminate.
    + reflexivity.
Defined.

(** A fresh array over a buffer shows the whole buffer. *)
Lemma bytes_ofBuffer (buffer : list byte) :
  Uint8Array.bytes (Uint8Array.ofBuffer buffer) = buffer.
Proof.
  unfold Uint8Array.bytes, Uint8Array.ofBuffer, subarrayView. cbn.
  apply firstn_all.
Qed.

Lemma buffer_ofBuffer (buffer : list byte) :
  Uint8Array.buffer (Uint8Array.ofBuffer buffer) = buffer.
Proof. reflexivity. Qed.

Lemma ofBuffer_inj (b1 b2 : list byte) :
  Uint8Array.ofBuffer b1 = Uint8Array.ofBuffer b2 -> b1 = b2.
Proof. intros H. now inversion H. Qed.

Lemma dispatched_ofBuffer {Boxes TrackInfo : Type}
    (segment : Segment.t Boxes TrackInfo) (buffer : list byte) :
  dispatched segment (Uint8Array.ofBuffer buffer) = buffer.
Proof.
  unfold dispatched.
  destruct (Segment.map segment); [apply bytes_ofBuffer | reflexivity].
Qed.

(** ** Parse dispatcher *)

Ltac effects_facts :=
  repeat match goal with
         | |- _ /\ _ => split
         | |- Forall _ [] => constructor
         | |- Forall _ (_ :: _) => constructor; [reflexivity |]
         | |- ~ _ => cbn; intuition discriminate
         | |- _ \/ _ =>
             cbn; ((left; left; reflexivity) || (right; left; reflexivity))
         | |- _ = _ => reflexivity
         end.

Lemma handleDecryptedBytes_effects
    {Boxes TrackInfo : Type}
    (inspectMp4 : list byte -> bool -> option Boxes -> Mp4Result.t Boxes)
    (segment : Segment.t Boxes TrackInfo) (bytes : Uint8Array.t)
    (isPartial doneFn : bool) :
  let effects := snd (handleDecryptedBytes inspectMp4 segment bytes
                        isPartial doneFn) in
  countEffects isDispatch effects = 1%nat
  /\ countEffects isFinalDispatch effects = (if isPartial then 0 else 1)%nat
  /\ Forall (fun e => isWorkerCall e = false) effects
  /\ Forall (fun e => isDoneFn e = false) effects
  /\ ~ In Throw effects
  /\ handOffs effects
     = (if isPartial then [] else [ParsePath (dispatched segment bytes)])
  /\ (In (InspectMp4 (Uint8Array.bytes bytes) (negb isPartial)) effects
      \/ In (Transmux (Uint8Array.buffer bytes) isPartial doneFn) effects).
Proof.
  unfold handleDecryptedBytes, parseMp4AndNotify, transmuxAndNotify,
    dispatched.
  destruct (Segment.map segment) as [m |]; cbn.
  - destruct (Mp4Result.bytes _) as [[| b data] |];
      destruct isPartial; cbn; effects_facts.
  - destruct isPartial; cbn; effects_facts.
Qed.

Lemma handleDecryptedBytes_segment
    {Boxes TrackInfo : Type}
    (inspectMp4 : list byte -> bool -> option Boxes -> Mp4Result.t Boxes)
    (segment : Segment.t Boxes TrackInfo) (bytes : Uint8Array.t)
    (isPartial doneFn : bool) :
  let segment' := snd (fst (handleDecryptedBytes inspectMp4 segment bytes
                              isPartial doneFn)) in
  Segment.key segment' = Segment.key segment
  /\ Segment.map segment' = Segment.map segment
  /\ Segment.lastReachedChar segment' = Segment.lastReachedChar segment
  /\ Segment.stats segment' = Segment.stats segment
  /\ Segment.bytes segment' = Segment.bytes segment
  /\ Segment.encryptedBytes segment' = Segment.encryptedBytes segment
  /\ Segment.requestId segment' = Segment.requestId segment
  /\ Segment.endOfAllRequests segment' = Segment.endOfAllRequests segment.
Proof.
  unfold handleDecryptedBytes, parseMp4AndNotify.
  destruct segment as [uri id key [m |] cur st b eb bx eo ti]; cbn;
    repeat split; reflexivity.
Qed.

(** ** Decryption client *)

Lemma run_no_worker_calls d effects :
  Forall (fun e => isWorkerCall e = false) effects ->
  Decrypter.run d effects = d.
Proof.
  unfold Decrypter.run. revert d.
  induction effects as [| e effects IH]; intros d H; [reflexivity |].
  inversion H as [| ? ? He Hrest]; subst. cbn.
  destruct e; try discriminate; cbn; now apply IH.
Qed.

Lemma remove_first_last id l :
  existsb (String.eqb id) l = false ->
  Decrypter.remove_first id (l ++ [id]) = l.
Proof.
  induction l as [| x l IH]; cbn.
  - now rewrite String.eqb_refl.
  - intros [Hx Hl]%orb_false_iff.
    rewrite String.eqb_sym, Hx. f_equal. now apply IH.
Qed.

Lemma listeners_after_decryptSegment
    {Boxes TrackInfo : Type} (segment : Segment.t Boxes TrackInfo) d0 :
  Decrypter.listeners (Decrypter.run d0 (decryptSegment segment))
  = Decrypter.listeners d0 ++ [Segment.requestId segment].
Proof.
  unfold decryptSegment.
  destruct (Segment.encryptedBytes segment), (Segment.key segment) as [k |];
    try reflexivity.
  destruct (Key.bytes k); reflexivity.
Qed.

Lemma registered_last l id :
  existsb (String.eqb id) (l ++ [id]) = true.
Proof.
  rewrite existsb_app. cbn. rewrite String.eqb_refl.
  now rewrite orb_true_r.
Qed.

Lemma deliverAll_unregistered
    {Boxes TrackInfo : Type}
    (inspectMp4 : list byte -> bool -> option Boxes -> Mp4Result.t Boxes)
    (segment : Segment.t Boxes TrackInfo) d replies :
  Decrypter.registered d (Segment.requestId segment) = false ->
  deliverAll inspectMp4 d segment replies = (d, segment, []).
Proof.
  intros Hreg. induction replies as [| data rest IH]; [reflexivity |].
  cbn. unfold onWorkerMessage. rewrite Hreg. now rewrite IH.
Qed.

Lemma deliverAll_mismatched
    {Boxes TrackInfo : Type}
    (inspectMp4 : list byte -> bool -> option Boxes -> Mp4Result.t Boxes)
    (segment : Segment.t Boxes TrackInfo) d replies :
  Forall (fun r => WorkerReply.source r <> Segment.requestId segment)
    replies ->
  deliverAll inspectMp4 d segment replies = (d, segment, []).
Proof.
  induction 1 as [| data rest Hne _ IH]; [reflexivity |].
  cbn. unfold onWorkerMessage, decryptionHandler.
  apply String.eqb_neq in Hne. rewrite Hne.
  destruct (Decrypter.registered d (Segment.requestId segment));
    cbn; now rewrite IH.
Qed.

Lemma deliverAll_app
    {Boxes TrackInfo : Type}
    (inspectMp4 : list byte -> bool -> option Boxes -> Mp4Result.t Boxes)
    (segment : Segment.t Boxes TrackInfo) d first second :
  deliverAll inspectMp4 d segment (first ++ second)
  = let '(d1, s1, e1) := deliverAll inspectMp4 d segment first in
    let '(d2, s2, e2) := deliverAll inspectMp4 d1 s1 second in
    (d2, s2, e1 ++ e2).
Proof.
  revert d segment.
  induction first as [| data rest IH]; intros d segment; cbn.
  - now destruct (deliverAll inspectMp4 d segment second) as [[? ?] ?].
  - destruct (onWorkerMessage inspectMp4 d segment data) as [[d1 s1] e1].
    rewrite IH.
    destruct (deliverAll inspectMp4 d1 s1 rest) as [[d2 s2] e2].
    destruct (deliverAll inspectMp4 d2 s2 second) as [[d3 s3] e3].
    now rewrite app_assoc.
Qed.

(** C7.  Once [decryptSegment] has registered the listener of a segment on
    the shared worker channel, replies whose correlation identifier differs
    from the segment's request id leave the descriptor and the channel as
    they are, the listener still registered, and cause no call.  The first
    reply whose identifier matches (its payload view lying within its
    buffer) deregisters the listener, installs the decrypted payload as
    the descriptor's [bytes], and calls the parse dispatcher exactly once,
    with [isPartial = false]; no later reply reaches the listener. *)
Theorem decryption_replies_are_matched_by_request_id :
  forall (Boxes TrackInfo : Type)
         (inspectMp4 : list byte -> bool -> option Boxes -> Mp4Result.t Boxes)
         (segment : Segment.t Boxes TrackInfo) (d0 : Decrypter.t)
         (mismatched later : list WorkerReply.t) (matching : WorkerReply.t),
    Decrypter.registered d0 (Segment.requestId segment) = false ->
    Forall (fun r => WorkerReply.source r <> Segment.requestId segment)
      mismatched ->
    WorkerReply.source matching = Segment.requestId segment ->
    (WorkerReply.byteOffset matching + WorkerReply.byteLength matching
     <= List.length (WorkerReply.bytes matching))%nat ->
    let id := Segment.requestId segment in
    let d := Decrypter.run d0 (decryptSegment segment) in
    let view :=
      {| Uint8Array.buffer := WorkerReply.bytes matching;
         Uint8Array.byteOffset := WorkerReply.byteOffset matching;
         Uint8Array.length := WorkerReply.byteLength matching |} in
    Decrypter.registered d id = true
    /\ deliverAll inspectMp4 d segment mismatched = (d, segment, [])
    /\ exists d' segment' effects,
        onWorkerMessage inspectMp4 d segment matching
        = (d', segment', effects)
        /\ Decrypter.registered d' id = false
        /\ Decrypter.listeners d' = Decrypter.listeners d0
        /\ In (RemoveEventListener id) effects
        /\ Segment.bytes segment' = Some view
        /\ Uint8Array.bytes view
           = subarrayView (WorkerReply.bytes matching)
               (WorkerReply.byteOffset matching)
               (WorkerReply.byteLength matching)
        /\ countEffects isDispatch effects = 1%nat
        /\ countEffects isFinalDispatch effects = 1%nat
        /\ match Segment.map segment with
           | Some _ => In (InspectMp4 (Uint8Array.bytes view) true) effects
           | None =>
               effects = [RemoveEventListener id;
                          Transmux (WorkerReply.bytes matching) false true]
           end
        /\ deliverAll inspectMp4 d segment (mismatched ++ matching :: later)
           = (d', segment', effects).
Proof.
  intros Boxes TrackInfo inspectMp4 segment d0 mismatched later matching
         Hfresh Hmis Hmatch Hview id d view.
  assert (Hreg : Decrypter.registered d id = true).
  { unfold Decrypter.registered, d.
    rewrite listeners_after_decryptSegment. apply registered_last. }
  assert (Hbefore : deliverAll inspectMp4 d segment mismatched
                    = (d, segment, []))
    by now apply deliverAll_mismatched.
  split; [exact Hreg |]. split; [exact Hbefore |].
  pose proof (handleDecryptedBytes_effects inspectMp4
                (Segment.set_bytes segment view) view false true)
    as (Hone & Hfinal & Hworker & _ & _ & _ & Hcall).
  pose proof (handleDecryptedBytes_segment inspectMp4
                (Segment.set_bytes segment view) view false true)
    as (_ & _ & _ & _ & Hbytes & _ & Hid & _).
  assert (Hstep :
    onWorkerMessage inspectMp4 d segment matching
    = (Decrypter.call d (RemoveEventListener id),
       snd (fst (handleDecryptedBytes inspectMp4
                   (Segment.set_bytes segment view) view false true)),
       RemoveEventListener id
         :: snd (handleDecryptedBytes inspectMp4
                   (Segment.set_bytes segment view) view false true))).
  { unfold onWorkerMessage, decryptionHandler. fold id. rewrite Hreg, Hmatch.
    fold id. rewrite String.eqb_refl.
    apply Nat.leb_le in Hview. rewrite Hview. fold view.
    destruct (handleDecryptedBytes inspectMp4
                (Segment.set_bytes segment view) view false true)
      as [[n s] effs] eqn:E.
    cbn [fst snd] in *. f_equal. f_equal.
    unfold Decrypter.run. cbn [fold_left].
    now apply run_no_worker_calls. }
  assert (Hlisteners :
    Decrypter.listeners (Decrypter.call d (RemoveEventListener id))
    = Decrypter.listeners d0).
  { cbn. unfold d. rewrite listeners_after_decryptSegment.
    now apply remove_first_last. }
  assert (Hgone :
    Decrypter.registered (Decrypter.call d (RemoveEventListener id)) id
    = false).
  { unfold Decrypter.registered. rewrite Hlisteners. exact Hfresh. }
  eexists _, _, _. split; [exact Hstep |].
  split; [exact Hgone |]. split; [exact Hlisteners |].
  split; [now left |].
  split; [exact Hbytes |].
  split; [reflexivity |].
  split; [exact Hone |]. split; [exact Hfinal |].
  split.
  { unfold handleDecryptedBytes, transmuxAndNotify in *.
    change (Segment.map (Segment.set_bytes segment view))
      with (Segment.map segment) in *.
    destruct (Segment.map segment) as [m |].
    - right. unfold parseMp4AndNotify. cbn. now left.
    - reflexivity. }
  rewrite deliverAll_app, Hbefore. cbn [deliverAll]. rewrite Hstep.
  rewrite deliverAll_unregistered.
  - now rewrite app_nil_r.
  - rewrite Hid. exact Hgone.
Qed.

Lemma decryption_replies_are_matched_by_request_id_witness :
  let d := Decrypter.run SampleWorker.channel
             (decryptSegment SampleWorker.encrypted) in
  exists d' segment',
    deliverAll SampleWorker.noBoxes d SampleWorker.encrypted
      ([SampleWorker.otherReply; SampleWorker.otherReply]
       ++ SampleWorker.reply :: [SampleWorker.reply])
    = (d', segment',
       [RemoveEventListener "segment-loader-1";
        Transmux ["000"; "071"; "064"]%byte false true])
    /\ Segment.bytes segment'
       = Some {| Uint8Array.buffer := ["000"; "071"; "064"]%byte;
                 Uint8Array.byteOffset := 1;
                 Uint8Array.length := 2 |}
    /\ Decrypter.listeners d' = ["segment-loader-0"%string].
Proof.
  intros d.
  assert (Hmis : Forall
            (fun r => WorkerReply.source r
                      <> Segment.requestId SampleWorker.encrypted)
            [SampleWorker.otherReply; SampleWorker.otherReply])
    by (repeat constructor; discriminate).
  assert (Hview : (WorkerReply.byteOffset SampleWorker.reply
                   + WorkerReply.byteLength SampleWorker.reply
                   <= List.length (WorkerReply.bytes SampleWorker.reply))%nat)
    by (cbn; lia).
  destruct (decryption_replies_are_matched_by_request_id unit unit
              SampleWorker.noBoxes SampleWorker.encrypted SampleWorker.channel
              [SampleWorker.otherReply; SampleWorker.otherReply]
              [SampleWorker.reply] SampleWorker.reply
              eq_refl Hmis eq_refl Hview)
    as (_ & _ & d' & segment' & effects & _ & _ & Hl & _ & Hb & _ & _ & _
        & Heffects & Hall).
  exists d', segment'. split; [| split; [exact Hb | exact Hl]].
  refine (eq_trans Hall _). f_equal. exact Heffects.
Defined.

(** ** Progress handler *)

Lemma progressParses_false
    {Boxes TrackInfo : Type} (segment : Segment.t Boxes TrackInfo) :
  progressParses segment = false
  <-> (Segment.key segment <> None
       \/ exists m, Segment.map segment = Some m /\ Map.bytes m = None).
Proof.
  unfold progressParses.
  destruct (Segment.key segment) as [k |].
  - split; [intros _; left; discriminate | reflexivity].
  - destruct (Segment.map segment) as [m |].
    + destruct (Map.bytes m) as [b |] eqn:Eb.
      * split; [discriminate |].
        intros [H | (m' & Hm & Hb)]; [congruence |].
        inversion Hm; subst. congruence.
      * split; [| reflexivity]. intros _. right. now exists m.
    + split; [discriminate |].
      intros [H | (m' & Hm & _)]; congruence.
Qed.

(** In the revision of [src/media-segment-request.js], a progress event on
    a segment that has a key, or an init segment not fetched yet, calls no
    parsing collaborator and leaves the cursor, the parser state and both
    buffers as they are; the completion of the media-segment request then
    takes the whole response text from the cursor on. *)
Lemma handleProgress_defers_parsing
    {Boxes TrackInfo : Type}
    (stringToArrayBuffer : JsString -> list byte)
    (inspectMp4 : list byte -> bool -> option Boxes -> Mp4Result.t Boxes)
    (segment : Segment.t Boxes TrackInfo) (event : ProgressEvent.t)
    (now firstByteNow : Z) :
  Segment.key segment <> None
  \/ (exists m, Segment.map segment = Some m /\ Map.bytes m = None) ->
  let segment' :=
    fst (handleProgress stringToArrayBuffer inspectMp4 segment event
           now firstByteNow) in
  let effects :=
    snd (handleProgress stringToArrayBuffer inspectMp4 segment event
           now firstByteNow) in
  effects = [ProgressFn event]
  /\ countEffects isDispatch effects = 0%nat
  /\ Segment.lastReachedChar segment' = Segment.lastReachedChar segment
  /\ Segment.boxes segment' = Segment.boxes segment
  /\ Segment.key segment' = Segment.key segment
  /\ Segment.map segment' = Segment.map segment
  /\ Segment.bytes segment' = Segment.bytes segment
  /\ Segment.encryptedBytes segment' = Segment.encryptedBytes segment
  /\ forall error request,
      handleErrors error request = None ->
      let newBytes :=
        stringToArrayBuffer
          (substring (Request.responseText request)
             (JsNum.orZero (Segment.lastReachedChar segment))) in
      exists final,
        handleSegmentResponse stringToArrayBuffer segment' error request
        = Forward None final
        /\ match Segment.key segment with
           | Some _ => Segment.encryptedBytes final = Some newBytes
           | None => Segment.bytes final = Some (Uint8Array.ofBuffer newBytes)
           end.
Proof.
  intros Hdefer segment' effects.
  apply progressParses_false in Hdefer.
  subst segment' effects. unfold handleProgress. rewrite Hdefer.
  cbn [fst snd app].
  repeat (split; [reflexivity |]).
  intros error request Herr.
  unfold handleSegmentResponse, newBytesOf. rewrite Herr.
  destruct segment as [uri id key map cur st b eb bx eo ti]; cbn.
  destruct key; eexists; split; reflexivity.
Qed.

(** C3, on the other revision.  Its [handleProgress] tests the key only:
    on a progress event for a segment without a key whose init segment has
    not been fetched, it calls the parse dispatcher on the bytes received
    so far, here one complete 8-byte box, and, unless the dispatcher
    throws, moves the cursor from 0 to 8.  The revision of
    [src/media-segment-request.js] makes no such call on the same event and
    leaves the cursor at 0. *)
Theorem Part000_handleProgress_parses_pending_init_segment :
  forall collectBoxes : option unit -> Uint8Array.t -> Z
                        -> option unit * option (list byte),
    let dispatched :=
      MuxInspect ["000"; "000"; "000"; "008"; "f"; "r"; "e"; "e"]%byte in
    let '(segment', effects) :=
      Part000.handleProgress SampleProgress.toBytes collectBoxes
        SampleProgress.pendingInit SampleProgress.boxEvent 1010 1010 in
    Segment.key SampleProgress.pendingInit = None
    /\ Segment.map SampleProgress.pendingInit
       = Some SampleSegment.pendingMap
    /\ Map.bytes SampleSegment.pendingMap = None
    /\ In dispatched effects
    /\ (In Throw effects
        \/ Segment.lastReachedChar segment' = JsNum.Num 8)
    /\ handleProgress SampleProgress.toBytes SampleWorker.noBoxes
         SampleProgress.pendingInit SampleProgress.boxEvent 1010 1010
       = (Segment.set_stats SampleProgress.pendingInit
            {| Stats.bandwidth := FloorOfRate 8 10;
               Stats.bytesReceived := JsNum.Num 8;
               Stats.roundTripTime := JsNum.Num 10;
               Stats.firstBytesReceivedAt := Some 1010 |},
          [ProgressFn SampleProgress.boxEvent]).
Proof.
  intros collectBoxes dispatched.
  unfold Part000.handleProgress, Part000.handleDecryptedBytes,
    Part000.parseMp4AndNotify.
  cbn [Segment.key SampleProgress.pendingInit SampleSegment.fresh
       Segment.map].
  change (newBytesOf SampleProgress.toBytes
            (SampleSegment.fresh None (Some SampleSegment.pendingMap))
            (ProgressEvent.target SampleProgress.boxEvent))
    with ["000"; "000"; "000"; "008"; "f"; "r"; "e"; "e"]%byte.
  change (Part000.completeMp4BoxesOffset
            (Uint8Array.ofBuffer
               ["000"; "000"; "000"; "008"; "f"; "r"; "e"; "e"]%byte) true)
    with 8.
  cbn.
  destruct (collectBoxes _ _ _) as [boxes [data |]]; cbn.
  - repeat split; try reflexivity; [now left | now right].
  - repeat split; try reflexivity; [now left | left; right; now left].
Qed.

(** ** Cursor *)

Section Cursor.
Context {Boxes TrackInfo : Type}.
Variable stringToArrayBuffer : JsString -> list byte.
Variable inspectMp4 : list byte -> bool -> option Boxes -> Mp4Result.t Boxes.

(** The collaborators' contracts: the conversion keeps one byte per code
    unit, and the box parser consumes no more than it is given. *)
Hypothesis stringToArrayBuffer_length :
  forall s, List.length (stringToArrayBuffer s) = List.length s.
Hypothesis inspectMp4_consumes :
  forall data isEndOfSegment boxes,
    0 <= Mp4Result.numUsedBytes (inspectMp4 data isEndOfSegment boxes)
      <= byteLength data.

Let Seg : Type := Segment.t Boxes TrackInfo.

Lemma handleDecryptedBytes_consumes (segment : Seg) bytes isPartial doneFn :
  0 <= fst (fst (handleDecryptedBytes inspectMp4 segment bytes
                   isPartial doneFn))
    <= Uint8Array.byteLength bytes.
Proof.
  unfold handleDecryptedBytes, parseMp4AndNotify.
  destruct (Segment.map segment); cbn.
  - apply inspectMp4_consumes.
  - unfold Uint8Array.byteLength. lia.
Qed.

Lemma byteLength_ofBuffer (buffer : list byte) :
  Uint8Array.byteLength (Uint8Array.ofBuffer buffer) = byteLength buffer.
Proof.
  unfold Uint8Array.byteLength, byteLength. now rewrite bytes_ofBuffer.
Qed.

Lemma newBytesOf_length (segment : Seg) request c :
  Segment.lastReachedChar segment = JsNum.Num c ->
  0 <= c ->
  byteLength (newBytesOf stringToArrayBuffer segment request)
  = Z.max 0 (Z.of_nat (List.length (Request.responseText request)) - c).
Proof.
  intros Hc Hpos. unfold newBytesOf, byteLength.
  rewrite stringToArrayBuffer_length, Hc.
  assert (Hsub : substring (Request.responseText request)
                   (JsNum.orZero (JsNum.Num c))
                 = skipn (Z.to_nat c) (Request.responseText request))
    by reflexivity.
  rewrite Hsub, length_skipn. lia.
Qed.

Lemma consumedByProgress_bounds (segment : Seg) call c :
  Segment.lastReachedChar segment = JsNum.Num c ->
  0 <= c ->
  0 <= consumedByProgress stringToArrayBuffer inspectMp4 segment call
    <= Z.max 0 (textLength call - c).
Proof.
  intros Hc Hpos. unfold consumedByProgress, textLength.
  destruct (progressParses segment); [| lia].
  rewrite <- (newBytesOf_length segment _ c Hc Hpos).
  rewrite <- byteLength_ofBuffer.
  apply handleDecryptedBytes_consumes.
Qed.

Lemma handleProgress_cursor (segment : Seg) call :
  Segment.lastReachedChar
    (fst (handleProgress stringToArrayBuffer inspectMp4 segment (event call)
            (now call) (firstByteNow call)))
  = if progressParses segment then
      JsNum.add (Segment.lastReachedChar segment)
        (consumedByProgress stringToArrayBuffer inspectMp4 segment call)
    else Segment.lastReachedChar segment.
Proof.
  unfold handleProgress, consumedByProgress.
  destruct (progressParses segment).
  - pose proof (handleDecryptedBytes_segment inspectMp4 segment
                  (Uint8Array.ofBuffer
                     (newBytesOf stringToArrayBuffer segment
                        (ProgressEvent.target (event call)))) true false)
      as (_ & _ & Hcur & _).
    destruct (handleDecryptedBytes inspectMp4 segment _ true false)
      as [[n s] effs]. cbn in *. now rewrite Hcur.
  - reflexivity.
Qed.

Lemma handleProgress_key (segment : Seg) call :
  Segment.key
    (fst (handleProgress stringToArrayBuffer inspectMp4 segment (event call)
            (now call) (firstByteNow call)))
  = Segment.key segment.
Proof.
  unfold handleProgress.
  destruct (progressParses segment); [| reflexivity].
  pose proof (handleDecryptedBytes_segment inspectMp4 segment
                (Uint8Array.ofBuffer
                   (newBytesOf stringToArrayBuffer segment
                      (ProgressEvent.target (event call)))) true false)
    as (Hkey & _).
  destruct (handleDecryptedBytes inspectMp4 segment _ true false)
    as [[n s] effs]. cbn in *. exact Hkey.
Qed.

Lemma consumedByProgress_key (segment : Seg) call :
  Segment.key segment <> None ->
  consumedByProgress stringToArrayBuffer inspectMp4 segment call = 0.
Proof.
  intros Hkey. unfold consumedByProgress, progressParses.
  destruct (Segment.key segment); [reflexivity | congruence].
Qed.

Lemma progressRun_cursor calls :
  forall (segment : Seg) c total,
    Segment.lastReachedChar segment = JsNum.Num c ->
    0 <= c <= total ->
    Forall (fun call => textLength call <= total) calls ->
    let '(segment', _, counts) :=
      progressRun stringToArrayBuffer inspectMp4 segment calls in
    Forall (fun n => 0 <= n) counts
    /\ Segment.lastReachedChar segment' = JsNum.Num (c + sumZ counts)
    /\ c + sumZ counts <= total
    /\ Segment.key segment' = Segment.key segment
    /\ (Segment.key segment <> None -> sumZ counts = 0).
Proof.
  induction calls as [| call rest IH]; intros segment c total Hc Hrange Hlen.
  - cbn. repeat split; try constructor; try lia.
    rewrite Hc. f_equal. lia.
  - inversion Hlen as [| ? ? Hcall Hrest]; subst.
    pose proof (consumedByProgress_bounds segment call c Hc
                  (proj1 Hrange)) as Hn.
    pose proof (handleProgress_cursor segment call) as Hcur.
    pose proof (handleProgress_key segment call) as Hkey.
    pose proof (consumedByProgress_key segment call) as Hzero.
    cbn [progressRun].
    destruct (handleProgress stringToArrayBuffer inspectMp4 segment
                (event call) (now call) (firstByteNow call))
      as [s1 e1]. cbn [fst] in *.
    set (n := consumedByProgress stringToArrayBuffer inspectMp4 segment call)
      in *.
    assert (Hcur' : Segment.lastReachedChar s1 = JsNum.Num (c + n)).
    { rewrite Hcur, Hc. subst n. unfold consumedByProgress.
      destruct (progressParses segment); cbn; [reflexivity |].
      f_equal. lia. }
    clear Hcur. rename Hcur' into Hcur.
    specialize (IH s1 (c + n) total Hcur ltac:(lia) Hrest).
    destruct (progressRun stringToArrayBuffer inspectMp4 s1 rest)
      as [[s2 e2] counts].
    destruct IH as (Hpos & Hfinal & Hle & Hk & Hz).
    cbn [sumZ fold_right]. fold (sumZ counts).
    repeat split.
    + constructor; [lia | exact Hpos].
    + rewrite Hfinal. f_equal. lia.
    + lia.
    + congruence.
    + intros Hne. rewrite (Hzero Hne), Hz; [lia | congruence].
Qed.
End Cursor.

(** C4.  Take a descriptor whose cursor is 0, progress notifications whose
    response text is never longer than the final one, and the successful
    completion of the media-segment request; the conversion from text to
    bytes keeps lengths and the box parser consumes no more than it is
    given.  Then: every partial dispatch moves the cursor from [c] to
    [c + n], where [n >= 0] is the consumed count the dispatcher reported
    for that call; after the notifications the cursor is the sum of the
    reported counts, which does not exceed the length of the response; the
    completion extracts the response text from exactly that position on;
    and, for a segment without a key, the count reported by the final
    dispatch added to that sum still does not exceed the length of the
    response (with a key no partial dispatch consumes anything). *)
Theorem cursor_advances_by_consumed_bytes :
  forall (Boxes TrackInfo : Type)
         (stringToArrayBuffer : JsString -> list byte)
         (inspectMp4 : list byte -> bool -> option Boxes
                       -> Mp4Result.t Boxes),
    (forall s, List.length (stringToArrayBuffer s) = List.length s) ->
    (forall data isEndOfSegment boxes,
        0 <= Mp4Result.numUsedBytes (inspectMp4 data isEndOfSegment boxes)
          <= byteLength data) ->
    forall (segment : Segment.t Boxes TrackInfo) (calls : list ProgressCall)
           (error : option string) (request : Request.t),
      Segment.lastReachedChar segment = JsNum.Num 0 ->
      Forall (fun call =>
                textLength call
                <= Z.of_nat (List.length (Request.responseText request)))
        calls ->
      handleErrors error request = None ->
      let total := Z.of_nat (List.length (Request.responseText request)) in
      let '(segment', _, counts) :=
        progressRun stringToArrayBuffer inspectMp4 segment calls in
      (forall (s : Segment.t Boxes TrackInfo) (call : ProgressCall) (c : Z),
          Segment.lastReachedChar s = JsNum.Num c ->
          progressParses s = true ->
          let n := consumedByProgress stringToArrayBuffer inspectMp4 s call in
          0 <= n
          /\ Segment.lastReachedChar
               (fst (handleProgress stringToArrayBuffer inspectMp4 s
                       (event call) (now call) (firstByteNow call)))
             = JsNum.Num (c + n))
      /\ Forall (fun n => 0 <= n) counts
      /\ Segment.lastReachedChar segment' = JsNum.Num (sumZ counts)
      /\ sumZ counts <= total
      /\ exists final buffer,
          handleSegmentResponse stringToArrayBuffer segment' error request
          = Forward None final
          /\ buffer
             = stringToArrayBuffer
                 (skipn (Z.to_nat (sumZ counts))
                    (Request.responseText request))
          /\ match Segment.key segment with
             | Some _ => Segment.encryptedBytes final = Some buffer
             | None => Segment.bytes final = Some (Uint8Array.ofBuffer buffer)
             end
          /\ (Segment.key segment <> None -> sumZ counts = 0)
          /\ (Segment.key segment = None ->
              sumZ counts
              + fst (fst (handleDecryptedBytes inspectMp4 final
                            (Uint8Array.ofBuffer buffer) false true))
              <= total).
Proof.
  intros Boxes TrackInfo s2ab inspectMp4 Hlen Hparser segment calls error
         request Hzero Htexts Herr total.
  pose proof (progressRun_cursor s2ab inspectMp4 Hlen Hparser calls
                segment 0 total Hzero ltac:(subst total; lia) Htexts)
    as Hrun.
  destruct (progressRun s2ab inspectMp4 segment calls)
    as [[segment' effects] counts].
  destruct Hrun as (Hpos & Hcur & Hle & Hkey & Hnokey).
  rewrite Z.add_0_l in Hcur, Hle.
  split.
  { intros s call c Hc Hguard n. split.
    - subst n. unfold consumedByProgress. rewrite Hguard.
      apply (handleDecryptedBytes_consumes inspectMp4 Hparser).
    - rewrite (handleProgress_cursor s2ab inspectMp4), Hguard, Hc.
      reflexivity. }
  split; [exact Hpos |]. split; [exact Hcur |]. split; [exact Hle |].
  assert (Hnew : newBytesOf s2ab segment' request
                 = s2ab (skipn (Z.to_nat (sumZ counts))
                           (Request.responseText request))).
  { unfold newBytesOf. now rewrite Hcur. }
  unfold handleSegmentResponse. rewrite Herr, Hnew.
  cbn [JsNum.strictEquals stringByteLength].
  set (buffer := s2ab (skipn (Z.to_nat (sumZ counts))
                         (Request.responseText request))).
  assert (Hbuffer : byteLength buffer = total - sumZ counts).
  { unfold byteLength, buffer. rewrite Hlen, length_skipn.
    assert (0 <= sumZ counts).
    { clear - Hpos. unfold sumZ. induction Hpos; cbn; lia. }
    subst total. lia. }
  assert (Hfinal : forall final : Segment.t Boxes TrackInfo,
             sumZ counts
             + fst (fst (handleDecryptedBytes inspectMp4 final
                           (Uint8Array.ofBuffer buffer) false true))
             <= total).
  { intros final.
    pose proof (handleDecryptedBytes_consumes inspectMp4 Hparser final
                  (Uint8Array.ofBuffer buffer) false true) as Hn.
    rewrite byteLength_ofBuffer in Hn. lia. }
  cbn [Segment.set_stats Segment.key]. rewrite Hkey.
  destruct (Segment.key segment) as [k |] eqn:Ek.
  - eexists _, buffer. split; [reflexivity |]. split; [reflexivity |].
    split; [reflexivity |]. split; [| discriminate].
    intros _. apply Hnokey. discriminate.
  - eexists _, buffer. split; [reflexivity |]. split; [reflexivity |].
    split; [reflexivity |]. split; [congruence |].
    intros _. apply Hfinal.
Qed.

Lemma cursor_advances_by_consumed_bytes_witness :
  let '(segment', _, counts) :=
    progressRun SampleProgress.toBytes SampleWorker.noBoxes
      (SampleSegment.fresh None None) SampleProgress.calls in
  counts = [3; 2]
  /\ Segment.lastReachedChar segment' = JsNum.Num (sumZ counts)
  /\ sumZ counts <= 8.
Proof.
  assert (Hlen : forall s,
             List.length (SampleProgress.toBytes s) = List.length s)
    by (intros s; apply length_map).
  assert (Hparser : forall data isEndOfSegment boxes,
             0 <= Mp4Result.numUsedBytes
                    (SampleWorker.noBoxes data isEndOfSegment boxes)
               <= byteLength data)
    by (intros; unfold byteLength; cbn; lia).
  assert (Htexts : Forall
            (fun call =>
               textLength call
               <= Z.of_nat (List.length
                              (Request.responseText SampleProgress.completed)))
            SampleProgress.calls)
    by (repeat constructor; discriminate).
  pose proof (cursor_advances_by_consumed_bytes unit unit
                SampleProgress.toBytes SampleWorker.noBoxes Hlen Hparser
                (SampleSegment.fresh None None) SampleProgress.calls None
                SampleProgress.completed eq_refl Htexts eq_refl)
    as H.
  cbv zeta in H.
  destruct (progressRun SampleProgress.toBytes SampleWorker.noBoxes
              (SampleSegment.fresh None None) SampleProgress.calls)
    as [[segment' effects] counts] eqn:E.
  destruct H as (_ & _ & Hcur & Hle & _).
  split; [| split; [exact Hcur | exact Hle]].
  vm_compute in E. now inversion E.
Defined.

(** ** Completion tracker *)

Lemma handOffs_app a b : handOffs (a ++ b) = handOffs a ++ handOffs b.
Proof. unfold handOffs. apply flat_map_app. Qed.

Lemma handOffs_abortAll xhrs : handOffs (abortAll xhrs) = [].
Proof. induction xhrs as [| x xhrs IH]; [reflexivity | exact IH]. Qed.

Lemma countEffects_app p a b :
  countEffects p (a ++ b) = (countEffects p a + countEffects p b)%nat.
Proof. unfold countEffects. now rewrite filter_app, length_app. Qed.

Lemma countAborts_abortAll x xhrs :
  countEffects (isAbortOf x) (abortAll xhrs) = count_occ Xhr_eq_dec xhrs x.
Proof.
  unfold countEffects, abortAll.
  induction xhrs as [| y xhrs IH]; [reflexivity |].
  cbn [List.map filter isAbortOf count_occ].
  destruct (Xhr_eq_dec x y), (Xhr_eq_dec y x); try congruence;
    cbn [List.length]; now rewrite IH.
Qed.

Lemma mediaSegmentRequest_NoDup
    {Boxes TrackInfo : Type} (segment : Segment.t Boxes TrackInfo) :
  NoDup (mediaSegmentRequest segment).
Proof.
  unfold mediaSegmentRequest.
  destruct (issuesKey segment), (issuesInitSegment segment); cbn;
    repeat constructor; cbn; intuition discriminate.
Qed.

Lemma mediaSegmentRequest_length
    {Boxes TrackInfo : Type} (segment : Segment.t Boxes TrackInfo) :
  (1 <= List.length (mediaSegmentRequest segment) <= 3)%nat.
Proof.
  unfold mediaSegmentRequest.
  destruct (issuesKey segment), (issuesInitSegment segment); cbn; lia.
Qed.

Lemma mediaSegmentRequest_segment
    {Boxes TrackInfo : Type} (segment : Segment.t Boxes TrackInfo) :
  In SegmentXhr (mediaSegmentRequest segment).
Proof.
  unfold mediaSegmentRequest. apply in_or_app. right.
  apply in_or_app. right. now left.
Qed.

Lemma mediaSegmentRequest_key
    {Boxes TrackInfo : Type} (segment : Segment.t Boxes TrackInfo) :
  In KeyXhr (mediaSegmentRequest segment) -> Segment.key segment <> None.
Proof.
  unfold mediaSegmentRequest, issuesKey.
  destruct (Segment.key segment); [discriminate |].
  destruct (issuesInitSegment segment); cbn; intuition discriminate.
Qed.

Lemma mediaSegmentRequest_map
    {Boxes TrackInfo : Type} (segment : Segment.t Boxes TrackInfo) :
  In InitSegmentXhr (mediaSegmentRequest segment) ->
  Segment.map segment <> None.
Proof.
  unfold mediaSegmentRequest, issuesInitSegment.
  destruct (Segment.map segment); [discriminate |].
  destruct (issuesKey segment); cbn; intuition discriminate.
Qed.

Lemma getUint32_in_range (view : list byte) (byteOffset : nat) :
  (byteOffset + 4 <= List.length view)%nat ->
  getUint32 view byteOffset <> None.
Proof.
  intros H. unfold getUint32.
  pose proof (length_skipn byteOffset view) as Hlen.
  destruct (skipn byteOffset view) as [| b0 [| b1 [| b2 [| b3 rest]]]];
    cbn in Hlen; try lia. discriminate.
Qed.

Section Tracker.
Context {Boxes TrackInfo : Type}.
Variable inspectMp4 : list byte -> bool -> option Boxes -> Mp4Result.t Boxes.

Let Seg : Type := Segment.t Boxes TrackInfo.

(** The errors and the cancellation calls one tracker call adds. *)
Let appended (error : option ErrorRecord.t) : list ErrorRecord.t :=
  match error with Some e => [e] | None => [] end.
Let aborted (xhrs : list Xhr) (error : option ErrorRecord.t) : list Effect :=
  match error with Some _ => abortAll xhrs | None => [] end.

Lemma tracker_waits xhrs at_ t error (seg : Seg) :
  S (count t) <> List.length xhrs ->
  finishProcessingFn inspectMp4 xhrs at_ t error seg
  = ({| errors := errors t ++ appended error; count := S (count t) |},
     seg, aborted xhrs error).
Proof.
  intros Hne. apply Nat.eqb_neq in Hne.
  unfold finishProcessingFn.
  destruct error as [e |]; cbn [appended aborted]; rewrite Hne;
    [reflexivity | now rewrite app_nil_r].
Qed.

Lemma tracker_hands_off xhrs at_ t error (seg : Seg) :
  S (count t) = List.length xhrs ->
  (errors t ++ appended error = [] ->
   Segment.encryptedBytes seg = None ->
   exists bytes, Segment.bytes seg = Some (Uint8Array.ofBuffer bytes)) ->
  exists seg' rest path,
    finishProcessingFn inspectMp4 xhrs at_ t error seg
    = ({| errors := errors t ++ appended error; count := S (count t) |},
       seg', aborted xhrs error ++ rest)
    /\ handOffs rest = [path]
    /\ Forall (fun e => isAbort e = false) rest
    /\ taken (errors t ++ appended error) seg' path
    /\ same_buffers seg seg'.
Proof.
  intros Hlast Hbytes. apply Nat.eqb_eq in Hlast.
  assert (Hshape :
    finishProcessingFn inspectMp4 xhrs at_ t error seg
    = let errs := errors t ++ appended error in
      let tracker := {| errors := errs; count := S (count t) |} in
      let segment := Segment.set_endOfAllRequests seg at_ in
      if (0 <? List.length errs)%nat then
        match getMostImportantError errs with
        | Some worstError =>
            (tracker, segment,
             aborted xhrs error ++ [DoneFn (Some worstError) None])
        | None => (tracker, segment, aborted xhrs error ++ [Throw])
        end
      else
        match Segment.encryptedBytes segment with
        | Some _ =>
            (tracker, segment, aborted xhrs error ++ decryptSegment segment)
        | None =>
            let '(segment, effects) := dispatchFinal inspectMp4 segment in
            (tracker, segment, aborted xhrs error ++ effects)
        end).
  { unfold finishProcessingFn.
    destruct error as [e |]; cbn [appended aborted]; rewrite Hlast;
      rewrite ?app_nil_r; reflexivity. }
  rewrite Hshape. clear Hshape. cbv zeta.
  set (errs := errors t ++ appended error) in *.
  destruct errs as [| e0 errs'] eqn:Eerrs.
  - (* no error was accumulated *)
    cbn [List.length Nat.ltb Nat.leb].
    cbn [Segment.set_endOfAllRequests Segment.encryptedBytes].
    destruct (Segment.encryptedBytes seg) as [enc |] eqn:Eenc.
    + exists (Segment.set_endOfAllRequests seg at_),
             (decryptSegment (Segment.set_endOfAllRequests seg at_)),
             DecryptPath.
      split; [reflexivity |].
      unfold decryptSegment.
      cbn [Segment.set_endOfAllRequests Segment.encryptedBytes Segment.key
           Segment.requestId].
      rewrite Eenc.
      destruct (Segment.key seg) as [k |]; [destruct (Key.bytes k) |];
        (split; [reflexivity |]);
        (split; [repeat constructor |]);
        (split; [split; [reflexivity | cbn; congruence] |]);
        repeat split; reflexivity.
    + destruct (Hbytes eq_refl eq_refl) as (buffer & Ebytes).
      set (bytes := Uint8Array.ofBuffer buffer) in *.
      unfold dispatchFinal.
      cbn [Segment.set_endOfAllRequests Segment.bytes].
      rewrite Ebytes.
      pose proof (handleDecryptedBytes_effects inspectMp4
                    (Segment.set_endOfAllRequests seg at_) bytes false true)
        as (_ & _ & _ & _ & _ & Hhand & _).
      unfold bytes in Hhand at 2. rewrite dispatched_ofBuffer in Hhand.
      pose proof (handleDecryptedBytes_segment inspectMp4
                    (Segment.set_endOfAllRequests seg at_) bytes false true)
        as (Hk & Hm & Hc & _ & Hb & He & _).
      assert (Hnoabort : Forall (fun e => isAbort e = false)
                (snd (handleDecryptedBytes inspectMp4
                        (Segment.set_endOfAllRequests seg at_) bytes
                        false true))).
      { unfold handleDecryptedBytes, parseMp4AndNotify, transmuxAndNotify.
        cbn [Segment.set_endOfAllRequests Segment.map].
        destruct (Segment.map seg); cbn [snd].
        - destruct (Mp4Result.bytes _) as [data |];
            [destruct (0 <? List.length data)%nat |];
            repeat constructor.
        - repeat constructor. }
      destruct (handleDecryptedBytes inspectMp4
                  (Segment.set_endOfAllRequests seg at_) bytes false true)
        as [[n s] effs].
      cbn [fst snd] in *.
      exists s, effs, (ParsePath buffer).
      split; [reflexivity |]. split; [exact Hhand |].
      split; [exact Hnoabort |].
      split.
      * split; [reflexivity |]. split; [now rewrite He | now rewrite Hb].
      * repeat split; assumption.
  - (* at least one error *)
    cbn [List.length Nat.ltb Nat.leb].
    destruct (getMostImportantError_spec (e0 :: errs') ltac:(discriminate))
      as (w & Ew & Hw).
    rewrite Ew.
    exists (Segment.set_endOfAllRequests seg at_),
           [DoneFn (Some w) None], (ErrorPath w).
    split; [reflexivity |]. split; [reflexivity |].
    split; [repeat constructor |].
    split; [exact (conj Ew Hw) |]. repeat split; reflexivity.
Qed.
End Tracker.

(** ** One invocation, event by event *)

Ltac closes :=
  repeat split; intros; cbn in *; try congruence; try reflexivity; try tauto.

Section Invocation.
Context {Boxes TrackInfo : Type}.
Variable stringToArrayBuffer : JsString -> list byte.
Variable inspectMp4 : list byte -> bool -> option Boxes -> Mp4Result.t Boxes.
Variable segment0 : Segment.t Boxes TrackInfo.

Let Seg : Type := Segment.t Boxes TrackInfo.
Let xhrs : list Xhr := mediaSegmentRequest segment0.

Lemma handler_forwards x (seg : Seg) error request :
  (x = KeyXhr -> Segment.key seg <> None) ->
  (x = InitSegmentXhr -> Segment.map seg <> None) ->
  exists e seg',
    responseHandler stringToArrayBuffer x seg error request = Forward e seg'
    /\ (Segment.key seg <> None -> Segment.key seg' <> None)
    /\ (Segment.map seg <> None -> Segment.map seg' <> None)
    /\ (x = SegmentXhr -> e = None ->
        Segment.encryptedBytes seg' = None ->
        exists bytes, Segment.bytes seg' = Some (Uint8Array.ofBuffer bytes))
    /\ (x <> SegmentXhr ->
        Segment.bytes seg' = Segment.bytes seg
        /\ Segment.encryptedBytes seg' = Segment.encryptedBytes seg).
Proof.
  intros Hkey Hmap.
  destruct x; cbn [responseHandler].
  - (* key *)
    specialize (Hkey eq_refl). unfold handleKeyResponse.
    destruct (handleErrors error request) as [e |].
    { exists (Some e), seg. closes. }
    destruct (byteLength (Request.response request) =? 16) eqn:E16; cbn [negb].
    + apply Z.eqb_eq, byteLength_16 in E16.
      destruct (getUint32 (Request.response request) 0) as [w0 |] eqn:E0;
        [| now apply getUint32_in_range in E0; [| lia]].
      destruct (getUint32 (Request.response request) 4) as [w1 |] eqn:E1;
        [| now apply getUint32_in_range in E1; [| lia]].
      destruct (getUint32 (Request.response request) 8) as [w2 |] eqn:E2;
        [| now apply getUint32_in_range in E2; [| lia]].
      destruct (getUint32 (Request.response request) 12) as [w3 |] eqn:E3;
        [| now apply getUint32_in_range in E3; [| lia]].
      destruct (Segment.key seg) as [k |] eqn:Ek; [| congruence].
      eexists None, _. split; [reflexivity |].
      closes.
    + eexists (Some _), seg. closes.
  - (* init segment *)
    specialize (Hmap eq_refl). unfold handleInitSegmentResponse.
    destruct (handleErrors error request) as [e |].
    { exists (Some e), seg. closes. }
    destruct (byteLength (Request.response request) =? 0).
    + eexists (Some _), seg. closes.
    + destruct (Segment.map seg) as [m |] eqn:Em; [| congruence].
      eexists None, _. split; [reflexivity |].
      closes.
  - (* media segment *)
    unfold handleSegmentResponse.
    destruct (handleErrors error request) as [e |].
    { exists (Some e), seg. closes. }
    cbn [JsNum.strictEquals stringByteLength].
    cbn [Segment.set_stats Segment.key].
    destruct (Segment.key seg) as [k |] eqn:Ek.
    + eexists None, _. split; [reflexivity |].
      closes.
    + eexists None, _. split; [reflexivity |].
      repeat split; intros; cbn in *; try congruence; try tauto.
      eexists. reflexivity.
Qed.

Lemma handleDecryptedBytes_no_abort (seg : Seg) bytes isPartial doneFn :
  Forall (fun e => isAbort e = false)
    (snd (handleDecryptedBytes inspectMp4 seg bytes isPartial doneFn)).
Proof.
  unfold handleDecryptedBytes, parseMp4AndNotify, transmuxAndNotify.
  destruct (Segment.map seg); cbn [snd].
  - destruct (Mp4Result.bytes _) as [data |];
      [destruct (0 <? List.length data)%nat |];
      repeat constructor.
  - repeat constructor.
Qed.

Lemma countAborts_none y effects :
  Forall (fun e => isAbort e = false) effects ->
  countEffects (isAbortOf y) effects = 0%nat.
Proof.
  unfold countEffects. induction 1 as [| e effects He _ IH]; [reflexivity |].
  cbn. destruct e; cbn in *; try discriminate; exact IH.
Qed.

Lemma step_response seen (p : Pipeline) x error request at_ :
  consistent segment0 seen p ->
  In x xhrs ->
  (S (List.length seen) = List.length xhrs -> In SegmentXhr (seen ++ [x])) ->
  exists p' effects added,
    step stringToArrayBuffer inspectMp4 p (Response x error request at_)
    = (p', effects)
    /\ consistent segment0 (seen ++ [x]) p'
    /\ errors (tracker p') = errors (tracker p) ++ added
    /\ (forall y, countEffects (isAbortOf y) effects
                  = (List.length added * count_occ Xhr_eq_dec xhrs y)%nat)
    /\ (S (List.length seen) <> List.length xhrs -> handOffs effects = [])
    /\ (S (List.length seen) = List.length xhrs ->
        exists path,
          handOffs effects = [path]
          /\ taken (errors (tracker p')) (segment p') path).
Proof.
  intros (Hx & Hc & Hk & Hm & Hb) Hin Hlast.
  destruct (handler_forwards x (segment p) error request)
    as (e & seg1 & Hhandler & Hk1 & Hm1 & Hseg & Hother).
  { intros ->. apply Hk. now apply mediaSegmentRequest_key. }
  { intros ->. apply Hm. now apply mediaSegmentRequest_map. }
  set (added := match e with Some e' => [e'] | None => [] end).
  assert (Hcount : forall y rest,
             Forall (fun e => isAbort e = false) rest ->
             countEffects (isAbortOf y)
               (match e with Some _ => abortAll xhrs | None => [] end ++ rest)
             = (List.length added * count_occ Xhr_eq_dec xhrs y)%nat).
  { intros y rest Hrest. rewrite countEffects_app.
    rewrite (countAborts_none y rest Hrest). subst added.
    destruct e; cbn [List.length].
    - rewrite countAborts_abortAll. lia.
    - reflexivity. }
  assert (Hbuf : forall seg' : Seg,
             same_buffers seg1 seg' ->
             In SegmentXhr (seen ++ [x]) ->
             errors (tracker p) ++ added = [] ->
             Segment.encryptedBytes seg' = None ->
             exists bytes,
               Segment.bytes seg' = Some (Uint8Array.ofBuffer bytes)).
  { intros seg' (_ & _ & Hbytes & Henc & _) Hseen Herrs Hnone.
    apply app_eq_nil in Herrs. destruct Herrs as [Herrs Hadded].
    rewrite Hbytes. rewrite Henc in Hnone.
    destruct (Xhr_eq_dec x SegmentXhr) as [-> | Hne].
    - apply Hseg; [reflexivity | | exact Hnone].
      subst added. now destruct e.
    - destruct (Hother Hne) as [Hb1 He1]. rewrite Hb1.
      rewrite He1 in Hnone. apply Hb; [| exact Herrs | exact Hnone].
      apply in_app_or in Hseen. destruct Hseen as [H | [H | []]];
        [exact H | congruence]. }
  assert (Hsame : same_buffers seg1 seg1) by (repeat split; reflexivity).
  destruct (Nat.eq_dec (S (List.length seen)) (List.length xhrs))
    as [Heq | Hne].
  - destruct (tracker_hands_off inspectMp4 (activeXhrs p) at_ (tracker p)
                e seg1) as (seg' & rest & path & Htr & Hhand & Hrest
                            & Htaken & Hframe).
    { rewrite Hx, Hc. exact Heq. }
    { intros Herrs Henc. now apply (Hbuf seg1 Hsame (Hlast Heq)). }
    eexists _, _, added. split.
    { unfold step. rewrite Hhandler, Htr. reflexivity. }
    cbn [tracker segment activeXhrs errors count].
    split.
    { pose proof Hframe as (Hfk & Hfm & Hfb & Hfe & _).
      repeat split; cbn [tracker segment activeXhrs errors count].
      - exact Hx.
      - rewrite length_app, Hc. cbn. lia.
      - rewrite Hfk. tauto.
      - rewrite Hfm. tauto.
      - intros Hseen Herrs Hnone.
        apply (Hbuf seg'); [exact Hframe | exact Hseen | exact Herrs
                           | exact Hnone]. }
    split; [reflexivity |].
    split; [intros y; rewrite Hx; now apply Hcount |].
    split; [congruence |].
    intros _. exists path. split; [| exact Htaken].
    rewrite handOffs_app, Hhand.
    destruct e; [now rewrite handOffs_abortAll | reflexivity].
  - eexists _, _, added. split.
    { unfold step. rewrite Hhandler, tracker_waits; [reflexivity |].
      rewrite Hx, Hc. exact Hne. }
    cbn [tracker segment activeXhrs errors count].
    split.
    { repeat split; cbn [tracker segment activeXhrs errors count].
      - exact Hx.
      - rewrite length_app, Hc. cbn. lia.
      - tauto.
      - tauto.
      - intros Hseen Herrs Hnone.
        now apply (Hbuf seg1 Hsame Hseen Herrs). }
    split; [reflexivity |].
    split.
    { intros y. rewrite Hx. subst added.
      destruct e; cbn [List.length]; [| reflexivity].
      rewrite countAborts_abortAll. unfold xhrs. lia. }
    split; [| congruence].
    intros _. destruct e; [apply handOffs_abortAll | reflexivity].
Qed.

Lemma step_progress seen (p : Pipeline) call :
  consistent segment0 seen p ->
  exists p' effects,
    step stringToArrayBuffer inspectMp4 p (Progress call) = (p', effects)
    /\ consistent segment0 seen p'
    /\ tracker p' = tracker p
    /\ handOffs effects = []
    /\ (forall y, countEffects (isAbortOf y) effects = 0%nat)
    /\ same_buffers (segment p) (Segment.set_lastReachedChar (segment p')
                                   (Segment.lastReachedChar (segment p))).
Proof.
  intros (Hx & Hc & Hk & Hm & Hb).
  unfold step, handleProgress.
  destruct (progressParses (segment p)).
  - pose proof (handleDecryptedBytes_effects inspectMp4 (segment p)
                  (Uint8Array.ofBuffer
                     (newBytesOf stringToArrayBuffer (segment p)
                        (ProgressEvent.target (event call)))) true false)
      as (_ & _ & _ & _ & _ & Hhand & _).
    pose proof (handleDecryptedBytes_segment inspectMp4 (segment p)
                  (Uint8Array.ofBuffer
                     (newBytesOf stringToArrayBuffer (segment p)
                        (ProgressEvent.target (event call)))) true false)
      as (Hkey & Hmap & Hcur & _ & Hbytes & Henc & _).
    pose proof (handleDecryptedBytes_no_abort (segment p)
                  (Uint8Array.ofBuffer
                     (newBytesOf stringToArrayBuffer (segment p)
                        (ProgressEvent.target (event call)))) true false)
      as Hnoabort.
    destruct (handleDecryptedBytes inspectMp4 (segment p) _ true false)
      as [[n s] effs]. cbn [fst snd] in *.
    eexists _, _. split; [reflexivity |].
    cbn [tracker segment activeXhrs].
    split.
    { repeat split; cbn [tracker segment activeXhrs]; try assumption;
        cbn; rewrite ?Hkey, ?Hmap, ?Hbytes, ?Henc; assumption. }
    split; [reflexivity |].
    split; [rewrite handOffs_app, Hhand; reflexivity |].
    split.
    { intros y. rewrite countEffects_app, (countAborts_none y effs Hnoabort).
      reflexivity. }
    repeat split; cbn; assumption.
  - eexists _, _. split; [reflexivity |].
    cbn [tracker segment activeXhrs].
    split.
    { repeat split; cbn [tracker segment activeXhrs]; assumption. }
    repeat split; reflexivity.
Qed.
Lemma run_app (p : @Pipeline Boxes TrackInfo) first second :
  run stringToArrayBuffer inspectMp4 p (first ++ second)
  = (fst (run stringToArrayBuffer inspectMp4
            (fst (run stringToArrayBuffer inspectMp4 p first)) second),
     snd (run stringToArrayBuffer inspectMp4 p first)
     ++ snd (run stringToArrayBuffer inspectMp4
               (fst (run stringToArrayBuffer inspectMp4 p first)) second)).
Proof.
  revert p. induction first as [| ev first IH]; intros p; cbn.
  - now destruct (run stringToArrayBuffer inspectMp4 p second).
  - destruct (step stringToArrayBuffer inspectMp4 p ev) as [p1 e1].
    rewrite IH.
    destruct (run stringToArrayBuffer inspectMp4 p1 first) as [p2 e2].
    cbn [fst snd].
    destruct (run stringToArrayBuffer inspectMp4 p2 second) as [p3 e3].
    cbn [fst snd]. now rewrite app_assoc.
Qed.

Lemma responded_app first second :
  responded (first ++ second) = responded first ++ responded second.
Proof. unfold responded. apply flat_map_app. Qed.

Lemma taken_same errs (a b : Seg) path :
  Segment.encryptedBytes b = Segment.encryptedBytes a ->
  Segment.bytes b = Segment.bytes a ->
  taken errs a path -> taken errs b path.
Proof.
  intros He Hb. destruct path; cbn; [tauto | |]; rewrite He, ?Hb; tauto.
Qed.

Lemma run_all events :
  forall seen (p : Pipeline),
    consistent segment0 seen p ->
    Forall (fun ev => isRequestEvent ev = true) events ->
    Permutation (seen ++ responded events) xhrs ->
    exists p' effects added,
      run stringToArrayBuffer inspectMp4 p events = (p', effects)
      /\ consistent segment0 (seen ++ responded events) p'
      /\ errors (tracker p') = errors (tracker p) ++ added
      /\ (forall y, countEffects (isAbortOf y) effects
                    = (List.length added * count_occ Xhr_eq_dec xhrs y)%nat)
      /\ match responded events with
         | [] =>
             handOffs effects = []
             /\ added = []
             /\ Segment.encryptedBytes (segment p')
                = Segment.encryptedBytes (segment p)
             /\ Segment.bytes (segment p') = Segment.bytes (segment p)
         | _ :: _ =>
             exists path,
               handOffs effects = [path]
               /\ taken (errors (tracker p')) (segment p') path
         end.
Proof.
  induction events as [| ev rest IH]; intros seen p Hinv Hreq Hperm.
  - exists p, [], []. cbn [run responded flat_map].
    rewrite !app_nil_r.
    split; [reflexivity |]. split; [exact Hinv |].
    repeat split; reflexivity.
  - inversion Hreq as [| ? ? Hev Hrest]; subst.
    destruct ev as [x error request at_ | call | data];
      [| | discriminate].
    + (* a response *)
      cbn [responded flat_map app] in *. fold (responded rest) in *.
      assert (Hin : In x xhrs).
      { apply (Permutation_in x Hperm). apply in_or_app. right. now left. }
      assert (Hlen : (List.length seen + S (List.length (responded rest))
                      = List.length xhrs)%nat).
      { apply Permutation_length in Hperm.
        rewrite length_app in Hperm. exact Hperm. }
      assert (Hperm' : Permutation ((seen ++ [x]) ++ responded rest) xhrs).
      { now rewrite <- app_assoc. }
      destruct (step_response seen p x error request at_ Hinv Hin)
        as (p1 & e1 & added1 & Hstep & Hinv1 & Herr1 & Hab1 & Hwait & Hhand).
      { intros Hlast.
        assert (Hnil : responded rest = []).
        { destruct (responded rest); [reflexivity | cbn in Hlen; lia]. }
        rewrite Hnil, app_nil_r in Hperm'.
        apply (Permutation_in SegmentXhr (Permutation_sym Hperm')).
        apply mediaSegmentRequest_segment. }
      destruct (IH (seen ++ [x]) p1 Hinv1 Hrest Hperm')
        as (p2 & e2 & added2 & Hrun & Hinv2 & Herr2 & Hab2 & Hlater).
      exists p2, (e1 ++ e2), (added1 ++ added2).
      split; [cbn [run]; now rewrite Hstep, Hrun |].
      split; [now rewrite <- app_assoc in Hinv2 |].
      split; [now rewrite Herr2, Herr1, app_assoc |].
      split.
      { intros y. rewrite countEffects_app, Hab1, Hab2, length_app. lia. }
      rewrite handOffs_app.
      destruct (responded rest) as [| x' later] eqn:Elater.
      * destruct Hlater as (Hnone & Hadded & Henc & Hbytes).
        destruct Hhand as (path & Hpath & Htaken); [cbn in Hlen; lia |].
        exists path. rewrite Hpath, Hnone. split; [reflexivity |].
        rewrite Herr2, Hadded, app_nil_r.
        now apply (taken_same _ (segment p1)).
      * destruct Hlater as (path & Hpath & Htaken).
        exists path. rewrite Hwait by (cbn in Hlen; lia).
        split; [exact Hpath | exact Htaken].
    + (* a progress notification *)
      cbn [responded flat_map app] in *. fold (responded rest) in *.
      destruct (step_progress seen p call Hinv)
        as (p1 & e1 & Hstep & Hinv1 & Htr & Hnone & Hab1 & Hsame).
      destruct (IH seen p1 Hinv1 Hrest Hperm)
        as (p2 & e2 & added2 & Hrun & Hinv2 & Herr2 & Hab2 & Hlater).
      exists p2, (e1 ++ e2), added2.
      split; [cbn [run]; now rewrite Hstep, Hrun |].
      split; [exact Hinv2 |].
      split; [now rewrite Herr2, Htr |].
      split.
      { intros y. rewrite countEffects_app, Hab1, Hab2. reflexivity. }
      rewrite handOffs_app, Hnone. cbn [app].
      destruct Hsame as (_ & _ & Hb & He & _). cbn in Hb, He.
      destruct (responded rest) as [| x' later].
      * destruct Hlater as (Hn & Hadded & Henc & Hbytes).
        repeat split; [exact Hn | exact Hadded | congruence | congruence].
      * exact Hlater.
Qed.

Lemma run_waits prefix :
  forall seen (p : Pipeline),
    consistent segment0 seen p ->
    Forall (fun ev => isRequestEvent ev = true) prefix ->
    incl (responded prefix) xhrs ->
    (List.length seen + List.length (responded prefix)
     < List.length xhrs)%nat ->
    exists p' effects,
      run stringToArrayBuffer inspectMp4 p prefix = (p', effects)
      /\ consistent segment0 (seen ++ responded prefix) p'
      /\ handOffs effects = [].
Proof.
  induction prefix as [| ev rest IH]; intros seen p Hinv Hreq Hincl Hlen.
  - exists p, []. cbn [run responded flat_map]. rewrite app_nil_r.
    split; [reflexivity |]. split; [exact Hinv | reflexivity].
  - inversion Hreq as [| ? ? Hev Hrest]; subst.
    destruct ev as [x error request at_ | call | data];
      [| | discriminate].
    + cbn [responded flat_map app List.length] in *.
      fold (responded rest) in *.
      destruct (step_response seen p x error request at_ Hinv)
        as (p1 & e1 & added1 & Hstep & Hinv1 & _ & _ & Hwait & _).
      { apply Hincl. now left. }
      { intros Hlast. lia. }
      destruct (IH (seen ++ [x]) p1 Hinv1 Hrest)
        as (p2 & e2 & Hrun & Hinv2 & Hnone).
      { intros y Hy. apply Hincl. now right. }
      { rewrite length_app. cbn. lia. }
      exists p2, (e1 ++ e2).
      split; [cbn [run]; now rewrite Hstep, Hrun |].
      split; [now rewrite <- app_assoc in Hinv2 |].
      rewrite handOffs_app, Hwait, Hnone by lia. reflexivity.
    + cbn [responded flat_map app] in *. fold (responded rest) in *.
      destruct (step_progress seen p call Hinv)
        as (p1 & e1 & Hstep & Hinv1 & _ & Hnone1 & _).
      destruct (IH seen p1 Hinv1 Hrest Hincl Hlen)
        as (p2 & e2 & Hrun & Hinv2 & Hnone).
      exists p2, (e1 ++ e2).
      split; [cbn [run]; now rewrite Hstep, Hrun |].
      split; [exact Hinv2 |].
      rewrite handOffs_app, Hnone1, Hnone. reflexivity.
Qed.

Lemma start_consistent d : consistent segment0 [] (start d segment0).
Proof.
  repeat split; cbn; tauto.
Qed.
End Invocation.

(** C1.  Let an invocation for any descriptor receive the response
    callbacks of its N requests (N is 1, 2 or 3), each once, in any order,
    each succeeding or failing, with progress notifications anywhere in
    between.  Along the run no hand-off has begun as long as fewer than N
    responses have been handled, and exactly one has begun from the N-th
    response on.  If an error was accumulated, that hand-off reports to
    [doneFn] the error [getMostImportantError] returns, which is the first
    of the accumulated errors whose code is maximal; otherwise it starts
    the decryption client if [encryptedBytes] is set; otherwise it is a
    final call ([isPartial = false]) of the parse dispatcher on the bytes
    of [segment.bytes], the array the media-segment handler built over
    the whole of its buffer. *)
Theorem handOff_exactly_once_on_last_completion :
  forall (Boxes TrackInfo : Type)
         (stringToArrayBuffer : JsString -> list byte)
         (inspectMp4 : list byte -> bool -> option Boxes
                       -> Mp4Result.t Boxes)
         (segment0 : Segment.t Boxes TrackInfo) (decrypter0 : Decrypter.t)
         (events : list Event),
    Forall (fun ev => isRequestEvent ev = true) events ->
    Permutation (responded events) (mediaSegmentRequest segment0) ->
    let N := List.length (mediaSegmentRequest segment0) in
    let p0 := start decrypter0 segment0 in
    (1 <= N <= 3)%nat
    /\ exists path,
        (forall prefix rest,
            events = prefix ++ rest ->
            handOffs (snd (run stringToArrayBuffer inspectMp4 p0 prefix))
            = if (List.length (responded prefix) <? N)%nat
              then [] else [path])
        /\ taken
             (errors (tracker (fst (run stringToArrayBuffer inspectMp4 p0
                                      events))))
             (segment (fst (run stringToArrayBuffer inspectMp4 p0 events)))
             path.
Proof.
  intros Boxes TrackInfo s2ab inspectMp4 segment0 d0 events Hreq Hperm N p0.
  split; [apply mediaSegmentRequest_length |].
  assert (HN : responded events <> []).
  { intros Hnil. rewrite Hnil in Hperm. apply Permutation_nil in Hperm.
    pose proof (mediaSegmentRequest_length segment0). rewrite Hperm in H.
    cbn in H. lia. }
  destruct (run_all s2ab inspectMp4 segment0 events [] p0
              (start_consistent segment0 d0) Hreq Hperm)
    as (p' & effects & added & Hrun & _ & _ & _ & Hhand).
  assert (Hone : exists path,
             handOffs effects = [path]
             /\ taken (errors (tracker p')) (segment p') path).
  { destruct (responded events); [congruence | exact Hhand]. }
  clear Hhand. destruct Hone as (path & Hpath & Htaken).
  exists path. split; [| now rewrite Hrun].
  intros prefix rest ->.
  rewrite responded_app in Hperm.
  apply Forall_app in Hreq. destruct Hreq as [Hprefix Hrest].
  pose proof (Permutation_length Hperm) as Hlen.
  rewrite length_app in Hlen. fold N in Hlen.
  destruct (List.length (responded prefix) <? N)%nat eqn:Elt.
  - apply Nat.ltb_lt in Elt.
    destruct (run_waits s2ab inspectMp4 segment0 prefix [] p0
                (start_consistent segment0 d0) Hprefix)
      as (p1 & e1 & Hrun1 & _ & Hnone).
    + intros y Hy. apply (Permutation_in y Hperm).
      apply in_or_app. now left.
    + exact Elt.
    + now rewrite Hrun1.
  - apply Nat.ltb_ge in Elt.
    assert (Hnil : responded rest = []).
    { destruct (responded rest); [reflexivity | cbn in Hlen; lia]. }
    rewrite Hnil, app_nil_r in Hperm.
    destruct (run_all s2ab inspectMp4 segment0 prefix [] p0
                (start_consistent segment0 d0) Hprefix Hperm)
      as (p1 & e1 & added1 & Hrun1 & _ & _ & _ & Hhand1).
    assert (Hone1 : exists path1, handOffs e1 = [path1]).
    { destruct (responded prefix) as [| x1 later1].
      - pose proof (mediaSegmentRequest_length segment0) as H3.
        fold N in H3. cbn in Elt. lia.
      - destruct Hhand1 as (path1 & Hpath1 & _). now exists path1. }
    destruct Hone1 as (path1 & Hpath1).
    rewrite Hrun1. cbn [snd]. rewrite Hpath1.
    rewrite (run_app s2ab inspectMp4) in Hrun. rewrite Hrun1 in Hrun.
    cbn [fst snd] in Hrun. inversion Hrun as [[Hp He]].
    rewrite <- He, handOffs_app, Hpath1 in Hpath.
    now inversion Hpath.
Qed.

Lemma handOff_exactly_once_on_last_completion_witness :
  exists path,
    handOffs (snd (run SampleProgress.toBytes SampleWorker.noBoxes
                     (start SampleRun.idle SampleRun.keyed)
                     SampleRun.succeeding))
    = [path]
    /\ handOffs (snd (run SampleProgress.toBytes SampleWorker.noBoxes
                        (start SampleRun.idle SampleRun.keyed)
                        (firstn 2 SampleRun.succeeding)))
       = [].
Proof.
  assert (Hreq : Forall (fun ev => isRequestEvent ev = true)
                   SampleRun.succeeding)
    by (repeat constructor).
  assert (Hperm : Permutation (responded SampleRun.succeeding)
                    (mediaSegmentRequest SampleRun.keyed))
    by apply perm_swap.
  destruct (handOff_exactly_once_on_last_completion unit unit
              SampleProgress.toBytes SampleWorker.noBoxes SampleRun.keyed
              SampleRun.idle SampleRun.succeeding Hreq Hperm)
    as (_ & path & Hprefix & _).
  exists path. split.
  - exact (Hprefix SampleRun.succeeding [] (eq_sym (app_nil_r _))).
  - exact (Hprefix (firstn 2 SampleRun.succeeding)
             (skipn 2 SampleRun.succeeding) eq_refl).
Defined.

(** ** Cancellation *)

(** C8 as stated fails.  The key request of an encrypted fmp4 segment
    fails, and the init-segment request, cancelled by the tracker,
    completes as aborted.  Both completions carry an error and each makes
    the tracker call [abort] on all three requests: the media-segment
    request, still in flight, has by then been cancelled twice, and is
    cancelled a third time at its own aborted completion. *)
Lemma cancellation_repeats_on_cascade :
  let p0 := start SampleRun.idle SampleRun.keyedFmp4 in
  let early :=
    snd (run SampleProgress.toBytes SampleWorker.noBoxes p0
           (firstn 2 SampleRun.failing)) in
  let all :=
    snd (run SampleProgress.toBytes SampleWorker.noBoxes p0
           SampleRun.failing) in
  mediaSegmentRequest SampleRun.keyedFmp4
  = [KeyXhr; InitSegmentXhr; SegmentXhr]
  /\ responded (firstn 2 SampleRun.failing) = [KeyXhr; InitSegmentXhr]
  /\ early
     = [XhrAbort KeyXhr; XhrAbort InitSegmentXhr; XhrAbort SegmentXhr;
        XhrAbort KeyXhr; XhrAbort InitSegmentXhr; XhrAbort SegmentXhr]
  /\ countEffects (isAbortOf SegmentXhr) early = 2%nat
  /\ countEffects (isAbortOf SegmentXhr) all = 3%nat
  /\ ~ cancelled_exactly_once (mediaSegmentRequest SampleRun.keyedFmp4)
         (responded (firstn 2 SampleRun.failing)) early.
Proof.
  intros p0 early all.
  split; [reflexivity |]. split; [reflexivity |]. split; [reflexivity |].
  split; [reflexivity |]. split; [reflexivity |].
  intros Hclaim.
  specialize (Hclaim SegmentXhr
                (or_intror (or_intror (or_introl eq_refl)))).
  assert (Hflight : ~ In SegmentXhr (responded (firstn 2 SampleRun.failing))).
  { cbn. intuition discriminate. }
  specialize (Hclaim Hflight). vm_compute in Hclaim. discriminate.
Qed.

(** C8, amended.  Every completion that forwards an error appends the
    error to the accumulator and calls [abort] exactly once on every
    request of the invocation, the failing one included; when that
    completion is the last one, the error reported to [doneFn] is the most
    important of the accumulated errors, the new one among them.  Over an
    invocation in which every request completes, each request thus
    receives as many cancellation calls as completions carried an
    error. *)
Theorem every_error_completion_cancels_all_requests :
  forall (Boxes TrackInfo : Type)
         (stringToArrayBuffer : JsString -> list byte)
         (inspectMp4 : list byte -> bool -> option Boxes
                       -> Mp4Result.t Boxes)
         (segment0 : Segment.t Boxes TrackInfo) (decrypter0 : Decrypter.t),
    let xhrs := mediaSegmentRequest segment0 in
    (forall (t : Tracker) (e : ErrorRecord.t)
            (seg : Segment.t Boxes TrackInfo) (at_ : Z),
        let '(t', _, effects) :=
          finishProcessingFn inspectMp4 xhrs at_ t (Some e) seg in
        errors t' = errors t ++ [e]
        /\ (forall x, In x xhrs ->
                      countEffects (isAbortOf x) effects = 1%nat)
        /\ (S (count t) = List.length xhrs ->
            exists worst,
              getMostImportantError (errors t ++ [e]) = Some worst
              /\ handOffs effects = [ErrorPath worst]))
    /\ (forall events : list Event,
          Forall (fun ev => isRequestEvent ev = true) events ->
          Permutation (responded events) xhrs ->
          let '(p, effects) :=
            run stringToArrayBuffer inspectMp4 (start decrypter0 segment0)
              events in
          forall x, In x xhrs ->
                    countEffects (isAbortOf x) effects
                    = List.length (errors (tracker p))).
Proof.
  intros Boxes TrackInfo s2ab inspectMp4 segment0 d0 xhrs.
  assert (Honce : forall x, In x xhrs -> count_occ Xhr_eq_dec xhrs x = 1%nat).
  { intros x Hin.
    apply NoDup_count_occ'; [apply mediaSegmentRequest_NoDup | exact Hin]. }
  split.
  - intros t e seg at_.
    destruct (Nat.eq_dec (S (count t)) (List.length xhrs)) as [Heq | Hne].
    + destruct (tracker_hands_off inspectMp4 xhrs at_ t (Some e) seg Heq)
        as (seg' & rest & path & Htr & Hhand & Hrest & Htaken & _).
      { intros Hnil. now apply app_eq_nil in Hnil. }
      rewrite Htr. cbn [errors]. split; [reflexivity |]. split.
      * intros x Hin. rewrite countEffects_app, countAborts_abortAll.
        rewrite (countAborts_none x rest Hrest), (Honce x Hin). reflexivity.
      * intros _. rewrite handOffs_app, handOffs_abortAll, Hhand.
        destruct path as [worst | | bytes]; cbn in Htaken.
        -- exists worst. split; [apply Htaken | reflexivity].
        -- destruct Htaken as [Hnil _]. now apply app_eq_nil in Hnil.
        -- destruct Htaken as [Hnil _]. now apply app_eq_nil in Hnil.
    + rewrite (tracker_waits inspectMp4 xhrs at_ t (Some e) seg Hne).
      cbn [errors]. split; [reflexivity |]. split; [| congruence].
      intros x Hin. rewrite countAborts_abortAll. now apply Honce.
  - intros events Hreq Hperm.
    destruct (run_all s2ab inspectMp4 segment0 events []
                (start d0 segment0) (start_consistent segment0 d0)
                Hreq Hperm)
      as (p & effects & added & Hrun & _ & Herr & Hab & _).
    rewrite Hrun. intros x Hin.
    rewrite Hab, Herr. fold xhrs. rewrite (Honce x Hin).
    cbn [start tracker waitForCompletion errors app]. lia.
Qed.

Lemma every_error_completion_cancels_all_requests_witness :
  let '(p, effects) :=
    run SampleProgress.toBytes SampleWorker.noBoxes
      (start SampleRun.idle SampleRun.keyedFmp4) SampleRun.failing in
  countEffects (isAbortOf SegmentXhr) effects
  = List.length (errors (tracker p))
  /\ List.length (errors (tracker p)) = 3%nat.
Proof.
  assert (Hreq : Forall (fun ev => isRequestEvent ev = true)
                   SampleRun.failing)
    by (repeat constructor).
  assert (Hperm : Permutation (responded SampleRun.failing)
                    (mediaSegmentRequest SampleRun.keyedFmp4))
    by apply Permutation_refl.
  pose proof (proj2 (every_error_completion_cancels_all_requests unit unit
                       SampleProgress.toBytes SampleWorker.noBoxes
                       SampleRun.keyedFmp4 SampleRun.idle)
                SampleRun.failing Hreq Hperm) as H.
  destruct (run SampleProgress.toBytes SampleWorker.noBoxes
              (start SampleRun.idle SampleRun.keyedFmp4) SampleRun.failing)
    as [p effects] eqn:E.
  split.
  - apply H. right. right. now left.
  - vm_compute in E. inversion E. reflexivity.
Defined.

(** ** The box scan of the other revision *)

Lemma getUint32_range view byteOffset w :
  getUint32 view byteOffset = Some w -> 0 <= w < 2 ^ 32.
Proof.
  unfold getUint32.
  destruct (skipn byteOffset view) as [| b0 [| b1 [| b2 [| b3 rest]]]];
    try discriminate.
  intros H. replace w with (be32 b0 b1 b2 b3); [apply be32_range |].
  rewrite <- word_is_be32. congruence.
Qed.

(** The bound on the rounds is enough: one more round changes nothing. *)
Lemma completeBoxesLoop_rounds rounds :
  forall view reachesEndOfFile offset remaining,
    0 <= remaining ->
    (Z.to_nat remaining < rounds)%nat ->
    Part000.completeBoxesLoop (S rounds) view reachesEndOfFile offset
      remaining
    = Part000.completeBoxesLoop rounds view reachesEndOfFile offset
        remaining.
Proof.
  induction rounds as [| rounds IH]; intros view eof offset remaining
    Hpos Hlt; [lia |].
  cbn [Part000.completeBoxesLoop].
  destruct (remaining >=? 8) eqn:E8; [| reflexivity].
  destruct (getUint32 view (Z.to_nat offset)) as [size |] eqn:Esize;
    [| reflexivity].
  destruct ((size =? 0) && negb eof); [reflexivity |].
  set (boxLength := if size =? 0 then remaining else size).
  destruct (remaining <? boxLength) eqn:Elen; [reflexivity |].
  apply Z.ltb_ge in Elen.
  assert (1 <= boxLength).
  { apply getUint32_range in Esize. subst boxLength.
    destruct (size =? 0) eqn:E0; [| apply Z.eqb_neq in E0]; lia. }
  change (Part000.completeBoxesLoop (S rounds) view eof (offset + boxLength)
            (remaining - boxLength)
          = Part000.completeBoxesLoop rounds view eof (offset + boxLength)
              (remaining - boxLength)).
  apply IH; lia.
Qed.

(** The scan never reports more bytes than the buffer holds. *)
Lemma completeBoxesLoop_bounds rounds :
  forall view reachesEndOfFile offset remaining,
    0 <= remaining ->
    offset
    <= Part000.completeBoxesLoop rounds view reachesEndOfFile offset
         remaining
    <= offset + remaining.
Proof.
  induction rounds as [| rounds IH]; intros view eof offset remaining Hpos;
    cbn [Part000.completeBoxesLoop]; [lia |].
  destruct (remaining >=? 8); [| lia].
  destruct (getUint32 view (Z.to_nat offset)) as [size |] eqn:Esize; [| lia].
  destruct ((size =? 0) && negb eof); [lia |].
  set (boxLength := if size =? 0 then remaining else size).
  destruct (remaining <? boxLength) eqn:Elen; [lia |].
  apply Z.ltb_ge in Elen.
  assert (0 <= boxLength).
  { apply getUint32_range in Esize. subst boxLength.
    destruct (size =? 0); lia. }
  specialize (IH view eof (offset + boxLength) (remaining - boxLength)
                ltac:(lia)).
  lia.
Qed.

Lemma completeMp4BoxesOffset_bounds bytes reachesEndOfFile :
  0 <= Part000.completeMp4BoxesOffset bytes reachesEndOfFile
    <= Uint8Array.byteLength bytes.
Proof.
  unfold Part000.completeMp4BoxesOffset.
  apply (completeBoxesLoop_bounds _ (Uint8Array.buffer bytes)
           reachesEndOfFile 0 (Uint8Array.byteLength bytes)).
  unfold Uint8Array.byteLength. lia.
Qed.

(** * Further properties *)

(** ** Error classifier *)

(** X1.  [handleErrors] classifies by priority: a timed-out request is a
    Timeout whatever else holds, an aborted one that did not time out is
    Aborted, any other request with a non-null error is a Failure, and
    only a request with neither flag and a null error yields no record.
    The record carries the status of the request and the request
    itself. *)
Theorem handleErrors_priority :
  forall (error : option string) (request : Request.t),
    match handleErrors error request with
    | None =>
        Request.timedout request = false
        /\ Request.aborted request = false
        /\ error = None
    | Some e =>
        ErrorRecord.code e
        = (if Request.timedout request then REQUEST_ERRORS.TIMEOUT
           else if Request.aborted request then REQUEST_ERRORS.ABORTED
                else REQUEST_ERRORS.FAILURE)
        /\ (Request.timedout request = false ->
            Request.aborted request = false -> error <> None)
        /\ ErrorRecord.status e = Request.status request
        /\ ErrorRecord.xhr e = request
    end.
Proof.
  intros error request. unfold handleErrors.
  destruct (Request.timedout request), (Request.aborted request),
    error; cbn; repeat split; congruence.
Qed.

(** ** Accumulating errors *)

(** X2.  Appending errors whose codes do not exceed the code of the
    current most important error never changes it, and appending one error
    with a strictly greater code makes that error the most important one:
    a cascade of aborts cannot displace the failure that caused it, while a
    later, more severe error does take over. *)
Theorem getMostImportantError_append :
  forall (errors later : list ErrorRecord.t) (worst e : ErrorRecord.t),
    getMostImportantError errors = Some worst ->
    (Forall (fun e' => ErrorRecord.code e' <= ErrorRecord.code worst)
       later ->
     getMostImportantError (errors ++ later) = Some worst)
    /\ (ErrorRecord.code worst < ErrorRecord.code e ->
        getMostImportantError (errors ++ [e]) = Some e).
Proof.
  intros errors later worst e Hworst.
  destruct errors as [| first rest]; [discriminate |].
  cbn in Hworst. injection Hworst as Hworst.
  cbn [app getMostImportantError]. rewrite !fold_left_app, Hworst.
  split.
  - intros Hlater. f_equal. clear Hworst.
    induction Hlater as [| e' later He' _ IH]; [reflexivity |].
    cbn. replace (ErrorRecord.code e' >? ErrorRecord.code worst) with false;
      [exact IH |].
    symmetry. rewrite Z.gtb_ltb. apply Z.ltb_ge. exact He'.
  - intros Hgt. cbn.
    replace (ErrorRecord.code e >? ErrorRecord.code worst) with true;
      [reflexivity |].
    symmetry. rewrite Z.gtb_ltb. now apply Z.ltb_lt.
Qed.

Lemma getMostImportantError_append_witness :
  getMostImportantError
    ([Sample.failure] ++ [Sample.abortedInit; Sample.abortedSegment])
  = Some Sample.failure
  /\ getMostImportantError ([Sample.abortedInit] ++ [Sample.timeout])
     = Some Sample.timeout.
Proof.
  split.
  - apply (proj1 (getMostImportantError_append [Sample.failure]
                    [Sample.abortedInit; Sample.abortedSegment]
                    Sample.failure Sample.failure eq_refl)).
    repeat constructor; discriminate.
  - apply (proj2 (getMostImportantError_append [Sample.abortedInit] []
                    Sample.abortedInit Sample.timeout eq_refl)).
    reflexivity.
Defined.

(** ** Init-segment response handler *)



(** ** Decryption client *)

(** X4.  [decryptSegment] always registers its listener first.  With an
    encrypted buffer and fetched key bytes it then posts exactly one
    message, carrying the request id, the encrypted buffer, the key words
    and the iv.  When the encrypted buffer, the key or the key bytes are
    missing it throws instead: nothing is posted, and the listener it has
    just registered stays on the channel. *)
Theorem decryptSegment_registers_then_posts :
  forall (Boxes TrackInfo : Type) (segment : Segment.t Boxes TrackInfo)
         (d0 : Decrypter.t),
    let id := Segment.requestId segment in
    let d := Decrypter.run d0 (decryptSegment segment) in
    (exists rest, decryptSegment segment = AddEventListener id :: rest)
    /\ Decrypter.listeners d = Decrypter.listeners d0 ++ [id]
    /\ (forall encrypted k keyBytes,
          Segment.encryptedBytes segment = Some encrypted ->
          Segment.key segment = Some k ->
          Key.bytes k = Some keyBytes ->
          ~ In Throw (decryptSegment segment)
          /\ Decrypter.posted d
             = Decrypter.posted d0
               ++ [{| WorkerMessage.source := id;
                      WorkerMessage.encrypted := encrypted;
                      WorkerMessage.key := keyBytes;
                      WorkerMessage.iv := Key.iv k |}])
    /\ (Segment.encryptedBytes segment = None
        \/ Segment.key segment = None
        \/ (exists k, Segment.key segment = Some k /\ Key.bytes k = None) ->
        decryptSegment segment = [AddEventListener id; Throw]
        /\ Decrypter.posted d = Decrypter.posted d0).
Proof.
  intros Boxes TrackInfo segment d0 id d.
  split; [| split; [apply listeners_after_decryptSegment | split]].
  - unfold decryptSegment. fold id.
    destruct (Segment.encryptedBytes segment), (Segment.key segment) as [k |];
      [destruct (Key.bytes k) | | |]; eexists; reflexivity.
  - intros encrypted k keyBytes Henc Hkey Hbytes.
    subst d. unfold decryptSegment. rewrite Henc, Hkey, Hbytes.
    split; [cbn; intuition discriminate | reflexivity].
  - intros Hmissing. subst d. unfold decryptSegment. fold id.
    destruct (Segment.encryptedBytes segment) as [enc |].
    + destruct (Segment.key segment) as [k |].
      * destruct (Key.bytes k) as [kb |] eqn:Ekb.
        -- destruct Hmissing as [H | [H | (k' & Hk & Hb)]];
             try discriminate.
           inversion Hk; subst. congruence.
        -- split; reflexivity.
      * split; reflexivity.
    + destruct (Segment.key segment); split; reflexivity.
Qed.

Lemma decryptSegment_registers_then_posts_witness :
  Decrypter.posted
    (Decrypter.run SampleRun.idle (decryptSegment SampleWorker.encrypted))
  = [{| WorkerMessage.source := "segment-loader-1";
        WorkerMessage.encrypted := ["017"; "042"]%byte;
        WorkerMessage.key := [1; 256; 65536; 16777216];
        WorkerMessage.iv := [0; 0; 0; 1] |}]
  /\ decryptSegment SampleRun.keyed
     = [AddEventListener "segment-loader-1"; Throw].
Proof.
  pose proof (decryptSegment_registers_then_posts unit unit
                SampleWorker.encrypted SampleRun.idle)
    as (_ & _ & Hpost & _).
  pose proof (decryptSegment_registers_then_posts unit unit
                SampleRun.keyed SampleRun.idle)
    as (_ & _ & _ & Hthrow).
  split.
  - exact (proj2 (Hpost _ _ _ eq_refl eq_refl eq_refl)).
  - exact (proj1 (Hthrow (or_introl eq_refl))).
Defined.

(** ** Statistics kept by the progress handler *)

Section FirstBytes.
Context {Boxes TrackInfo : Type}.
Variable stringToArrayBuffer : JsString -> list byte.
Variable inspectMp4 : list byte -> bool -> option Boxes -> Mp4Result.t Boxes.

Let Seg : Type := Segment.t Boxes TrackInfo.

Lemma handleProgress_stats (segment : Seg) call :
  Segment.stats
    (fst (handleProgress stringToArrayBuffer inspectMp4 segment (event call)
            (now call) (firstByteNow call)))
  = let stats := mergeStats (Segment.stats segment)
                   (getProgressStats (event call) (now call)) in
    Some (if firstBytesMissing stats
             && JsNum.truthy (Stats.bytesReceived stats)
          then set_firstBytesReceivedAt stats (firstByteNow call)
          else stats).
Proof.
  unfold handleProgress.
  destruct (progressParses segment); [| reflexivity].
  pose proof (handleDecryptedBytes_segment inspectMp4 segment
                (Uint8Array.ofBuffer
                   (newBytesOf stringToArrayBuffer segment
                      (ProgressEvent.target (event call)))) true false)
    as (_ & _ & _ & Hstats & _).
  destruct (handleDecryptedBytes inspectMp4 segment _ true false)
    as [[n s] effs]. cbn [fst snd] in *. cbn. now rewrite Hstats.
Qed.

Lemma handleProgress_firstBytes (segment : Seg) call :
  firstBytesReceivedAt
    (fst (handleProgress stringToArrayBuffer inspectMp4 segment (event call)
            (now call) (firstByteNow call)))
  = match firstBytesReceivedAt segment with
    | Some t =>
        if (t =? 0) && negb (ProgressEvent.loaded (event call) =? 0)
        then Some (firstByteNow call) else Some t
    | None =>
        if negb (ProgressEvent.loaded (event call) =? 0)
        then Some (firstByteNow call) else None
    end.
Proof.
  unfold firstBytesReceivedAt at 1. rewrite handleProgress_stats.
  unfold firstBytesReceivedAt, firstBytesMissing, mergeStats,
    getProgressStats. cbn.
  destruct (Segment.stats segment) as [st |]; cbn.
  - destruct (Stats.firstBytesReceivedAt st) as [t |]; cbn.
    + destruct (t =? 0), (ProgressEvent.loaded (event call) =? 0);
        reflexivity.
    + destruct (ProgressEvent.loaded (event call) =? 0); reflexivity.
  - destruct (ProgressEvent.loaded (event call) =? 0); reflexivity.
Qed.

Lemma progressRun_app (segment : Seg) first second :
  fst (fst (progressRun stringToArrayBuffer inspectMp4 segment
              (first ++ second)))
  = fst (fst (progressRun stringToArrayBuffer inspectMp4
                (fst (fst (progressRun stringToArrayBuffer inspectMp4
                             segment first)))
                second)).
Proof.
  revert segment. induction first as [| call first IH]; intros segment.
  - reflexivity.
  - cbn [app progressRun].
    destruct (handleProgress stringToArrayBuffer inspectMp4 segment
                (event call) (now call) (firstByteNow call)) as [s1 e1].
    specialize (IH s1).
    destruct (progressRun stringToArrayBuffer inspectMp4 s1
                (first ++ second)) as [[s2 e2] c2].
    destruct (progressRun stringToArrayBuffer inspectMp4 s1 first)
      as [[s3 e3] c3].
    cbn [fst] in *. exact IH.
Qed.

Lemma progressRun_cons (segment : Seg) call rest :
  fst (fst (progressRun stringToArrayBuffer inspectMp4 segment
              (call :: rest)))
  = fst (fst (progressRun stringToArrayBuffer inspectMp4
                (fst (handleProgress stringToArrayBuffer inspectMp4 segment
                        (event call) (now call) (firstByteNow call)))
                rest)).
Proof.
  cbn [progressRun].
  destruct (handleProgress stringToArrayBuffer inspectMp4 segment
              (event call) (now call) (firstByteNow call)) as [s1 e1].
  cbn [fst].
  destruct (progressRun stringToArrayBuffer inspectMp4 s1 rest)
    as [[s2 e2] c2].
  reflexivity.
Qed.

Lemma firstBytes_kept (calls : list ProgressCall) :
  forall (segment : Seg) t,
    firstBytesReceivedAt segment = Some t -> t <> 0 ->
    firstBytesReceivedAt
      (fst (fst (progressRun stringToArrayBuffer inspectMp4 segment calls)))
    = Some t.
Proof.
  induction calls as [| call rest IH]; intros segment t Ht Hne.
  - exact Ht.
  - rewrite progressRun_cons. apply IH; [| exact Hne].
    rewrite handleProgress_firstBytes, Ht.
    apply Z.eqb_neq in Hne. now rewrite Hne.
Qed.

Lemma firstBytes_waits (calls : list ProgressCall) :
  forall segment : Seg,
    firstBytesReceivedAt segment = None ->
    Forall (fun call => ProgressEvent.loaded (event call) = 0) calls ->
    firstBytesReceivedAt
      (fst (fst (progressRun stringToArrayBuffer inspectMp4 segment calls)))
    = None.
Proof.
  induction calls as [| call rest IH]; intros segment Hnone Hzero.
  - exact Hnone.
  - inversion Hzero as [| ? ? Hcall Hrest]; subst.
    rewrite progressRun_cons. apply IH; [| exact Hrest].
    rewrite handleProgress_firstBytes, Hnone, Hcall. reflexivity.
Qed.
End FirstBytes.

(** X5.  The time of the first byte is recorded exactly once.  On a
    descriptor without it, progress notifications that report no byte leave
    it unrecorded; the first notification that reports a byte records the
    clock read at that moment; no later notification changes it.  The
    completion of the media-segment request then replaces the statistics
    object by the three figures of the request, so the descriptor handed
    on no longer carries the first-byte time. *)
Theorem firstBytesReceivedAt_recorded_once :
  forall (Boxes TrackInfo : Type)
         (stringToArrayBuffer : JsString -> list byte)
         (inspectMp4 : list byte -> bool -> option Boxes
                       -> Mp4Result.t Boxes)
         (segment : Segment.t Boxes TrackInfo)
         (silent later : list ProgressCall) (first : ProgressCall),
    firstBytesReceivedAt segment = None ->
    Forall (fun call => ProgressEvent.loaded (event call) = 0) silent ->
    ProgressEvent.loaded (event first) <> 0 ->
    firstByteNow first <> 0 ->
    let after (calls : list ProgressCall) :=
      fst (fst (progressRun stringToArrayBuffer inspectMp4 segment calls)) in
    firstBytesReceivedAt (after silent) = None
    /\ firstBytesReceivedAt (after (silent ++ [first]))
       = Some (firstByteNow first)
    /\ firstBytesReceivedAt (after (silent ++ first :: later))
       = Some (firstByteNow first)
    /\ forall error request final,
        handleSegmentResponse stringToArrayBuffer
          (after (silent ++ first :: later)) error request
        = Forward None final ->
        Segment.stats final = Some (getRequestStats request)
        /\ firstBytesReceivedAt final = None.
Proof.
  intros Boxes TrackInfo s2ab inspectMp4 segment silent later first
         Hnone Hsilent Hloaded Hclock after.
  assert (Hwait : firstBytesReceivedAt (after silent) = None)
    by now apply firstBytes_waits.
  assert (Hfirst : firstBytesReceivedAt
                     (fst (handleProgress s2ab inspectMp4 (after silent)
                             (event first) (now first) (firstByteNow first)))
                   = Some (firstByteNow first)).
  { rewrite handleProgress_firstBytes, Hwait.
    apply Z.eqb_neq in Hloaded. now rewrite Hloaded. }
  assert (Hkept : forall rest,
             firstBytesReceivedAt (after (silent ++ first :: rest))
             = Some (firstByteNow first)).
  { intros rest. unfold after.
    rewrite progressRun_app, progressRun_cons.
    now apply firstBytes_kept. }
  split; [exact Hwait |]. split; [apply Hkept |]. split; [apply Hkept |].
  intros error request final.
  unfold handleSegmentResponse.
  destruct (handleErrors error request); [discriminate |].
  cbn [JsNum.strictEquals stringByteLength Segment.set_stats Segment.key].
  destruct (Segment.key (after (silent ++ first :: later)));
    intros H; inversion H; split; reflexivity.
Qed.

Lemma firstBytesReceivedAt_recorded_once_witness :
  firstBytesReceivedAt
    (fst (fst (progressRun SampleProgress.toBytes SampleWorker.noBoxes
                 (SampleSegment.fresh None None)
                 ([] ++ SampleProgress.call 3 1010
                     :: [SampleProgress.call 5 1020]))))
  = Some 1010.
Proof.
  apply (firstBytesReceivedAt_recorded_once unit unit SampleProgress.toBytes
           SampleWorker.noBoxes (SampleSegment.fresh None None) []
           [SampleProgress.call 5 1020] (SampleProgress.call 3 1010)).
  - reflexivity.
  - constructor.
  - discriminate.
  - discriminate.
Defined.

(** ** A cursor that was never initialised *)

(** X6.  The handlers read the cursor as [lastReachedChar || 0] but the
    progress handler advances it with [+=].  On a descriptor whose
    [lastReachedChar] is undefined (or already [NaN]), a parsing progress
    event therefore hands the whole response text received so far to the
    dispatcher and leaves the cursor [NaN]; the same happens on every later
    event, and the completion handler again extracts the whole response
    text. *)
Theorem uninitialised_cursor_redispatches_everything :
  forall (Boxes TrackInfo : Type)
         (stringToArrayBuffer : JsString -> list byte)
         (inspectMp4 : list byte -> bool -> option Boxes
                       -> Mp4Result.t Boxes)
         (segment : Segment.t Boxes TrackInfo) (call : ProgressCall),
    notANumber (Segment.lastReachedChar segment) ->
    progressParses segment = true ->
    let whole :=
      stringToArrayBuffer
        (Request.responseText (ProgressEvent.target (event call))) in
    let segment' :=
      fst (handleProgress stringToArrayBuffer inspectMp4 segment
             (event call) (now call) (firstByteNow call)) in
    let effects :=
      snd (handleProgress stringToArrayBuffer inspectMp4 segment
             (event call) (now call) (firstByteNow call)) in
    (In (Transmux whole true false) effects
     \/ In (InspectMp4 whole false) effects)
    /\ Segment.lastReachedChar segment' = JsNum.NaN
    /\ notANumber (Segment.lastReachedChar segment')
    /\ progressParses segment' = true
    /\ forall request,
        newBytesOf stringToArrayBuffer segment' request
        = stringToArrayBuffer (Request.responseText request).
Proof.
  intros Boxes TrackInfo s2ab inspectMp4 segment call Hnan Hguard
         whole segment' effects.
  assert (Hnew : newBytesOf s2ab segment (ProgressEvent.target (event call))
                 = whole).
  { unfold newBytesOf. destruct Hnan as [-> | ->]; reflexivity. }
  pose proof (handleDecryptedBytes_effects inspectMp4 segment
                (Uint8Array.ofBuffer whole) true false)
    as (_ & _ & _ & _ & _ & _ & Hcall).
  rewrite bytes_ofBuffer, buffer_ofBuffer in Hcall.
  pose proof (handleDecryptedBytes_segment inspectMp4 segment
                (Uint8Array.ofBuffer whole) true false)
    as (Hkey & Hmap & Hcur & _).
  subst segment' effects. unfold handleProgress.
  rewrite Hguard, Hnew.
  destruct (handleDecryptedBytes inspectMp4 segment
              (Uint8Array.ofBuffer whole) true false)
    as [[n s] effs]. cbn [fst snd] in *.
  assert (Hafter : JsNum.add (Segment.lastReachedChar s) n = JsNum.NaN).
  { rewrite Hcur. destruct Hnan as [-> | ->]; reflexivity. }
  split; [| split; [| split; [| split]]].
  - destruct Hcall as [H | H]; [right | left]; apply in_or_app; now left.
  - cbn. exact Hafter.
  - right. cbn. exact Hafter.
  - unfold progressParses in *. cbn. now rewrite Hkey, Hmap.
  - intros request. unfold newBytesOf. cbn. now rewrite Hafter.
Qed.

Lemma uninitialised_cursor_redispatches_everything_witness :
  let segment :=
    Segment.set_lastReachedChar (SampleSegment.fresh None None)
      JsNum.Undefined in
  Segment.lastReachedChar
    (fst (handleProgress SampleProgress.toBytes SampleWorker.noBoxes segment
            (event (SampleProgress.call 3 1010)) 1010 1010))
  = JsNum.NaN.
Proof.
  intros segment.
  exact (proj1 (proj2 (uninitialised_cursor_redispatches_everything unit unit
                         SampleProgress.toBytes SampleWorker.noBoxes segment
                         (SampleProgress.call 3 1010)
                         (or_introl eq_refl) eq_refl))).
Defined.

(** ** Transport streams: partial and final pushes *)

Lemma firstn_min_length {A : Type} (k : nat) (l : list A) :
  firstn (Nat.min k (List.length l)) l = firstn k l.
Proof.
  destruct (Nat.le_ge_cases k (List.length l)) as [H | H].
  - now rewrite Nat.min_l.
  - rewrite Nat.min_r by exact H.
    now rewrite firstn_all, firstn_all2.
Qed.

Lemma firstn_then_rest {A : Type} (c k : nat) (l : list A) :
  (c <= List.length l)%nat ->
  firstn c l ++ skipn c (firstn k l)
  = firstn (Nat.max c (Nat.min k (List.length l))) l.
Proof.
  intros Hc.
  destruct (Nat.le_gt_cases c (Nat.min k (List.length l))) as [H | H].
  - rewrite Nat.max_r by exact H.
    replace (firstn c l) with (firstn c (firstn k l)).
    + now rewrite firstn_skipn, firstn_min_length.
    + rewrite firstn_firstn. f_equal. lia.
  - rewrite Nat.max_l by lia.
    rewrite skipn_all2; [apply app_nil_r |].
    rewrite length_firstn. lia.
Qed.

Section TransportStream.
Context {Boxes TrackInfo : Type}.
Variable stringToArrayBuffer : JsString -> list byte.
Variable inspectMp4 : list byte -> bool -> option Boxes -> Mp4Result.t Boxes.

(** The conversion works code unit by code unit. *)
Variable byteOf : N -> byte.
Hypothesis stringToArrayBuffer_map :
  forall s, stringToArrayBuffer s = List.map byteOf s.

Let Seg : Type := Segment.t Boxes TrackInfo.

Lemma progressRun_transmuxed (text : JsString) calls :
  forall (segment : Seg) (c : nat),
    Segment.key segment = None ->
    Segment.map segment = None ->
    Segment.lastReachedChar segment = JsNum.Num (Z.of_nat c) ->
    (c <= List.length text)%nat ->
    Forall (fun call =>
              exists k,
                Request.responseText (ProgressEvent.target (event call))
                = firstn k text) calls ->
    exists segment' effects counts (c' : nat),
      progressRun stringToArrayBuffer inspectMp4 segment calls
      = (segment', effects, counts)
      /\ Segment.key segment' = None
      /\ Segment.map segment' = None
      /\ Segment.lastReachedChar segment' = JsNum.Num (Z.of_nat c')
      /\ (c <= c' <= List.length text)%nat
      /\ stringToArrayBuffer (firstn c text) ++ transmuxed effects
         = stringToArrayBuffer (firstn c' text)
      /\ Forall (fun e => forall b p d,
                           e = Transmux b p d -> p = true /\ d = false)
           effects
      /\ Forall (fun e => isDispatch e = true ->
                          exists b, e = Transmux b true false) effects.
Proof.
  induction calls as [| call rest IH];
    intros segment c Hkey Hmap Hcur Hc Htexts.
  - exists segment, [], [], c. cbn [progressRun transmuxed flat_map].
    rewrite app_nil_r. repeat split; try assumption; try lia; constructor.
  - inversion Htexts as [| ? ? (k & Hk) Hrest]; subst.
    set (m := Nat.max c (Nat.min k (List.length text))).
    set (newBytes := stringToArrayBuffer (skipn c (firstn k text))).
    assert (Hstep :
      handleProgress stringToArrayBuffer inspectMp4 segment (event call)
        (now call) (firstByteNow call)
      = (Segment.set_stats
           (Segment.set_lastReachedChar segment (JsNum.Num (Z.of_nat m)))
           (let stats := mergeStats (Segment.stats segment)
                           (getProgressStats (event call) (now call)) in
            if firstBytesMissing stats
               && JsNum.truthy (Stats.bytesReceived stats)
            then set_firstBytesReceivedAt stats (firstByteNow call)
            else stats),
         [Transmux newBytes true false; ProgressFn (event call)])).
    { unfold handleProgress, progressParses, handleDecryptedBytes,
        transmuxAndNotify, newBytesOf.
      rewrite Hkey, Hmap, Hcur, Hk. cbn [JsNum.orZero substring].
      rewrite Nat2Z.id. fold newBytes.
      rewrite byteLength_ofBuffer, buffer_ofBuffer.
      cbn [JsNum.add Segment.stats Segment.set_lastReachedChar app].
      replace (Z.of_nat c + byteLength newBytes) with (Z.of_nat m);
        [reflexivity |].
      unfold byteLength, newBytes.
      rewrite stringToArrayBuffer_map, length_map, length_skipn,
        length_firstn. subst m. lia. }
    destruct (IH (Segment.set_stats
                    (Segment.set_lastReachedChar segment
                       (JsNum.Num (Z.of_nat m)))
                    (let stats := mergeStats (Segment.stats segment)
                                    (getProgressStats (event call)
                                       (now call)) in
                     if firstBytesMissing stats
                        && JsNum.truthy (Stats.bytesReceived stats)
                     then set_firstBytesReceivedAt stats (firstByteNow call)
                     else stats)) m)
      as (segment' & effects & counts & c' & Hrun & Hkey' & Hmap' & Hcur'
          & Hc' & Hdata & Hpartial & Hkind);
      [exact Hkey | exact Hmap | reflexivity | subst m; lia | exact Hrest |].
    eexists segment', _, _, c'. split.
    { cbn [progressRun]. rewrite Hstep, Hrun. reflexivity. }
    split; [exact Hkey' |]. split; [exact Hmap' |]. split; [exact Hcur' |].
    split; [subst m; lia |]. split.
    { cbn [app transmuxed flat_map]. fold (transmuxed effects).
      rewrite app_assoc. rewrite <- Hdata. f_equal.
      unfold newBytes. rewrite !stringToArrayBuffer_map, <- map_app.
      f_equal. now apply firstn_then_rest. }
    split.
    { cbn [app]. constructor; [| constructor; [| exact Hpartial]].
      - intros b p d H. inversion H. now split.
      - intros b p d H. discriminate. }
    cbn [app]. constructor; [| constructor; [| exact Hkind]].
    + intros _. now exists newBytes.
    + discriminate.
Qed.
End TransportStream.

Lemma handleProgress_buffers
    {Boxes TrackInfo : Type}
    (stringToArrayBuffer : JsString -> list byte)
    (inspectMp4 : list byte -> bool -> option Boxes -> Mp4Result.t Boxes)
    (segment : Segment.t Boxes TrackInfo) (ev : ProgressEvent.t)
    (at_ firstAt : Z) :
  let segment' :=
    fst (handleProgress stringToArrayBuffer inspectMp4 segment ev
           at_ firstAt) in
  Segment.key segment' = Segment.key segment
  /\ Segment.map segment' = Segment.map segment
  /\ Segment.bytes segment' = Segment.bytes segment
  /\ Segment.encryptedBytes segment' = Segment.encryptedBytes segment
  /\ Segment.requestId segment' = Segment.requestId segment
  /\ Segment.endOfAllRequests segment' = Segment.endOfAllRequests segment.
Proof.
  unfold handleProgress.
  destruct (progressParses segment); [| cbn; repeat split; reflexivity].
  pose proof (handleDecryptedBytes_segment inspectMp4 segment
                (Uint8Array.ofBuffer
                   (newBytesOf stringToArrayBuffer segment
                      (ProgressEvent.target ev))) true false)
    as (Hk & Hm & _ & _ & Hb & He & Hid & Hend).
  destruct (handleDecryptedBytes inspectMp4 segment _ true false)
    as [[n s] effs]. cbn [fst snd] in *. cbn. repeat split; assumption.
Qed.

Lemma progressRun_buffers
    {Boxes TrackInfo : Type}
    (stringToArrayBuffer : JsString -> list byte)
    (inspectMp4 : list byte -> bool -> option Boxes -> Mp4Result.t Boxes)
    (calls : list ProgressCall) :
  forall segment : Segment.t Boxes TrackInfo,
    let segment' :=
      fst (fst (progressRun stringToArrayBuffer inspectMp4 segment calls)) in
    Segment.key segment' = Segment.key segment
    /\ Segment.map segment' = Segment.map segment
    /\ Segment.bytes segment' = Segment.bytes segment
    /\ Segment.encryptedBytes segment' = Segment.encryptedBytes segment.
Proof.
  induction calls as [| call rest IH]; intros segment.
  - cbn. repeat split; reflexivity.
  - cbv zeta. rewrite progressRun_cons.
    pose proof (handleProgress_buffers stringToArrayBuffer inspectMp4
                  segment (event call) (now call) (firstByteNow call))
      as (Hk & Hm & Hb & He & _).
    destruct (IH (fst (handleProgress stringToArrayBuffer inspectMp4 segment
                         (event call) (now call) (firstByteNow call))))
      as (Hk' & Hm' & Hb' & He').
    repeat split; congruence.
Qed.

Lemma run_progress
    {Boxes TrackInfo : Type}
    (stringToArrayBuffer : JsString -> list byte)
    (inspectMp4 : list byte -> bool -> option Boxes -> Mp4Result.t Boxes)
    (calls : list ProgressCall) :
  forall p : @Pipeline Boxes TrackInfo,
    run stringToArrayBuffer inspectMp4 p (List.map Progress calls)
    = ({| segment :=
            fst (fst (progressRun stringToArrayBuffer inspectMp4
                        (segment p) calls));
          activeXhrs := activeXhrs p;
          tracker := tracker p;
          decrypter := decrypter p |},
       snd (fst (progressRun stringToArrayBuffer inspectMp4
                   (segment p) calls))).
Proof.
  induction calls as [| call rest IH]; intros p.
  - now destruct p.
  - cbn [List.map run step progressRun].
    destruct (handleProgress stringToArrayBuffer inspectMp4 (segment p)
                (event call) (now call) (firstByteNow call)) as [s1 e1].
    rewrite IH. cbn [segment activeXhrs tracker decrypter].
    destruct (progressRun stringToArrayBuffer inspectMp4 s1 rest)
      as [[s2 e2] c2].
    reflexivity.
Qed.

(** X7.  A segment without key and without init segment goes to the
    transmuxer.  Let every progress notification see a prefix of the final
    response text, the cursor start at 0 and the conversion to bytes work
    code unit by code unit.  Then, over the progress notifications followed
    by the successful completion of the single request, every push but the
    last is partial and has no [doneFn], the last push is final, has the
    [doneFn] and carries the buffer of the array stored as
    [segment.bytes], and the
    pushed buffers, put end to end, are exactly the bytes of the response:
    no byte is pushed twice and none is left out. *)
Theorem transmuxer_receives_each_byte_once :
  forall (Boxes TrackInfo : Type)
         (stringToArrayBuffer : JsString -> list byte)
         (inspectMp4 : list byte -> bool -> option Boxes
                       -> Mp4Result.t Boxes)
         (byteOf : N -> byte),
    (forall s, stringToArrayBuffer s = List.map byteOf s) ->
    forall (segment0 : Segment.t Boxes TrackInfo) (d0 : Decrypter.t)
           (calls : list ProgressCall) (error : option string)
           (request : Request.t) (at_ : Z),
      Segment.key segment0 = None ->
      Segment.map segment0 = None ->
      Segment.encryptedBytes segment0 = None ->
      Segment.lastReachedChar segment0 = JsNum.Num 0 ->
      Forall (fun call =>
                exists k,
                  Request.responseText (ProgressEvent.target (event call))
                  = firstn k (Request.responseText request)) calls ->
      handleErrors error request = None ->
      exists p partials bytes,
        run stringToArrayBuffer inspectMp4 (start d0 segment0)
          (List.map Progress calls
           ++ [Response SegmentXhr error request at_])
        = (p, partials ++ [Transmux bytes false true])
        /\ Forall (fun e => isDispatch e = true ->
                            exists b, e = Transmux b true false) partials
        /\ transmuxed partials ++ bytes
           = stringToArrayBuffer (Request.responseText request)
        /\ Segment.bytes (segment p) = Some (Uint8Array.ofBuffer bytes)
        /\ Segment.endOfAllRequests (segment p) = Some at_.
Proof.
  intros Boxes TrackInfo s2ab inspectMp4 byteOf Hmap segment0 d0 calls
         error request at_ Hkey Hnomap Henc Hcur Htexts Herr.
  destruct (progressRun_transmuxed s2ab inspectMp4 byteOf Hmap
              (Request.responseText request) calls segment0 0%nat
              Hkey Hnomap Hcur ltac:(lia) Htexts)
    as (segment' & partials & counts & c' & Hrun & Hkey' & Hmap' & Hcur'
        & Hc' & Hdata & _ & Hkind).
  cbn [firstn] in Hdata. rewrite Hmap in Hdata. cbn [List.map app] in Hdata.
  assert (Henc' : Segment.encryptedBytes segment' = None).
  { pose proof (progressRun_buffers s2ab inspectMp4 calls segment0)
      as (_ & _ & _ & He).
    rewrite Hrun in He. cbn [fst] in He. congruence. }
  set (bytes := s2ab (skipn c' (Request.responseText request))).
  assert (Hhandler :
    handleSegmentResponse s2ab segment' error request
    = Forward None
        (Segment.set_bytes
           (Segment.set_stats segment' (getRequestStats request))
           (Uint8Array.ofBuffer bytes))).
  { unfold handleSegmentResponse, newBytesOf.
    rewrite Herr, Hcur'. cbn [JsNum.orZero substring].
    rewrite Nat2Z.id. fold bytes.
    cbn [JsNum.strictEquals stringByteLength Segment.set_stats Segment.key].
    now rewrite Hkey'. }
  assert (Hx : activeXhrs (start d0 segment0) = [SegmentXhr]).
  { cbn. unfold mediaSegmentRequest, issuesKey, issuesInitSegment.
    now rewrite Hkey, Hnomap. }
  assert (Htr :
    finishProcessingFn inspectMp4 [SegmentXhr] at_ waitForCompletion None
      (Segment.set_bytes
         (Segment.set_stats segment' (getRequestStats request))
         (Uint8Array.ofBuffer bytes))
    = ({| errors := []; count := 1 |},
       Segment.set_endOfAllRequests
         (Segment.set_bytes
            (Segment.set_stats segment' (getRequestStats request))
            (Uint8Array.ofBuffer bytes))
         at_,
       [Transmux bytes false true])).
  { unfold finishProcessingFn, dispatchFinal, handleDecryptedBytes,
      transmuxAndNotify.
    cbn. rewrite Henc', Hmap'. reflexivity. }
  eexists _, partials, bytes. split.
  { rewrite (run_app s2ab inspectMp4), run_progress. cbn [fst snd].
    change (segment (start d0 segment0)) with segment0.
    rewrite Hrun. cbn [fst snd].
    cbn [run step responseHandler segment activeXhrs tracker].
    rewrite Hhandler, Hx.
    change (tracker (start d0 segment0)) with (@waitForCompletion).
    rewrite Htr. cbn [fst snd]. rewrite app_nil_r. reflexivity. }
  split; [exact Hkind |]. split.
  { rewrite Hdata. unfold bytes. rewrite !Hmap, <- map_app.
    now rewrite firstn_skipn. }
  split; reflexivity.
Qed.

Lemma transmuxer_receives_each_byte_once_witness :
  exists p partials bytes,
    run SampleProgress.toBytes SampleWorker.noBoxes
      (start SampleRun.idle (SampleSegment.fresh None None))
      (List.map Progress SampleProgress.calls
       ++ [Response SegmentXhr None SampleProgress.completed 1030])
    = (p, partials ++ [Transmux bytes false true])
    /\ transmuxed partials ++ bytes
       = SampleProgress.toBytes SampleProgress.tsText.
Proof.
  assert (Htexts : Forall
            (fun call =>
               exists k,
                 Request.responseText (ProgressEvent.target (event call))
                 = firstn k (Request.responseText SampleProgress.completed))
            SampleProgress.calls).
  { repeat constructor; [now exists 3%nat | now exists 5%nat]. }
  destruct (transmuxer_receives_each_byte_once unit unit
              SampleProgress.toBytes SampleWorker.noBoxes
              (fun c => match Byte.of_N (c mod 256) with
                        | Some b => b
                        | None => Byte.x00
                        end)
              (fun s => eq_refl)
              (SampleSegment.fresh None None) SampleRun.idle
              SampleProgress.calls None SampleProgress.completed 1030
              eq_refl eq_refl eq_refl eq_refl Htexts eq_refl)
    as (p & partials & bytes & Hrun & _ & Hdata & _).
  exists p, partials, bytes. split; [exact Hrun | exact Hdata].
Defined.

(** ** Routing *)

Section Routing.
Context {Boxes TrackInfo : Type}.
Variable stringToArrayBuffer : JsString -> list byte.
Variable inspectMp4 : list byte -> bool -> option Boxes -> Mp4Result.t Boxes.

Let Seg : Type := Segment.t Boxes TrackInfo.

Lemma handleDecryptedBytes_routed (seg : Seg) bytes isPartial :
  hasMap (snd (fst (handleDecryptedBytes inspectMp4 seg bytes isPartial
                      (negb isPartial))))
  = hasMap seg
  /\ Forall (routed (hasMap seg))
       (snd (handleDecryptedBytes inspectMp4 seg bytes isPartial
               (negb isPartial))).
Proof.
  unfold handleDecryptedBytes, parseMp4AndNotify, transmuxAndNotify, hasMap.
  destruct seg as [uri id key [m |] cur st b eb bx eo ti]; cbn.
  - split; [reflexivity |].
    destruct (Mp4Result.bytes _) as [[| x data] |]; cbn;
      repeat constructor.
  - split; [reflexivity |]. repeat constructor.
Qed.

Lemma responseHandler_map x (seg : Seg) error request e seg' :
  responseHandler stringToArrayBuffer x seg error request = Forward e seg' ->
  hasMap seg' = hasMap seg.
Proof.
  unfold hasMap.
  destruct x; cbn [responseHandler].
  - unfold handleKeyResponse.
    destruct (handleErrors error request); [now intros [= _ <-] |].
    destruct (negb (byteLength (Request.response request) =? 16));
      [now intros [= _ <-] |].
    destruct (getUint32 (Request.response request) 0); [| discriminate].
    destruct (getUint32 (Request.response request) 4); [| discriminate].
    destruct (getUint32 (Request.response request) 8); [| discriminate].
    destruct (getUint32 (Request.response request) 12); [| discriminate].
    destruct (Segment.key seg); [| discriminate].
    now intros [= _ <-].
  - unfold handleInitSegmentResponse.
    destruct (handleErrors error request); [now intros [= _ <-] |].
    destruct (byteLength (Request.response request) =? 0);
      [now intros [= _ <-] |].
    destruct (Segment.map seg) eqn:Em; [| discriminate].
    intros [= _ <-]. cbn. reflexivity.
  - unfold handleSegmentResponse.
    destruct (handleErrors error request); [now intros [= _ <-] |].
    cbn [JsNum.strictEquals stringByteLength Segment.set_stats Segment.key].
    destruct (Segment.key seg); now intros [= _ <-].
Qed.

Lemma Forall_routed_aborts fmp4 xhrs : Forall (routed fmp4) (abortAll xhrs).
Proof. induction xhrs; repeat constructor; assumption. Qed.

Lemma decryptSegment_routed fmp4 (seg : Seg) :
  Forall (routed fmp4) (decryptSegment seg).
Proof.
  unfold decryptSegment.
  destruct (Segment.encryptedBytes seg), (Segment.key seg) as [k |];
    [destruct (Key.bytes k) | | |]; repeat constructor.
Qed.

Lemma finishProcessingFn_routed xhrs at_ t error (seg : Seg) :
  hasMap (snd (fst (finishProcessingFn inspectMp4 xhrs at_ t error seg)))
  = hasMap seg
  /\ Forall (routed (hasMap seg))
       (snd (finishProcessingFn inspectMp4 xhrs at_ t error seg)).
Proof.
  assert (Haborts : Forall (routed (hasMap seg))
                      (match error with
                       | Some _ => abortAll xhrs
                       | None => []
                       end)).
  { destruct error; [apply Forall_routed_aborts | constructor]. }
  unfold finishProcessingFn.
  destruct error as [e |].
  - destruct (S (count t) =? List.length xhrs)%nat; cbn [fst snd].
    + destruct (0 <? List.length (errors t ++ [e]))%nat eqn:Elen.
      * destruct (getMostImportantError (errors t ++ [e])); cbn [fst snd];
          (split; [reflexivity |]);
          apply Forall_app; split; try exact Haborts; repeat constructor.
      * apply Nat.ltb_ge in Elen. rewrite length_app in Elen.
        cbn in Elen. lia.
    + split; [reflexivity | exact Haborts].
  - destruct (S (count t) =? List.length xhrs)%nat; cbn [fst snd].
    + destruct (0 <? List.length (errors t))%nat.
      * destruct (getMostImportantError (errors t)); cbn [fst snd];
          (split; [reflexivity |]); repeat constructor.
      * cbn [Segment.encryptedBytes Segment.set_endOfAllRequests].
        destruct (Segment.encryptedBytes seg).
        -- cbn [fst snd]. split; [reflexivity |].
           apply decryptSegment_routed.
        -- unfold dispatchFinal.
           cbn [Segment.bytes Segment.set_endOfAllRequests].
           destruct (Segment.bytes seg) as [bytes |].
           ++ pose proof (handleDecryptedBytes_routed
                            (Segment.set_endOfAllRequests seg at_) bytes
                            false) as [Hm Hr].
              cbn [negb] in Hm, Hr.
              destruct (handleDecryptedBytes inspectMp4
                          (Segment.set_endOfAllRequests seg at_) bytes
                          false true) as [[n s] effs].
              cbn [fst snd] in *. split; assumption.
           ++ cbn [fst snd]. split; [reflexivity | repeat constructor].
    + split; [reflexivity | constructor].
Qed.

Lemma step_routed (p : @Pipeline Boxes TrackInfo) ev :
  hasMap (segment (fst (step stringToArrayBuffer inspectMp4 p ev)))
  = hasMap (segment p)
  /\ Forall (routed (hasMap (segment p)))
       (snd (step stringToArrayBuffer inspectMp4 p ev)).
Proof.
  destruct ev as [x error request at_ | call | data]; cbn [step].
  - destruct (responseHandler stringToArrayBuffer x (segment p) error
                request) as [e seg1 |] eqn:Eh.
    + pose proof (responseHandler_map _ _ _ _ _ _ Eh) as Hm1.
      pose proof (finishProcessingFn_routed (activeXhrs p) at_ (tracker p)
                    e seg1) as [Hm Hr].
      destruct (finishProcessingFn inspectMp4 (activeXhrs p) at_ (tracker p)
                  e seg1) as [[t' seg'] effs].
      cbn [fst snd segment] in *. rewrite <- Hm1. split; assumption.
    + cbn [fst snd]. split; [reflexivity | repeat constructor].
  - unfold handleProgress.
    destruct (progressParses (segment p)).
    + pose proof (handleDecryptedBytes_routed (segment p)
                    (Uint8Array.ofBuffer
                       (newBytesOf stringToArrayBuffer (segment p)
                          (ProgressEvent.target (event call)))) true)
        as [Hm Hr].
      cbn [negb] in Hm, Hr.
      destruct (handleDecryptedBytes inspectMp4 (segment p) _ true false)
        as [[n s] effs].
      cbn [fst snd segment] in *. split; [exact Hm |].
      apply Forall_app. split; [exact Hr | repeat constructor].
    + cbn [fst snd segment]. split; [reflexivity | repeat constructor].
  - unfold onWorkerMessage, decryptionHandler.
    destruct (Decrypter.registered (decrypter p)
                (Segment.requestId (segment p)));
      [| cbn; split; [reflexivity | constructor]].
    destruct (String.eqb (WorkerReply.source data)
                (Segment.requestId (segment p)));
      [| cbn; split; [reflexivity | constructor]].
    destruct (_ <=? _)%nat;
      [| cbn; split; [reflexivity | repeat constructor]].
    pose proof (handleDecryptedBytes_routed
                  (Segment.set_bytes (segment p) (decryptedView data))
                  (decryptedView data) false) as [Hm Hr].
    cbn [negb] in Hm, Hr.
    destruct (handleDecryptedBytes inspectMp4 _ _ false true)
      as [[n s] effs].
    cbn [fst snd segment] in *. split; [exact Hm |].
    constructor; [exact I | exact Hr].
Qed.

Lemma run_routed events :
  forall p : @Pipeline Boxes TrackInfo,
    hasMap (segment (fst (run stringToArrayBuffer inspectMp4 p events)))
    = hasMap (segment p)
    /\ Forall (routed (hasMap (segment p)))
         (snd (run stringToArrayBuffer inspectMp4 p events)).
Proof.
  induction events as [| ev rest IH]; intros p.
  - cbn. split; [reflexivity | constructor].
  - cbn [run].
    pose proof (step_routed p ev) as [Hm Hr].
    destruct (step stringToArrayBuffer inspectMp4 p ev) as [p1 e1].
    cbn [fst snd] in *.
    destruct (IH p1) as [Hm' Hr'].
    destruct (run stringToArrayBuffer inspectMp4 p1 rest) as [p2 e2].
    cbn [fst snd] in *. rewrite Hm in Hm', Hr'.
    split; [exact Hm' |]. apply Forall_app. now split.
Qed.
End Routing.

(** X8.  The parsing collaborator is chosen by the presence of
    [segment.map] and never changes during an invocation: whatever
    responses, progress notifications and worker replies arrive, in
    whatever order, every call goes to the box parser if the descriptor
    had a [map] when the requests were issued, and to the transmuxer
    otherwise.  The transmuxer is given the caller's [doneFn] on final
    pushes only, so the completion of a partial push never reaches
    [doneFn]. *)
Theorem parser_routing_never_switches :
  forall (Boxes TrackInfo : Type)
         (stringToArrayBuffer : JsString -> list byte)
         (inspectMp4 : list byte -> bool -> option Boxes
                       -> Mp4Result.t Boxes)
         (segment0 : Segment.t Boxes TrackInfo) (d0 : Decrypter.t)
         (events : list Event),
    let effects :=
      snd (run stringToArrayBuffer inspectMp4 (start d0 segment0) events) in
    Forall (routed (hasMap segment0)) effects
    /\ Forall (fun e =>
                 match e with
                 | InspectMp4 _ _ => Segment.map segment0 <> None
                 | Transmux _ isPartial hasDoneFn =>
                     Segment.map segment0 = None
                     /\ hasDoneFn = negb isPartial
                     /\ (isPartial = true ->
                         forall result,
                           transmux_onDone hasDoneFn result = [])
                 | _ => True
                 end) effects.
Proof.
  intros Boxes TrackInfo s2ab inspectMp4 segment0 d0 events effects.
  pose proof (run_routed s2ab inspectMp4 events (start d0 segment0))
    as [_ Hr].
  change (segment (start d0 segment0)) with segment0 in Hr.
  split; [exact Hr |].
  subst effects. eapply Forall_impl; [| exact Hr].
  intros e. unfold routed, hasMap.
  destruct e; try tauto.
  - destruct (Segment.map segment0); [discriminate | discriminate].
  - destruct (Segment.map segment0); intros [Hm Hd]; [discriminate |].
    split; [reflexivity |]. split; [exact Hd |].
    intros -> [a v]. subst hasDoneFn. cbn. now destruct a, v.
Qed.

(** ** One invocation, step by step *)

Section Steps.
Context {Boxes TrackInfo : Type}.
Variable stringToArrayBuffer : JsString -> list byte.
Variable inspectMp4 : list byte -> bool -> option Boxes -> Mp4Result.t Boxes.

Let Seg : Type := Segment.t Boxes TrackInfo.

(** What a response callback does to the invocation once its handler has
    forwarded [e] and [seg1]. *)
Lemma step_response_eq (p : @Pipeline Boxes TrackInfo) x error request at_
    e (seg1 : Seg) :
  responseHandler stringToArrayBuffer x (segment p) error request
  = Forward e seg1 ->
  let errs := errors (tracker p)
              ++ match e with Some e' => [e'] | None => [] end in
  let aborts := match e with
                | Some _ => abortAll (activeXhrs p)
                | None => []
                end in
  let after (seg : Seg) (effects : list Effect) :=
    ({| segment := seg;
        activeXhrs := activeXhrs p;
        tracker := {| errors := errs; count := S (count (tracker p)) |};
        decrypter := Decrypter.run (decrypter p) effects |},
     effects) in
  step stringToArrayBuffer inspectMp4 p (Response x error request at_)
  = if (S (count (tracker p)) =? List.length (activeXhrs p))%nat then
      let seg2 := Segment.set_endOfAllRequests seg1 at_ in
      match errs with
      | _ :: _ =>
          match getMostImportantError errs with
          | Some worst => after seg2 (aborts ++ [DoneFn (Some worst) None])
          | None => after seg2 (aborts ++ [Throw])
          end
      | [] =>
          match Segment.encryptedBytes seg1 with
          | Some _ => after seg2 (aborts ++ decryptSegment seg2)
          | None =>
              after (fst (dispatchFinal inspectMp4 seg2))
                (aborts ++ snd (dispatchFinal inspectMp4 seg2))
          end
      end
    else after seg1 aborts.
Proof.
  intros Hhandler errs aborts after.
  unfold step. rewrite Hhandler. unfold finishProcessingFn.
  destruct e as [e0 |]; subst after errs aborts; cbv zeta.
  - destruct (S (count (tracker p)) =? List.length (activeXhrs p))%nat;
      [| reflexivity].
    destruct (errors (tracker p) ++ [e0]) as [| e1 errs'] eqn:Eerrs.
    { now apply app_eq_nil in Eerrs. }
    cbn [List.length Nat.ltb Nat.leb].
    destruct (getMostImportantError (e1 :: errs')); reflexivity.
  - rewrite !app_nil_r.
    destruct (S (count (tracker p)) =? List.length (activeXhrs p))%nat;
      [| reflexivity].
    destruct (errors (tracker p)) as [| e1 errs'] eqn:Eerrs.
    + cbn [List.length Nat.ltb Nat.leb].
      cbn [Segment.encryptedBytes Segment.set_endOfAllRequests app].
      destruct (Segment.encryptedBytes seg1); [reflexivity |].
      destruct (dispatchFinal inspectMp4
                  (Segment.set_endOfAllRequests seg1 at_)); reflexivity.
    + cbn [List.length Nat.ltb Nat.leb].
      destruct (getMostImportantError (e1 :: errs')); reflexivity.
Qed.
End Steps.

Section ValidRuns.
Context {Boxes TrackInfo : Type}.
Variable stringToArrayBuffer : JsString -> list byte.
Variable inspectMp4 : list byte -> bool -> option Boxes -> Mp4Result.t Boxes.
Variable segment0 : Segment.t Boxes TrackInfo.

Let Seg : Type := Segment.t Boxes TrackInfo.
Let xhrs : list Xhr := mediaSegmentRequest segment0.

Lemma handler_details x (seg : Seg) error request e seg1 :
  responseHandler stringToArrayBuffer x seg error request = Forward e seg1 ->
  Segment.requestId seg1 = Segment.requestId seg
  /\ Segment.endOfAllRequests seg1 = Segment.endOfAllRequests seg
  /\ (Segment.key seg1 = None <-> Segment.key seg = None)
  /\ (x = SegmentXhr -> e = None -> Segment.key seg <> None ->
      Segment.encryptedBytes seg1 <> None)
  /\ (Segment.key seg = None ->
      Segment.encryptedBytes seg1 = Segment.encryptedBytes seg)
  /\ (x <> SegmentXhr ->
      Segment.encryptedBytes seg1 = Segment.encryptedBytes seg)
  /\ (x = KeyXhr -> e = None ->
      exists k kb, Segment.key seg1 = Some k /\ Key.bytes k = Some kb)
  /\ (x <> KeyXhr -> Segment.key seg1 = Segment.key seg).
Proof.
  destruct x; cbn [responseHandler].
  - unfold handleKeyResponse.
    destruct (handleErrors error request);
      [intros [= <- <-]; closes; discriminate |].
    destruct (negb (byteLength (Request.response request) =? 16));
      [intros [= <- <-]; closes; discriminate |].
    destruct (getUint32 (Request.response request) 0); [| discriminate].
    destruct (getUint32 (Request.response request) 4); [| discriminate].
    destruct (getUint32 (Request.response request) 8); [| discriminate].
    destruct (getUint32 (Request.response request) 12); [| discriminate].
    destruct (Segment.key seg) as [k |] eqn:Ek; [| discriminate].
    intros [= <- <-]. cbn. repeat split; intros; try congruence.
    eexists _, _. split; reflexivity.
  - unfold handleInitSegmentResponse.
    destruct (handleErrors error request);
      [intros [= <- <-]; closes; discriminate |].
    destruct (byteLength (Request.response request) =? 0);
      [intros [= <- <-]; closes; discriminate |].
    destruct (Segment.map seg); [| discriminate].
    intros [= <- <-]. cbn. repeat split; intros; congruence.
  - unfold handleSegmentResponse.
    destruct (handleErrors error request);
      [intros [= <- <-]; closes; discriminate |].
    cbn [JsNum.strictEquals stringByteLength Segment.set_stats Segment.key].
    destruct (Segment.key seg) eqn:Ek; intros [= <- <-]; cbn;
      repeat split; intros; congruence.
Qed.

Lemma key_issues_request :
  Segment.key segment0 <> None -> In KeyXhr xhrs.
Proof.
  unfold xhrs, mediaSegmentRequest, issuesKey.
  destruct (Segment.key segment0); [now left | congruence].
Qed.

Lemma last_completion seen x :
  NoDup (seen ++ [x]) ->
  incl (seen ++ [x]) xhrs ->
  S (List.length seen) = List.length xhrs ->
  Permutation (seen ++ [x]) xhrs.
Proof.
  intros Hnodup Hincl Hlen.
  apply NoDup_Permutation_bis; [exact Hnodup | | exact Hincl].
  rewrite length_app. cbn. lia.
Qed.

(** Induction over the events of an invocation in which every response
    callback belongs to an issued request and runs at most once. *)
Lemma run_valid_where (A : Event -> Prop)
    (J : list Xhr -> @Pipeline Boxes TrackInfo -> Prop)
    (Q : Effect -> Prop) :
  (forall seen p x error request at_,
      A (Response x error request at_) ->
      consistent segment0 seen p -> J seen p -> In x xhrs ->
      (List.length seen < List.length xhrs)%nat ->
      (S (List.length seen) = List.length xhrs ->
       Permutation (seen ++ [x]) xhrs) ->
      J (seen ++ [x])
        (fst (step stringToArrayBuffer inspectMp4 p
                (Response x error request at_)))
      /\ Forall Q
           (snd (step stringToArrayBuffer inspectMp4 p
                   (Response x error request at_)))) ->
  (forall seen p call,
      A (Progress call) ->
      consistent segment0 seen p -> J seen p ->
      J seen (fst (step stringToArrayBuffer inspectMp4 p (Progress call)))
      /\ Forall Q
           (snd (step stringToArrayBuffer inspectMp4 p (Progress call)))) ->
  forall events seen p,
    consistent segment0 seen p -> J seen p ->
    Forall (fun ev => isRequestEvent ev = true) events ->
    Forall A events ->
    NoDup (seen ++ responded events) ->
    incl (seen ++ responded events) xhrs ->
    consistent segment0 (seen ++ responded events)
      (fst (run stringToArrayBuffer inspectMp4 p events))
    /\ J (seen ++ responded events)
         (fst (run stringToArrayBuffer inspectMp4 p events))
    /\ Forall Q (snd (run stringToArrayBuffer inspectMp4 p events)).
Proof.
  intros Hresponse Hprogress.
  induction events as [| ev rest IH];
    intros seen p Hinv HJ Hreq HA Hnodup Hincl.
  - cbn [run responded flat_map fst snd]. rewrite app_nil_r.
    split; [exact Hinv | split; [exact HJ | constructor]].
  - inversion Hreq as [| ? ? Hev Hrest]; subst.
    inversion HA as [| ? ? HAev HArest]; subst.
    destruct ev as [x error request at_ | call | data];
      [| | discriminate].
    + cbn [responded flat_map app] in *. fold (responded rest) in *.
      assert (Hin : In x xhrs).
      { apply Hincl. apply in_or_app. right. now left. }
      assert (Hnodup' : NoDup ((seen ++ [x]) ++ responded rest))
        by now rewrite <- app_assoc.
      assert (Hincl' : incl ((seen ++ [x]) ++ responded rest) xhrs)
        by now rewrite <- app_assoc.
      assert (Hlast : S (List.length seen) = List.length xhrs ->
                      Permutation (seen ++ [x]) xhrs).
      { apply last_completion.
        - now apply NoDup_app_remove_r in Hnodup'.
        - intros y Hy. apply Hincl'. apply in_or_app. now left. }
      destruct (step_response stringToArrayBuffer inspectMp4 segment0
                  seen p x error request at_ Hinv Hin)
        as (p1 & e1 & added & Hstep & Hinv1 & _).
      { intros Heq.
        apply (Permutation_in SegmentXhr (Permutation_sym (Hlast Heq))).
        apply mediaSegmentRequest_segment. }
      assert (Hshort : (List.length seen < List.length xhrs)%nat).
      { assert (Hle : (List.length (seen ++ [x]) <= List.length xhrs)%nat).
        { apply NoDup_incl_length.
          - now apply NoDup_app_remove_r in Hnodup'.
          - intros y Hy. apply Hincl'. apply in_or_app. now left. }
        rewrite length_app in Hle. cbn in Hle. lia. }
      destruct (Hresponse seen p x error request at_ HAev Hinv HJ Hin Hshort
                  Hlast)
        as [HJ1 HQ1].
      rewrite Hstep in HJ1, HQ1. cbn [fst snd] in HJ1, HQ1.
      destruct (IH (seen ++ [x]) p1 Hinv1 HJ1 Hrest HArest Hnodup' Hincl')
        as (Hinv2 & HJ2 & HQ2).
      cbn [run]. rewrite Hstep.
      destruct (run stringToArrayBuffer inspectMp4 p1 rest) as [p2 e2].
      cbn [fst snd] in *. rewrite <- app_assoc in Hinv2, HJ2.
      split; [exact Hinv2 | split; [exact HJ2 |]].
      apply Forall_app. now split.
    + cbn [responded flat_map app] in *. fold (responded rest) in *.
      destruct (step_progress stringToArrayBuffer inspectMp4 segment0
                  seen p call Hinv)
        as (p1 & e1 & Hstep & Hinv1 & _).
      destruct (Hprogress seen p call HAev Hinv HJ) as [HJ1 HQ1].
      rewrite Hstep in HJ1, HQ1. cbn [fst snd] in HJ1, HQ1.
      destruct (IH seen p1 Hinv1 HJ1 Hrest HArest Hnodup Hincl)
        as (Hinv2 & HJ2 & HQ2).
      cbn [run]. rewrite Hstep.
      destruct (run stringToArrayBuffer inspectMp4 p1 rest) as [p2 e2].
      cbn [fst snd] in *.
      split; [exact Hinv2 | split; [exact HJ2 |]].
      apply Forall_app. now split.
Qed.
Lemma run_valid (J : list Xhr -> @Pipeline Boxes TrackInfo -> Prop)
    (Q : Effect -> Prop) :
  (forall seen p x error request at_,
      consistent segment0 seen p -> J seen p -> In x xhrs ->
      (S (List.length seen) = List.length xhrs ->
       Permutation (seen ++ [x]) xhrs) ->
      J (seen ++ [x])
        (fst (step stringToArrayBuffer inspectMp4 p
                (Response x error request at_)))
      /\ Forall Q
           (snd (step stringToArrayBuffer inspectMp4 p
                   (Response x error request at_)))) ->
  (forall seen p call,
      consistent segment0 seen p -> J seen p ->
      J seen (fst (step stringToArrayBuffer inspectMp4 p (Progress call)))
      /\ Forall Q
           (snd (step stringToArrayBuffer inspectMp4 p (Progress call)))) ->
  forall events seen p,
    consistent segment0 seen p -> J seen p ->
    Forall (fun ev => isRequestEvent ev = true) events ->
    NoDup (seen ++ responded events) ->
    incl (seen ++ responded events) xhrs ->
    consistent segment0 (seen ++ responded events)
      (fst (run stringToArrayBuffer inspectMp4 p events))
    /\ J (seen ++ responded events)
         (fst (run stringToArrayBuffer inspectMp4 p events))
    /\ Forall Q (snd (run stringToArrayBuffer inspectMp4 p events)).
Proof.
  intros Hresponse Hprogress events seen p Hinv HJ Hreq.
  apply (run_valid_where (fun _ => True) J Q); try assumption.
  - intros. now apply Hresponse.
  - intros. now apply Hprogress.
  - apply Forall_forall. trivial.
Qed.

(** What one response callback does, by the four ways the tracker can
    continue: wait, report the worst error, decrypt, or dispatch. *)
Lemma response_cases seen (p : @Pipeline Boxes TrackInfo) x error request at_
    (P : @Pipeline Boxes TrackInfo -> list Effect -> Prop) :
  consistent segment0 seen p ->
  In x xhrs ->
  (forall e (seg1 seg' : Seg) effects,
      responseHandler stringToArrayBuffer x (segment p) error request
      = Forward e seg1 ->
      let errs := errors (tracker p)
                  ++ match e with Some e' => [e'] | None => [] end in
      let aborts := match e with
                    | Some _ => abortAll xhrs
                    | None => []
                    end in
      let seg2 := Segment.set_endOfAllRequests seg1 at_ in
      (S (List.length seen) <> List.length xhrs
       /\ seg' = seg1 /\ effects = aborts)
      \/ (S (List.length seen) = List.length xhrs
          /\ exists worst,
              errs <> []
              /\ getMostImportantError errs = Some worst
              /\ seg' = seg2
              /\ effects = aborts ++ [DoneFn (Some worst) None])
      \/ (S (List.length seen) = List.length xhrs
          /\ e = None /\ errors (tracker p) = []
          /\ Segment.encryptedBytes seg1 <> None
          /\ seg' = seg2
          /\ effects = decryptSegment seg2)
      \/ (S (List.length seen) = List.length xhrs
          /\ e = None /\ errors (tracker p) = []
          /\ Segment.encryptedBytes seg1 = None
          /\ seg' = fst (dispatchFinal inspectMp4 seg2)
          /\ effects = snd (dispatchFinal inspectMp4 seg2)) ->
      P {| segment := seg';
           activeXhrs := xhrs;
           tracker := {| errors := errs; count := S (List.length seen) |};
           decrypter := Decrypter.run (decrypter p) effects |}
        effects) ->
  P (fst (step stringToArrayBuffer inspectMp4 p
            (Response x error request at_)))
    (snd (step stringToArrayBuffer inspectMp4 p
            (Response x error request at_))).
Proof.
  intros (Hx & Hcount & Hk0 & Hm0 & _) Hin HP.
  destruct (handler_forwards stringToArrayBuffer x (segment p) error request)
    as (e & seg1 & Hh & _).
  { intros ->. apply Hk0. now apply mediaSegmentRequest_key. }
  { intros ->. apply Hm0. now apply mediaSegmentRequest_map. }
  rewrite (step_response_eq stringToArrayBuffer inspectMp4 p x error request
             at_ e seg1 Hh).
  cbv zeta. rewrite Hx, Hcount. fold xhrs.
  destruct (S (List.length seen) =? List.length xhrs)%nat eqn:Elast.
  - apply Nat.eqb_eq in Elast.
    destruct (errors (tracker p)
              ++ match e with Some e' => [e'] | None => [] end)
      as [| e1 errs'] eqn:Eerrs.
    + apply app_eq_nil in Eerrs. destruct Eerrs as [Et Ee].
      assert (He : e = None) by (destruct e; [discriminate | reflexivity]).
      subst e.
      destruct (Segment.encryptedBytes seg1) eqn:Eenc; cbn [fst snd app].
      * specialize (HP None seg1 (Segment.set_endOfAllRequests seg1 at_)
                      (decryptSegment (Segment.set_endOfAllRequests seg1 at_))
                      Hh).
        cbv zeta in HP. rewrite Et in HP. apply HP.
        right. right. left. repeat split; congruence.
      * specialize (HP None seg1
                      (fst (dispatchFinal inspectMp4
                              (Segment.set_endOfAllRequests seg1 at_)))
                      (snd (dispatchFinal inspectMp4
                              (Segment.set_endOfAllRequests seg1 at_)))
                      Hh).
        cbv zeta in HP. rewrite Et in HP. apply HP.
        right. right. right. repeat split; congruence.
    + destruct (getMostImportantError_spec (e1 :: errs')) as (worst & Hw & _);
        [discriminate |].
      rewrite Hw. cbn [fst snd].
      specialize (HP e seg1 (Segment.set_endOfAllRequests seg1 at_)
                    (match e with Some _ => abortAll xhrs | None => [] end
                     ++ [DoneFn (Some worst) None]) Hh).
      cbv zeta in HP. rewrite Eerrs in HP. apply HP.
      right. left. split; [exact Elast |].
      exists worst. repeat split; [discriminate | exact Hw].
  - apply Nat.eqb_neq in Elast. cbn [fst snd].
    apply (HP e seg1 seg1 _ Hh). left. repeat split. exact Elast.
Qed.

Lemma Forall_abortAll (Q : Effect -> Prop) l :
  (forall x, Q (XhrAbort x)) -> Forall Q (abortAll l).
Proof.
  intros HQ. unfold abortAll. apply Forall_forall.
  intros e He. apply in_map_iff in He. destruct He as (x & <- & _). apply HQ.
Qed.

Lemma Forall_aborts (Q : Effect -> Prop) (e : option ErrorRecord.t) l :
  (forall x, Q (XhrAbort x)) ->
  Forall Q (match e with Some _ => abortAll l | None => [] end).
Proof.
  intros HQ. destruct e; [now apply Forall_abortAll | constructor].
Qed.
End ValidRuns.

Section Encrypted.
Context {Boxes TrackInfo : Type}.
Variable stringToArrayBuffer : JsString -> list byte.
Variable inspectMp4 : list byte -> bool -> option Boxes -> Mp4Result.t Boxes.
Variable segment0 : Segment.t Boxes TrackInfo.

Let xhrs : list Xhr := mediaSegmentRequest segment0.

(** While the key is on the descriptor, a completed media request leaves
    its body in [encryptedBytes]. *)
Let keyed (seen : list Xhr) (p : @Pipeline Boxes TrackInfo) : Prop :=
  Segment.key (segment p) <> None
  /\ (In SegmentXhr seen -> errors (tracker p) = [] ->
      Segment.encryptedBytes (segment p) <> None).

Lemma keyed_response seen (p : @Pipeline Boxes TrackInfo) x error request at_ :
  consistent segment0 seen p -> keyed seen p -> In x xhrs ->
  (S (List.length seen) = List.length xhrs ->
   Permutation (seen ++ [x]) xhrs) ->
  keyed (seen ++ [x])
    (fst (step stringToArrayBuffer inspectMp4 p
            (Response x error request at_)))
  /\ Forall (fun e => isDispatch e = false)
       (snd (step stringToArrayBuffer inspectMp4 p
               (Response x error request at_))).
Proof.
  intros Hinv [Hkey Henc] Hin Hlast.
  apply (response_cases stringToArrayBuffer inspectMp4 segment0 seen p x
           error request at_
           (fun p' effects =>
              keyed (seen ++ [x]) p'
              /\ Forall (fun e => isDispatch e = false) effects) Hinv Hin).
  intros e seg1 seg' effects Hh errs aborts seg2 Hcases.
  destruct (handler_details stringToArrayBuffer x (segment p) error request
              e seg1 Hh)
    as (_ & _ & Hkey1 & Hsegment & _ & Hother & _).
  assert (Hk1 : Segment.key seg1 <> None) by tauto.
  assert (Henc1 : In SegmentXhr (seen ++ [x]) -> errs = [] ->
                  Segment.encryptedBytes seg1 <> None).
  { intros Hseen Herrs. apply app_eq_nil in Herrs. destruct Herrs as [Ht He].
    destruct (Xhr_eq_dec x SegmentXhr) as [-> | Hne].
    - apply Hsegment; [reflexivity | | exact Hkey].
      destruct e; [discriminate | reflexivity].
    - rewrite (Hother Hne). apply Henc; [| exact Ht].
      apply in_app_or in Hseen. destruct Hseen as [Hs | [-> | []]];
        [exact Hs | congruence]. }
  assert (Haborts : Forall (fun e0 => isDispatch e0 = false) aborts)
    by (apply Forall_aborts; reflexivity).
  unfold keyed. cbn [segment tracker errors].
  destruct Hcases
    as [(_ & -> & ->)
       | [(_ & worst & _ & _ & -> & ->)
         | [(_ & -> & Ht & _ & -> & ->)
           | (Hfull & -> & Ht & Hnone & _ & _)]]].
  - split; [split |]; assumption.
  - split; [split; assumption |].
    apply Forall_app. split; [exact Haborts | now repeat constructor].
  - split; [split; assumption |].
    unfold decryptSegment.
    destruct (Segment.encryptedBytes seg2), (Segment.key seg2) as [k |];
      [destruct (Key.bytes k) | | |]; now repeat constructor.
  - exfalso. apply Henc1; [| subst errs; now rewrite Ht | exact Hnone].
    apply (Permutation_in SegmentXhr (Permutation_sym (Hlast Hfull))).
    apply mediaSegmentRequest_segment.
Qed.

Lemma keyed_progress seen (p : @Pipeline Boxes TrackInfo) call :
  consistent segment0 seen p -> keyed seen p ->
  keyed seen (fst (step stringToArrayBuffer inspectMp4 p (Progress call)))
  /\ Forall (fun e => isDispatch e = false)
       (snd (step stringToArrayBuffer inspectMp4 p (Progress call))).
Proof.
  intros _ [Hkey Henc].
  destruct (handleProgress_defers_parsing stringToArrayBuffer inspectMp4
              (segment p) (event call) (now call) (firstByteNow call)
              (or_introl Hkey))
    as (Heffects & _ & _ & _ & Hk & _ & _ & He & _).
  cbn [step].
  destruct (handleProgress stringToArrayBuffer inspectMp4 (segment p)
              (event call) (now call) (firstByteNow call)) as [seg' effects].
  cbn [fst snd] in *. unfold keyed. cbn [segment tracker].
  rewrite Hk, He, Heffects.
  split; [split; assumption | now repeat constructor].
Qed.

Lemma keyed_run d0 events :
  Segment.key segment0 <> None ->
  Forall (fun ev => isRequestEvent ev = true) events ->
  NoDup (responded events) ->
  incl (responded events) xhrs ->
  Forall (fun e => isDispatch e = false)
    (snd (run stringToArrayBuffer inspectMp4 (start d0 segment0) events)).
Proof.
  intros Hkey Hreq Hnodup Hincl.
  apply (run_valid stringToArrayBuffer inspectMp4 segment0 keyed
           (fun e => isDispatch e = false) keyed_response keyed_progress
           events [] (start d0 segment0)); try assumption.
  - apply start_consistent.
  - split; [exact Hkey | intros []].
Qed.
End Encrypted.

(** X9.  A segment carrying a key is never handed to a parsing collaborator
    by the requests' own callbacks: whatever the order of progress events
    and response callbacks (each request answering at most once), neither
    the mp4 inspector nor the transmuxer is called before the decrypter's
    reply. *)
Theorem encrypted_segment_parsed_only_after_decryption
    {Boxes TrackInfo : Type}
    (stringToArrayBuffer : JsString -> list byte)
    (inspectMp4 : list byte -> bool -> option Boxes -> Mp4Result.t Boxes)
    (segment0 : Segment.t Boxes TrackInfo) (d0 : Decrypter.t)
    (events : list Event) :
  Segment.key segment0 <> None ->
  Forall (fun ev => isRequestEvent ev = true) events ->
  NoDup (responded events) ->
  incl (responded events) (mediaSegmentRequest segment0) ->
  countEffects isDispatch
    (snd (run stringToArrayBuffer inspectMp4 (start d0 segment0) events))
  = 0%nat.
Proof.
  intros Hkey Hreq Hnodup Hincl.
  pose proof (keyed_run stringToArrayBuffer inspectMp4 segment0 d0 events
                Hkey Hreq Hnodup Hincl) as Hall.
  unfold countEffects.
  induction Hall as [| e l He _ IH]; [reflexivity |].
  cbn [filter]. now rewrite He.
Qed.

Lemma encrypted_segment_parsed_only_after_decryption_witness :
  countEffects isDispatch
    (snd (run SampleProgress.toBytes SampleWorker.noBoxes
            (start SampleRun.idle SampleRun.keyed) SampleRun.succeeding))
  = 0%nat.
Proof.
  apply encrypted_segment_parsed_only_after_decryption.
  - discriminate.
  - repeat constructor.
  - repeat constructor; cbn; intuition discriminate.
  - intros y Hy. cbn in *. tauto.
Defined.

Lemma dispatchFinal_segment
    {Boxes TrackInfo : Type}
    (inspectMp4 : list byte -> bool -> option Boxes -> Mp4Result.t Boxes)
    (segment : Segment.t Boxes TrackInfo) :
  let segment' := fst (dispatchFinal inspectMp4 segment) in
  Segment.key segment' = Segment.key segment
  /\ Segment.encryptedBytes segment' = Segment.encryptedBytes segment
  /\ Segment.bytes segment' = Segment.bytes segment
  /\ Segment.endOfAllRequests segment' = Segment.endOfAllRequests segment.
Proof.
  unfold dispatchFinal.
  destruct (Segment.bytes segment) as [b |] eqn:Eb; [| now cbn].
  pose proof (handleDecryptedBytes_segment inspectMp4 segment b false true)
    as (Hk & _ & _ & _ & Hb & He & _ & Hend).
  destruct (handleDecryptedBytes inspectMp4 segment b false true)
    as [[n seg'] effects].
  cbn [fst snd] in *. repeat split; congruence.
Qed.

Lemma dispatchFinal_effects
    {Boxes TrackInfo : Type}
    (inspectMp4 : list byte -> bool -> option Boxes -> Mp4Result.t Boxes)
    (segment : Segment.t Boxes TrackInfo) :
  Segment.bytes segment <> None ->
  ~ In Throw (snd (dispatchFinal inspectMp4 segment)).
Proof.
  unfold dispatchFinal.
  destruct (Segment.bytes segment) as [b |]; [intros _ | congruence].
  pose proof (handleDecryptedBytes_effects inspectMp4 segment b false true)
    as (_ & _ & _ & _ & Hthrow & _).
  destruct (handleDecryptedBytes inspectMp4 segment b false true)
    as [[n seg'] effects].
  exact Hthrow.
Qed.

Lemma handleProgress_no_throw
    {Boxes TrackInfo : Type}
    (stringToArrayBuffer : JsString -> list byte)
    (inspectMp4 : list byte -> bool -> option Boxes -> Mp4Result.t Boxes)
    (segment : Segment.t Boxes TrackInfo) (ev : ProgressEvent.t)
    (at_ firstAt : Z) :
  ~ In Throw (snd (handleProgress stringToArrayBuffer inspectMp4 segment ev
                     at_ firstAt)).
Proof.
  unfold handleProgress.
  destruct (progressParses segment).
  - pose proof (handleDecryptedBytes_effects inspectMp4 segment
                  (Uint8Array.ofBuffer
                     (newBytesOf stringToArrayBuffer segment
                        (ProgressEvent.target ev))) true false)
      as (_ & _ & _ & _ & Hthrow & _).
    destruct (handleDecryptedBytes inspectMp4 segment
                (Uint8Array.ofBuffer
                   (newBytesOf stringToArrayBuffer segment
                      (ProgressEvent.target ev))) true false)
      as [[n seg'] effects].
    cbn [fst snd] in *. intros Hin. apply in_app_or in Hin.
    destruct Hin as [Hin | [Hin | []]]; [tauto | discriminate].
  - cbn. intros [Hin | []]. discriminate.
Qed.

Section NoThrow.
Context {Boxes TrackInfo : Type}.
Variable stringToArrayBuffer : JsString -> list byte.
Variable inspectMp4 : list byte -> bool -> option Boxes -> Mp4Result.t Boxes.
Variable segment0 : Segment.t Boxes TrackInfo.

Let xhrs : list Xhr := mediaSegmentRequest segment0.

(** Only a descriptor with a key gets encrypted bytes, and once the key
    request has succeeded the key words are on the descriptor. *)
Let ready (seen : list Xhr) (p : @Pipeline Boxes TrackInfo) : Prop :=
  (Segment.key segment0 = None ->
   Segment.key (segment p) = None
   /\ Segment.encryptedBytes (segment p) = None)
  /\ (In KeyXhr seen -> errors (tracker p) = [] ->
      exists k kb,
        Segment.key (segment p) = Some k /\ Key.bytes k = Some kb).

Lemma ready_response seen (p : @Pipeline Boxes TrackInfo) x error request at_ :
  consistent segment0 seen p -> ready seen p -> In x xhrs ->
  (S (List.length seen) = List.length xhrs ->
   Permutation (seen ++ [x]) xhrs) ->
  ready (seen ++ [x])
    (fst (step stringToArrayBuffer inspectMp4 p
            (Response x error request at_)))
  /\ Forall (fun e => e <> Throw)
       (snd (step stringToArrayBuffer inspectMp4 p
               (Response x error request at_))).
Proof.
  intros Hinv [Hplain Hwords] Hin Hlast.
  apply (response_cases stringToArrayBuffer inspectMp4 segment0 seen p x
           error request at_
           (fun p' effects =>
              ready (seen ++ [x]) p'
              /\ Forall (fun e => e <> Throw) effects) Hinv Hin).
  intros e seg1 seg' effects Hh errs aborts seg2 Hcases.
  destruct (handler_details stringToArrayBuffer x (segment p) error request
              e seg1 Hh)
    as (_ & _ & Hkey1 & _ & Hplain1 & _ & Hkeyed & Hother).
  destruct Hinv as (_ & _ & Hk0 & Hm0 & Hbytes).
  destruct (handler_forwards stringToArrayBuffer x (segment p) error request)
    as (e' & seg1' & Hh' & _ & _ & Hfilled & Hkept).
  { intros ->. apply Hk0. now apply mediaSegmentRequest_key. }
  { intros ->. apply Hm0. now apply mediaSegmentRequest_map. }
  rewrite Hh in Hh'. injection Hh' as <- <-.
  assert (Hplain' : Segment.key segment0 = None ->
                    Segment.key seg1 = None
                    /\ Segment.encryptedBytes seg1 = None).
  { intros H0. destruct (Hplain H0) as [Hk He].
    split; [tauto | now rewrite (Hplain1 Hk)]. }
  assert (Hwords' : In KeyXhr (seen ++ [x]) -> errs = [] ->
                    exists k kb,
                      Segment.key seg1 = Some k /\ Key.bytes k = Some kb).
  { intros Hseen Herrs. apply app_eq_nil in Herrs. destruct Herrs as [Ht He].
    destruct (Xhr_eq_dec x KeyXhr) as [-> | Hne].
    - apply Hkeyed; [reflexivity |].
      destruct e; [discriminate | reflexivity].
    - rewrite (Hother Hne). apply Hwords; [| exact Ht].
      apply in_app_or in Hseen. destruct Hseen as [Hs | [-> | []]];
        [exact Hs | congruence]. }
  assert (Haborts : Forall (fun e0 => e0 <> Throw) aborts)
    by (apply Forall_aborts; discriminate).
  unfold ready. cbn [segment tracker errors].
  destruct Hcases
    as [(_ & -> & ->)
       | [(_ & worst & _ & _ & -> & ->)
         | [(Hfull & -> & Ht & Hsome & -> & ->)
           | (Hfull & -> & Ht & Hnone & -> & ->)]]].
  - split; [split |]; assumption.
  - split; [split; assumption |].
    apply Forall_app. split; [exact Haborts |].
    repeat constructor. discriminate.
  - split; [split; assumption |].
    destruct (Segment.key segment0) as [k0 |] eqn:E0;
      [| now destruct (Hplain' eq_refl)].
    destruct Hwords' as (k & kb & Hk & Hkb).
    { apply (Permutation_in KeyXhr (Permutation_sym (Hlast Hfull))).
      unfold xhrs, mediaSegmentRequest, issuesKey. rewrite E0. now left. }
    { subst errs. now rewrite Ht. }
    unfold decryptSegment. subst seg2.
    cbn [Segment.encryptedBytes Segment.key Segment.set_endOfAllRequests
         Segment.requestId].
    rewrite Hk, Hkb.
    destruct (Segment.encryptedBytes seg1); [| congruence].
    repeat constructor; discriminate.
  - pose proof (dispatchFinal_segment inspectMp4 seg2) as (Hk & He & _ & _).
    cbv zeta in Hk, He. rewrite Hk, He. subst seg2.
    cbn [Segment.encryptedBytes Segment.key Segment.set_endOfAllRequests].
    split; [split; assumption |].
    apply Forall_forall. intros e0 He0 ->. revert He0.
    apply dispatchFinal_effects.
    cbn [Segment.bytes Segment.set_endOfAllRequests].
    enough (Hsome : exists bytes,
               Segment.bytes seg1 = Some (Uint8Array.ofBuffer bytes))
      by (destruct Hsome as (b & ->); discriminate).
    destruct (Xhr_eq_dec x SegmentXhr) as [-> | Hne].
    + now apply Hfilled.
    + destruct (Hkept Hne) as [-> Henc].
      apply Hbytes; [| exact Ht | congruence].
      assert (Hseen : In SegmentXhr (seen ++ [x])).
      { apply (Permutation_in SegmentXhr (Permutation_sym (Hlast Hfull))).
        apply mediaSegmentRequest_segment. }
      apply in_app_or in Hseen. destruct Hseen as [Hs | [-> | []]];
        [exact Hs | congruence].
Qed.

Lemma ready_progress seen (p : @Pipeline Boxes TrackInfo) call :
  consistent segment0 seen p -> ready seen p ->
  ready seen (fst (step stringToArrayBuffer inspectMp4 p (Progress call)))
  /\ Forall (fun e => e <> Throw)
       (snd (step stringToArrayBuffer inspectMp4 p (Progress call))).
Proof.
  intros _ [Hplain Hwords].
  pose proof (handleProgress_buffers stringToArrayBuffer inspectMp4
                (segment p) (event call) (now call) (firstByteNow call))
    as (Hk & _ & _ & He & _).
  pose proof (handleProgress_no_throw stringToArrayBuffer inspectMp4
                (segment p) (event call) (now call) (firstByteNow call))
    as Hthrow.
  cbn [step].
  destruct (handleProgress stringToArrayBuffer inspectMp4 (segment p)
              (event call) (now call) (firstByteNow call)) as [seg' effects].
  cbn [fst snd] in *. unfold ready. cbn [segment tracker].
  rewrite Hk, He.
  split; [split; assumption |].
  apply Forall_forall. intros e0 He0 ->. contradiction.
Qed.

Lemma ready_run d0 events :
  Segment.encryptedBytes segment0 = None ->
  Forall (fun ev => isRequestEvent ev = true) events ->
  NoDup (responded events) ->
  incl (responded events) xhrs ->
  Forall (fun e => e <> Throw)
    (snd (run stringToArrayBuffer inspectMp4 (start d0 segment0) events)).
Proof.
  intros Henc Hreq Hnodup Hincl.
  apply (run_valid stringToArrayBuffer inspectMp4 segment0 ready
           (fun e => e <> Throw) ready_response ready_progress
           events [] (start d0 segment0)); try assumption.
  - apply start_consistent.
  - split; [intros H0; split; assumption | intros []].
Qed.
End NoThrow.

(** X10.  The callbacks of the requests never raise, whatever the order of
    progress events and response callbacks (each request answering at
    most once), on a descriptor that starts without encrypted bytes: the
    key handler always finds the key record, the decrypter is called only
    with the key words in place, and the final dispatch always finds the
    bytes buffer. *)
Theorem request_callbacks_never_raise
    {Boxes TrackInfo : Type}
    (stringToArrayBuffer : JsString -> list byte)
    (inspectMp4 : list byte -> bool -> option Boxes -> Mp4Result.t Boxes)
    (segment0 : Segment.t Boxes TrackInfo) (d0 : Decrypter.t)
    (events : list Event) :
  Segment.encryptedBytes segment0 = None ->
  Forall (fun ev => isRequestEvent ev = true) events ->
  NoDup (responded events) ->
  incl (responded events) (mediaSegmentRequest segment0) ->
  ~ In Throw
      (snd (run stringToArrayBuffer inspectMp4 (start d0 segment0) events)).
Proof.
  intros Henc Hreq Hnodup Hincl Hin.
  pose proof (ready_run stringToArrayBuffer inspectMp4 segment0 d0 events
                Henc Hreq Hnodup Hincl) as Hall.
  rewrite Forall_forall in Hall. now apply (Hall Throw Hin).
Qed.

Lemma request_callbacks_never_raise_witness :
  ~ In Throw
      (snd (run SampleProgress.toBytes SampleWorker.noBoxes
              (start SampleRun.idle SampleRun.keyedFmp4) SampleRun.failing)).
Proof.
  apply request_callbacks_never_raise.
  - reflexivity.
  - repeat constructor.
  - repeat constructor; cbn; intuition discriminate.
  - intros y Hy. cbn in *. tauto.
Defined.

Section Completion.
Context {Boxes TrackInfo : Type}.
Variable stringToArrayBuffer : JsString -> list byte.
Variable inspectMp4 : list byte -> bool -> option Boxes -> Mp4Result.t Boxes.
Variable segment0 : Segment.t Boxes TrackInfo.

Let xhrs : list Xhr := mediaSegmentRequest segment0.

Let unstamped (seen : list Xhr) (p : @Pipeline Boxes TrackInfo) : Prop :=
  (List.length seen < List.length xhrs)%nat ->
  Segment.endOfAllRequests (segment p) = Segment.endOfAllRequests segment0.

Lemma unstamped_response seen (p : @Pipeline Boxes TrackInfo) x error request
    at_ :
  consistent segment0 seen p -> unstamped seen p -> In x xhrs ->
  (S (List.length seen) = List.length xhrs ->
   Permutation (seen ++ [x]) xhrs) ->
  unstamped (seen ++ [x])
    (fst (step stringToArrayBuffer inspectMp4 p
            (Response x error request at_)))
  /\ Forall (fun _ => True)
       (snd (step stringToArrayBuffer inspectMp4 p
               (Response x error request at_))).
Proof.
  intros Hinv Hkept Hin _.
  apply (response_cases stringToArrayBuffer inspectMp4 segment0 seen p x
           error request at_
           (fun p' effects =>
              unstamped (seen ++ [x]) p'
              /\ Forall (fun _ => True) effects) Hinv Hin).
  intros e seg1 seg' effects Hh errs aborts seg2 Hcases.
  split; [| apply Forall_forall; trivial].
  unfold unstamped. rewrite length_app. cbn [List.length segment].
  intros Hlt. unfold xhrs in *.
  destruct Hcases
    as [(_ & -> & _) | [(Hfull & _) | [(Hfull & _) | (Hfull & _)]]];
    try lia.
  destruct (handler_details stringToArrayBuffer x (segment p) error request
              e seg1 Hh) as (_ & -> & _).
  apply Hkept. lia.
Qed.

Lemma unstamped_progress seen (p : @Pipeline Boxes TrackInfo) call :
  consistent segment0 seen p -> unstamped seen p ->
  unstamped seen (fst (step stringToArrayBuffer inspectMp4 p (Progress call)))
  /\ Forall (fun _ => True)
       (snd (step stringToArrayBuffer inspectMp4 p (Progress call))).
Proof.
  intros _ Hkept.
  split; [| apply Forall_forall; trivial].
  pose proof (handleProgress_buffers stringToArrayBuffer inspectMp4
                (segment p) (event call) (now call) (firstByteNow call))
    as (_ & _ & _ & _ & _ & Hend).
  cbn [step].
  destruct (handleProgress stringToArrayBuffer inspectMp4 (segment p)
              (event call) (now call) (firstByteNow call)) as [seg' effects].
  cbn [fst snd] in *. unfold unstamped. cbn [segment]. now rewrite Hend.
Qed.

(** Progress events and worker replies leave the stamp alone. *)
Lemma step_keeps_stamp (p : @Pipeline Boxes TrackInfo) ev :
  responded [ev] = [] ->
  Segment.endOfAllRequests
    (segment (fst (step stringToArrayBuffer inspectMp4 p ev)))
  = Segment.endOfAllRequests (segment p).
Proof.
  destruct ev as [x error request at_ | call | data]; [discriminate | |];
    intros _; cbn [step].
  - pose proof (handleProgress_buffers stringToArrayBuffer inspectMp4
                  (segment p) (event call) (now call) (firstByteNow call))
      as (_ & _ & _ & _ & _ & Hend).
    destruct (handleProgress stringToArrayBuffer inspectMp4 (segment p)
                (event call) (now call) (firstByteNow call))
      as [seg' effects].
    exact Hend.
  - unfold onWorkerMessage.
    destruct (Decrypter.registered (decrypter p)
                (Segment.requestId (segment p))); [| reflexivity].
    unfold decryptionHandler.
    destruct (String.eqb (WorkerReply.source data)
                (Segment.requestId (segment p))); [| reflexivity].
    destruct (WorkerReply.byteOffset data + WorkerReply.byteLength data
              <=? List.length (WorkerReply.bytes data))%nat; [| reflexivity].
    match goal with
    | |- context [handleDecryptedBytes ?i ?s ?b ?x ?y] =>
        pose proof (handleDecryptedBytes_segment i s b x y)
          as (_ & _ & _ & _ & _ & _ & _ & Hend);
        destruct (handleDecryptedBytes i s b x y) as [[n seg'] effects]
    end.
    exact Hend.
Qed.

Lemma run_keeps_stamp events :
  forall p : @Pipeline Boxes TrackInfo,
    responded events = [] ->
    Segment.endOfAllRequests
      (segment (fst (run stringToArrayBuffer inspectMp4 p events)))
    = Segment.endOfAllRequests (segment p).
Proof.
  induction events as [| ev rest IH]; intros p Hnone; [reflexivity |].
  change (ev :: rest) with ([ev] ++ rest) in *.
  unfold responded in Hnone. rewrite flat_map_app in Hnone.
  apply app_eq_nil in Hnone. destruct Hnone as [Hev Hrest].
  rewrite run_app.
  cbn [fst]. rewrite (IH _ Hrest).
  cbn [run].
  destruct (step stringToArrayBuffer inspectMp4 p ev) as [p1 e1] eqn:E.
  cbn [fst].
  pose proof (step_keeps_stamp p ev Hev) as Hstep. now rewrite E in Hstep.
Qed.

Lemma stamp_before d0 events :
  Forall (fun ev => isRequestEvent ev = true) events ->
  NoDup (responded events) ->
  incl (responded events) xhrs ->
  (List.length (responded events) < List.length xhrs)%nat ->
  Segment.endOfAllRequests
    (segment (fst (run stringToArrayBuffer inspectMp4 (start d0 segment0)
                     events)))
  = Segment.endOfAllRequests segment0.
Proof.
  intros Hreq Hnodup Hincl Hlt.
  destruct (run_valid stringToArrayBuffer inspectMp4 segment0 unstamped
              (fun _ => True) unstamped_response unstamped_progress
              events [] (start d0 segment0)) as (_ & Hkept & _);
    try assumption.
  - apply start_consistent.
  - intros _. reflexivity.
  - apply Hkept. exact Hlt.
Qed.

Lemma stamp_at_last d0 before x error request at_ :
  Forall (fun ev => isRequestEvent ev = true) before ->
  Permutation (responded before ++ [x]) xhrs ->
  Segment.endOfAllRequests
    (segment (fst (step stringToArrayBuffer inspectMp4
                     (fst (run stringToArrayBuffer inspectMp4
                             (start d0 segment0) before))
                     (Response x error request at_))))
  = Some at_.
Proof.
  intros Hreq Hperm.
  assert (Hnodup : NoDup (responded before ++ [x])).
  { apply (Permutation_NoDup (Permutation_sym Hperm)).
    apply mediaSegmentRequest_NoDup. }
  assert (Hincl : incl (responded before ++ [x]) xhrs).
  { intros y Hy. now apply (Permutation_in y Hperm). }
  assert (Hlen : S (List.length (responded before)) = List.length xhrs).
  { rewrite <- (Permutation_length Hperm), length_app. cbn. lia. }
  destruct (run_valid stringToArrayBuffer inspectMp4 segment0
              (fun _ _ => True) (fun _ => True)) with
    (events := before) (seen := @nil Xhr) (p := start d0 segment0)
    as (Hinv & _).
  - intros. split; [exact I | apply Forall_forall; trivial].
  - intros. split; [exact I | apply Forall_forall; trivial].
  - apply start_consistent.
  - exact I.
  - exact Hreq.
  - now apply NoDup_app_remove_r in Hnodup.
  - intros y Hy. apply Hincl. apply in_or_app. now left.
  - cbn [app] in Hinv.
    apply (response_cases stringToArrayBuffer inspectMp4 segment0
             (responded before) _ x error request at_
             (fun p' _ => Segment.endOfAllRequests (segment p') = Some at_)
             Hinv).
    { apply Hincl. apply in_or_app. right. now left. }
    intros e seg1 seg' effects Hh errs aborts seg2 Hcases. cbn [segment].
    destruct Hcases
      as [(Hwait & _)
         | [(_ & worst & _ & _ & -> & _)
           | [(_ & _ & _ & _ & -> & _) | (_ & _ & _ & _ & -> & _)]]];
      [contradiction | reflexivity | reflexivity |].
    pose proof (dispatchFinal_segment inspectMp4 seg2) as (_ & _ & _ & Hend).
    exact Hend.
Qed.
End Completion.

(** X11.  [endOfAllRequests] is written by the last response callback and
    by nothing else: while a request is still outstanding the field keeps
    the value the descriptor came with, the callback that completes the
    last request stamps its own time, and no later progress event or
    worker reply changes it. *)
Theorem endOfAllRequests_is_time_of_last_completion
    {Boxes TrackInfo : Type}
    (stringToArrayBuffer : JsString -> list byte)
    (inspectMp4 : list byte -> bool -> option Boxes -> Mp4Result.t Boxes)
    (segment0 : Segment.t Boxes TrackInfo) (d0 : Decrypter.t)
    (before later : list Event) (x : Xhr) (error : option string)
    (request : Request.t) (at_ : Z) :
  Forall (fun ev => isRequestEvent ev = true) before ->
  Permutation (responded before ++ [x]) (mediaSegmentRequest segment0) ->
  responded later = [] ->
  (forall earlier rest,
      before = earlier ++ rest ->
      Segment.endOfAllRequests
        (segment (fst (run stringToArrayBuffer inspectMp4
                         (start d0 segment0) earlier)))
      = Segment.endOfAllRequests segment0)
  /\ Segment.endOfAllRequests
       (segment (fst (run stringToArrayBuffer inspectMp4 (start d0 segment0)
                        (before ++ Response x error request at_ :: later))))
     = Some at_.
Proof.
  intros Hreq Hperm Hlater.
  assert (Hnodup : NoDup (responded before ++ [x])).
  { apply (Permutation_NoDup (Permutation_sym Hperm)).
    apply mediaSegmentRequest_NoDup. }
  assert (Hlen : S (List.length (responded before))
                 = List.length (mediaSegmentRequest segment0)).
  { rewrite <- (Permutation_length Hperm), length_app. cbn. lia. }
  split.
  - intros earlier rest ->.
    apply Forall_app in Hreq. destruct Hreq as [Hreq _].
    unfold responded in Hnodup, Hperm, Hlen.
    rewrite flat_map_app in Hnodup, Hperm, Hlen.
    fold (responded earlier) in *. fold (responded rest) in *.
    apply stamp_before; [exact Hreq | | |].
    + apply NoDup_app_remove_r in Hnodup.
      now apply NoDup_app_remove_r in Hnodup.
    + intros y Hy. apply (Permutation_in y Hperm).
      apply in_or_app. left. apply in_or_app. now left.
    + rewrite length_app in Hlen. lia.
  - change (Response x error request at_ :: later)
      with ([Response x error request at_] ++ later).
    rewrite app_assoc, run_app. cbn [fst].
    rewrite (run_keeps_stamp stringToArrayBuffer inspectMp4 later _ Hlater).
    rewrite run_app. cbn [fst run].
    pose proof (stamp_at_last stringToArrayBuffer inspectMp4 segment0 d0
                  before x error request at_ Hreq Hperm) as Hstamp.
    destruct (step stringToArrayBuffer inspectMp4
                (fst (run stringToArrayBuffer inspectMp4 (start d0 segment0)
                        before))
                (Response x error request at_)) as [p1 e1].
    exact Hstamp.
Qed.

Lemma endOfAllRequests_is_time_of_last_completion_witness :
  Segment.endOfAllRequests
    (segment (fst (run SampleProgress.toBytes SampleWorker.noBoxes
                     (start SampleRun.idle SampleRun.keyed)
                     (firstn 2 SampleRun.succeeding))))
  = Segment.endOfAllRequests SampleRun.keyed
  /\ Segment.endOfAllRequests
       (segment (fst (run SampleProgress.toBytes SampleWorker.noBoxes
                        (start SampleRun.idle SampleRun.keyed)
                        (firstn 2 SampleRun.succeeding
                         ++ Response KeyXhr None SampleRun.keyResponse 1040
                              :: [Progress (SampleProgress.call 3 1050)]))))
     = Some 1040.
Proof.
  assert (Hreq : Forall (fun ev => isRequestEvent ev = true)
                   (firstn 2 SampleRun.succeeding))
    by (repeat constructor).
  assert (Hperm : Permutation
                    (responded (firstn 2 SampleRun.succeeding) ++ [KeyXhr])
                    (mediaSegmentRequest SampleRun.keyed))
    by apply perm_swap.
  destruct (endOfAllRequests_is_time_of_last_completion
              SampleProgress.toBytes SampleWorker.noBoxes SampleRun.keyed
              SampleRun.idle (firstn 2 SampleRun.succeeding)
              [Progress (SampleProgress.call 3 1050)] KeyXhr None
              SampleRun.keyResponse 1040 Hreq Hperm eq_refl)
    as [Hbefore Hlast].
  split.
  - exact (Hbefore (firstn 2 SampleRun.succeeding) []
             (eq_sym (app_nil_r _))).
  - exact Hlast.
Defined.

(** ** The box scanner of the other revision *)

Lemma getUint32_skip (prefix l : list byte) :
  getUint32 (prefix ++ l) (List.length prefix) = getUint32 l 0.
Proof.
  unfold getUint32.
  rewrite skipn_app, skipn_all, Nat.sub_diag. reflexivity.
Qed.

Lemma getUint32_front (box rest : list byte) :
  (4 <= List.length box)%nat ->
  getUint32 (box ++ rest) 0 = getUint32 box 0.
Proof.
  destruct box as [| b0 [| b1 [| b2 [| b3 box]]]]; cbn; try lia.
  reflexivity.
Qed.

Lemma getUint32_at (prefix box rest : list byte) :
  (4 <= List.length box)%nat ->
  getUint32 (prefix ++ box ++ rest) (Z.to_nat (byteLength prefix))
  = getUint32 box 0.
Proof.
  intros Hlen. unfold byteLength. rewrite Nat2Z.id, getUint32_skip.
  now apply getUint32_front.
Qed.

Lemma byteLength_app (a b : list byte) :
  byteLength (a ++ b) = byteLength a + byteLength b.
Proof. unfold byteLength. rewrite length_app. lia. Qed.

Lemma byteLength_nonneg (a : list byte) : 0 <= byteLength a.
Proof. unfold byteLength. lia. Qed.

(** One round of the loop per complete box. *)
Lemma completeBoxesLoop_skips reachesEndOfFile boxes :
  Forall completeBox boxes ->
  forall rounds prefix rest,
    Part000.completeBoxesLoop (List.length boxes + rounds)
      (prefix ++ List.concat boxes ++ rest) reachesEndOfFile
      (byteLength prefix) (byteLength (List.concat boxes ++ rest))
    = Part000.completeBoxesLoop rounds
        ((prefix ++ List.concat boxes) ++ rest) reachesEndOfFile
        (byteLength (prefix ++ List.concat boxes)) (byteLength rest).
Proof.
  induction 1 as [| box boxes [Hlen Hsize] _ IH]; intros rounds prefix rest.
  - cbn [List.concat app List.length Nat.add]. now rewrite app_nil_r.
  - cbn [List.concat List.length Nat.add Part000.completeBoxesLoop].
    rewrite <- !app_assoc.
    assert (Hbox : 8 <= byteLength box) by (unfold byteLength; lia).
    pose proof (byteLength_nonneg (List.concat boxes ++ rest)) as Hrest.
    rewrite (byteLength_app box).
    destruct (byteLength box + byteLength (List.concat boxes ++ rest) >=? 8)
      eqn:E8; [| lia].
    rewrite getUint32_at by lia. rewrite Hsize.
    destruct (byteLength box =? 0) eqn:E0; [lia |]. cbn [andb].
    destruct (byteLength box + byteLength (List.concat boxes ++ rest)
              <? byteLength box) eqn:Elt; [lia |].
    replace (byteLength box + byteLength (List.concat boxes ++ rest)
             - byteLength box)
      with (byteLength (List.concat boxes ++ rest)) by lia.
    rewrite <- byteLength_app.
    specialize (IH rounds (prefix ++ box) rest).
    rewrite <- !app_assoc in IH. exact IH.
Qed.

Lemma completeBoxesLoop_truncated reachesEndOfFile rounds prefix rest :
  truncatedBox rest ->
  Part000.completeBoxesLoop rounds (prefix ++ rest) reachesEndOfFile
    (byteLength prefix) (byteLength rest)
  = byteLength prefix.
Proof.
  intros Hrest. destruct rounds as [| rounds]; [reflexivity |].
  cbn [Part000.completeBoxesLoop].
  destruct (byteLength rest >=? 8) eqn:E8; [| reflexivity].
  destruct Hrest as [Hshort | (size & Hsize & Hlt)];
    [unfold byteLength in E8; lia |].
  pose proof (getUint32_at prefix rest []) as Hat.
  rewrite app_nil_r in Hat. rewrite Hat by (unfold byteLength in E8; lia).
  rewrite Hsize.
  destruct (size =? 0) eqn:E0; [lia |]. cbn [andb].
  destruct (byteLength rest <? size) eqn:Elt; [reflexivity | lia].
Qed.

Lemma completeBoxesLoop_openEnded reachesEndOfFile rounds prefix last :
  openEndedBox last ->
  Part000.completeBoxesLoop (S rounds) (prefix ++ last) reachesEndOfFile
    (byteLength prefix) (byteLength last)
  = if reachesEndOfFile then byteLength (prefix ++ last)
    else byteLength prefix.
Proof.
  intros [Hlen Hsize].
  cbn [Part000.completeBoxesLoop].
  assert (Hbox : 8 <= byteLength last) by (unfold byteLength; lia).
  destruct (byteLength last >=? 8) eqn:E8; [| lia].
  pose proof (getUint32_at prefix last []) as Hat.
  rewrite app_nil_r in Hat. rewrite Hat by lia.
  rewrite Hsize. cbn [Z.eqb andb].
  destruct reachesEndOfFile; cbn [negb]; [| reflexivity].
  rewrite Z.ltb_irrefl, Z.sub_diag, byteLength_app.
  destruct rounds; reflexivity.
Qed.

Lemma completeBoxes_count boxes :
  Forall completeBox boxes ->
  (List.length boxes <= List.length (List.concat boxes))%nat.
Proof.
  induction 1 as [| box boxes [Hlen _] _ IH]; [constructor |].
  cbn [List.concat List.length]. rewrite length_app. lia.
Qed.

Lemma getUint32_firstn (n k : nat) (l : list byte) :
  (k + 4 <= n)%nat -> getUint32 (firstn n l) k = getUint32 l k.
Proof.
  intros H. unfold getUint32. rewrite skipn_firstn_comm.
  replace (n - k)%nat with (4 + (n - k - 4))%nat by lia.
  destruct (skipn k l) as [| b0 [| b1 [| b2 [| b3 r]]]]; reflexivity.
Qed.

(** The loop reads no byte of the view at or after
    [completeBoxesOffset + remainingBytes]. *)
Lemma completeBoxesLoop_firstn (n : nat) reachesEndOfFile rounds :
  forall view offset remaining,
    0 <= offset -> 0 <= remaining ->
    offset + remaining <= Z.of_nat n ->
    Part000.completeBoxesLoop rounds (firstn n view) reachesEndOfFile
      offset remaining
    = Part000.completeBoxesLoop rounds view reachesEndOfFile offset
        remaining.
Proof.
  induction rounds as [| rounds IH]; intros view offset remaining Ho Hr Hn;
    cbn [Part000.completeBoxesLoop]; [reflexivity |].
  destruct (remaining >=? 8) eqn:E8; [| reflexivity].
  rewrite getUint32_firstn by lia.
  destruct (getUint32 view (Z.to_nat offset)) as [size |] eqn:Esize;
    [| reflexivity].
  destruct ((size =? 0) && negb reachesEndOfFile); [reflexivity |].
  apply getUint32_range in Esize.
  destruct (remaining <? (if size =? 0 then remaining else size)) eqn:Elt;
    [reflexivity |].
  apply IH; destruct (size =? 0); lia.
Qed.

Lemma bytes_within_buffer (a : Uint8Array.t) :
  (List.length (Uint8Array.bytes a) <= List.length (Uint8Array.buffer a))%nat.
Proof.
  unfold Uint8Array.bytes, subarrayView.
  rewrite length_firstn, length_skipn. lia.
Qed.

Lemma scanned_length (a : Uint8Array.t) :
  List.length (scanned a) = List.length (Uint8Array.bytes a).
Proof.
  unfold scanned. rewrite length_firstn.
  pose proof (bytes_within_buffer a). lia.
Qed.

Lemma scanned_ofBuffer (buffer : list byte) :
  scanned (Uint8Array.ofBuffer buffer) = buffer.
Proof.
  unfold scanned. rewrite bytes_ofBuffer, buffer_ofBuffer.
  apply firstn_all.
Qed.

(** The scanner sees the first [bytes.byteLength] bytes of the buffer. *)
Lemma completeMp4BoxesOffset_scanned bytes reachesEndOfFile :
  Part000.completeMp4BoxesOffset bytes reachesEndOfFile
  = Part000.completeBoxesLoop (S (List.length (scanned bytes)))
      (scanned bytes) reachesEndOfFile 0 (byteLength (scanned bytes)).
Proof.
  unfold Part000.completeMp4BoxesOffset, Uint8Array.byteLength, byteLength.
  rewrite scanned_length. unfold scanned.
  now rewrite completeBoxesLoop_firstn by lia.
Qed.

Lemma completeMp4BoxesOffset_split bytes boxes rest reachesEndOfFile :
  scanned bytes = List.concat boxes ++ rest ->
  Forall completeBox boxes ->
  exists rounds,
    Part000.completeMp4BoxesOffset bytes reachesEndOfFile
    = Part000.completeBoxesLoop (S rounds) (List.concat boxes ++ rest)
        reachesEndOfFile (byteLength (List.concat boxes)) (byteLength rest).
Proof.
  intros Hscanned Hboxes.
  pose proof (completeBoxes_count boxes Hboxes) as Hcount.
  exists (List.length (List.concat boxes ++ rest) - List.length boxes)%nat.
  rewrite completeMp4BoxesOffset_scanned, Hscanned.
  replace (S (List.length (List.concat boxes ++ rest)))
    with (List.length boxes
          + S (List.length (List.concat boxes ++ rest) - List.length boxes))%nat
    by (rewrite length_app in *; lia).
  exact (completeBoxesLoop_skips reachesEndOfFile boxes Hboxes _ [] rest).
Qed.

(** X12.  [completeMp4BoxesOffset] reads the box sizes through
    [new DataView(bytes.buffer)], from the first byte of the buffer, and
    counts [bytes.byteLength] bytes: what it scans is the first
    [byteLength] bytes of the buffer behind the array, which are the bytes
    of the array when the array starts at the beginning of its buffer
    (as the arrays the progress and completion handlers build do).  When
    the scanned bytes are complete boxes followed by a truncated one
    (fewer than eight bytes, or fewer bytes than its size field
    announces), the result is the total length of the complete boxes,
    whatever the flag.  A box with size field 0 after the complete boxes
    is counted up to the end of the scanned bytes when the flag is set,
    and not at all when it is not. *)
Theorem completeMp4BoxesOffset_ends_at_last_complete_box
    (bytes : Uint8Array.t) (boxes : list (list byte)) (rest : list byte)
    (reachesEndOfFile : bool) :
  scanned bytes = List.concat boxes ++ rest ->
  Forall completeBox boxes ->
  (Uint8Array.byteOffset bytes = 0%nat ->
   Uint8Array.bytes bytes = List.concat boxes ++ rest)
  /\ (truncatedBox rest ->
      Part000.completeMp4BoxesOffset bytes reachesEndOfFile
      = byteLength (List.concat boxes))
  /\ (openEndedBox rest ->
      Part000.completeMp4BoxesOffset bytes reachesEndOfFile
      = if reachesEndOfFile then Uint8Array.byteLength bytes
        else byteLength (List.concat boxes)).
Proof.
  intros Hscanned Hboxes.
  assert (Hlength : Uint8Array.byteLength bytes
                    = byteLength (List.concat boxes ++ rest)).
  { unfold Uint8Array.byteLength, byteLength.
    now rewrite <- scanned_length, Hscanned. }
  split.
  { intros Hstart. rewrite <- Hscanned.
    unfold scanned, Uint8Array.bytes, subarrayView. rewrite Hstart.
    cbn [skipn]. rewrite length_firstn. now rewrite firstn_min_length. }
  destruct (completeMp4BoxesOffset_split bytes boxes rest reachesEndOfFile
              Hscanned Hboxes)
    as [rounds ->].
  split; intros Hrest.
  - now apply completeBoxesLoop_truncated.
  - rewrite Hlength. now apply completeBoxesLoop_openEnded.
Qed.

Lemma completeMp4BoxesOffset_ends_at_last_complete_box_witness :
  Part000.completeMp4BoxesOffset
    (Uint8Array.ofBuffer (SampleBoxes.free ++ SampleBoxes.cutMdat)) false
  = 8
  /\ Part000.completeMp4BoxesOffset
       (Uint8Array.ofBuffer (SampleBoxes.free ++ SampleBoxes.openMdat)) true
     = 17
  /\ Uint8Array.bytes SampleBoxes.decrypted = SampleBoxes.free
  /\ Part000.completeMp4BoxesOffset SampleBoxes.decrypted true = 0.
Proof.
  assert (Hboxes : Forall completeBox [SampleBoxes.free])
    by (repeat constructor).
  split; [| split; [| split; [reflexivity |]]].
  - apply (proj1 (proj2 (completeMp4BoxesOffset_ends_at_last_complete_box
                           (Uint8Array.ofBuffer
                              (SampleBoxes.free ++ SampleBoxes.cutMdat))
                           [SampleBoxes.free] SampleBoxes.cutMdat false
                           eq_refl Hboxes))).
    right. exists 16. split; [reflexivity | unfold byteLength; cbn; lia].
  - apply (proj2 (proj2 (completeMp4BoxesOffset_ends_at_last_complete_box
                           (Uint8Array.ofBuffer
                              (SampleBoxes.free ++ SampleBoxes.openMdat))
                           [SampleBoxes.free] SampleBoxes.openMdat true
                           eq_refl Hboxes))).
    split; [cbn; lia | reflexivity].
  - apply (proj1 (proj2 (completeMp4BoxesOffset_ends_at_last_complete_box
                           SampleBoxes.decrypted [] SampleBoxes.cutMdat true
                           eq_refl (Forall_nil _)))).
    right. exists 16. split; [reflexivity | unfold byteLength; cbn; lia].
Defined.

Section Part000Progress.
Context {Boxes TrackInfo : Type}.
Variable stringToArrayBuffer : JsString -> list byte.
Variable collectBoxes :
  option Boxes -> Uint8Array.t -> Z -> option Boxes * option (list byte).

(** A progress event of the other revision on a segment with an init
    segment and no key, by the offset the box scanner returns. *)
Lemma Part000_handleProgress_fmp4 (segment : Segment.t Boxes TrackInfo)
    (ev : ProgressEvent.t) (at_ firstAt cursor : Z) :
  Segment.key segment = None ->
  Segment.map segment <> None ->
  Segment.lastReachedChar segment = JsNum.Num cursor ->
  let bytes :=
    newBytesOf stringToArrayBuffer segment (ProgressEvent.target ev) in
  let offset :=
    Part000.completeMp4BoxesOffset (Uint8Array.ofBuffer bytes) true in
  let segment' :=
    fst (Part000.handleProgress stringToArrayBuffer collectBoxes segment ev
           at_ firstAt) in
  let effects :=
    snd (Part000.handleProgress stringToArrayBuffer collectBoxes segment ev
           at_ firstAt) in
  In (MuxInspect (firstn (Z.to_nat offset) bytes)) effects
  /\ (In Throw effects
      \/ Segment.lastReachedChar segment' = JsNum.Num (cursor + offset)).
Proof.
  intros Hkey Hmap Hcursor bytes offset.
  unfold Part000.handleProgress, Part000.handleDecryptedBytes,
    Part000.parseMp4AndNotify.
  rewrite Hkey.
  destruct (Segment.map segment) as [m |]; [| congruence].
  fold bytes. rewrite bytes_ofBuffer. fold offset.
  destruct (collectBoxes (Segment.boxes segment) (Uint8Array.ofBuffer bytes)
              offset)
    as [boxes [data |]]; cbn.
  - rewrite Hcursor. split; [now left | now right].
  - split; [now left | left; right; now left].
Qed.
End Part000Progress.

(** X13.  In the other revision, a progress event on a segment with an
    init segment and no key moves the cursor to the end of the last
    complete box of the bytes received since the previous event, and
    hands exactly those boxes to the inspector, so a box cut by the event
    is read again from its first byte by the next one.  As the scanner is
    called with [isPartial] in the place of [reachesEndOfFile], a box
    with size field 0 is taken to be complete as far as it has been
    received: the cursor then moves to the end of the received bytes. *)
Theorem Part000_progress_cursor_stops_at_last_complete_box
    {Boxes TrackInfo : Type}
    (stringToArrayBuffer : JsString -> list byte)
    (collectBoxes :
       option Boxes -> Uint8Array.t -> Z
       -> option Boxes * option (list byte))
    (segment : Segment.t Boxes TrackInfo) (ev : ProgressEvent.t)
    (at_ firstAt cursor : Z) (boxes : list (list byte)) (rest : list byte) :
  Segment.key segment = None ->
  Segment.map segment <> None ->
  Segment.lastReachedChar segment = JsNum.Num cursor ->
  newBytesOf stringToArrayBuffer segment (ProgressEvent.target ev)
  = List.concat boxes ++ rest ->
  Forall completeBox boxes ->
  let segment' :=
    fst (Part000.handleProgress stringToArrayBuffer collectBoxes segment ev
           at_ firstAt) in
  let effects :=
    snd (Part000.handleProgress stringToArrayBuffer collectBoxes segment ev
           at_ firstAt) in
  (truncatedBox rest ->
   In (MuxInspect (List.concat boxes)) effects
   /\ (In Throw effects
       \/ Segment.lastReachedChar segment'
          = JsNum.Num (cursor + byteLength (List.concat boxes))))
  /\ (openEndedBox rest ->
      In (MuxInspect (List.concat boxes ++ rest)) effects
      /\ (In Throw effects
          \/ Segment.lastReachedChar segment'
             = JsNum.Num (cursor + byteLength (List.concat boxes ++ rest)))).
Proof.
  intros Hkey Hmap Hcursor Hbytes Hboxes.
  pose proof (Part000_handleProgress_fmp4 stringToArrayBuffer collectBoxes
                segment ev at_ firstAt cursor Hkey Hmap Hcursor) as Hstep.
  cbv zeta in Hstep. rewrite Hbytes in Hstep.
  destruct (completeMp4BoxesOffset_split
              (Uint8Array.ofBuffer (List.concat boxes ++ rest)) boxes rest
              true (scanned_ofBuffer _) Hboxes)
    as [rounds Hsplit].
  rewrite Hsplit in Hstep.
  split; intros Hrest.
  - rewrite (completeBoxesLoop_truncated true (S rounds) (List.concat boxes)
               rest Hrest) in Hstep.
    unfold byteLength in Hstep at 1. rewrite Nat2Z.id in Hstep.
    rewrite firstn_app, firstn_all, Nat.sub_diag in Hstep.
    cbn [firstn] in Hstep. rewrite app_nil_r in Hstep. exact Hstep.
  - rewrite (completeBoxesLoop_openEnded true rounds (List.concat boxes)
               rest Hrest) in Hstep.
    unfold byteLength in Hstep at 1. rewrite Nat2Z.id in Hstep.
    rewrite firstn_all in Hstep. exact Hstep.
Qed.

Lemma Part000_progress_cursor_stops_at_last_complete_box_witness :
  In (MuxInspect (List.concat [SampleBoxes.free]))
    (snd (Part000.handleProgress SampleProgress.toBytes SampleBoxes.collect
            SampleProgress.pendingInit SampleProgress.boxEvent 1010 1010))
  /\ (In Throw
        (snd (Part000.handleProgress SampleProgress.toBytes
                SampleBoxes.collect SampleProgress.pendingInit
                SampleProgress.boxEvent 1010 1010))
      \/ Segment.lastReachedChar
           (fst (Part000.handleProgress SampleProgress.toBytes
                   SampleBoxes.collect SampleProgress.pendingInit
                   SampleProgress.boxEvent 1010 1010))
         = JsNum.Num (0 + byteLength (List.concat [SampleBoxes.free]))).
Proof.
  assert (Hboxes : Forall completeBox [SampleBoxes.free])
    by (repeat constructor).
  assert (Hmap : Segment.map SampleProgress.pendingInit <> None)
    by discriminate.
  apply (proj1 (Part000_progress_cursor_stops_at_last_complete_box
                  SampleProgress.toBytes SampleBoxes.collect
                  SampleProgress.pendingInit SampleProgress.boxEvent
                  1010 1010 0 [SampleBoxes.free] []
                  eq_refl Hmap eq_refl eq_refl Hboxes)).
  left. cbn. lia.
Defined.

(** ** Calls of [doneFn] *)

Lemma handleErrors_classified error request e :
  handleErrors error request = Some e -> classified e.
Proof.
  unfold handleErrors, classified.
  destruct (Request.timedout request); [intros [= <-]; cbn; tauto |].
  destruct (Request.aborted request); [intros [= <-]; cbn; tauto |].
  destruct error; [intros [= <-]; cbn; tauto | discriminate].
Qed.

Lemma decryptSegment_Forall
    {Boxes TrackInfo : Type} (Q : Effect -> Prop)
    (seg : Segment.t Boxes TrackInfo) :
  (forall id, Q (AddEventListener id)) ->
  (forall message, Q (PostMessage message)) ->
  Q Throw ->
  Forall Q (decryptSegment seg).
Proof.
  intros Hadd Hpost Hthrow. unfold decryptSegment.
  destruct (Segment.encryptedBytes seg), (Segment.key seg) as [k |];
    [destruct (Key.bytes k) | | |]; repeat constructor; auto.
Qed.

Section DoneFn.
Context {Boxes TrackInfo : Type}.
Variable stringToArrayBuffer : JsString -> list byte.
Variable inspectMp4 : list byte -> bool -> option Boxes -> Mp4Result.t Boxes.

Let Seg : Type := Segment.t Boxes TrackInfo.

Lemma responseHandler_classified x (seg : Seg) error request e seg1 :
  responseHandler stringToArrayBuffer x seg error request
  = Forward (Some e) seg1 ->
  classified e.
Proof.
  destruct x; cbn [responseHandler].
  - unfold handleKeyResponse.
    destruct (handleErrors error request) as [e0 |] eqn:Ee.
    { intros [= <- _]. now apply (handleErrors_classified error request). }
    destruct (negb (byteLength (Request.response request) =? 16)).
    { intros [= <- _]. now left. }
    destruct (getUint32 (Request.response request) 0); [| discriminate].
    destruct (getUint32 (Request.response request) 4); [| discriminate].
    destruct (getUint32 (Request.response request) 8); [| discriminate].
    destruct (getUint32 (Request.response request) 12); [| discriminate].
    destruct (Segment.key seg); discriminate.
  - unfold handleInitSegmentResponse.
    destruct (handleErrors error request) as [e0 |] eqn:Ee.
    { intros [= <- _]. now apply (handleErrors_classified error request). }
    destruct (byteLength (Request.response request) =? 0).
    { intros [= <- _]. now left. }
    destruct (Segment.map seg); discriminate.
  - unfold handleSegmentResponse.
    destruct (handleErrors error request) as [e0 |] eqn:Ee.
    { intros [= <- _]. now apply (handleErrors_classified error request). }
    cbn [JsNum.strictEquals stringByteLength Segment.set_stats Segment.key].
    destruct (Segment.key seg); discriminate.
Qed.

Lemma handleDecryptedBytes_reports (seg : Seg) bytes isPartial doneFn :
  Forall reportsError
    (snd (handleDecryptedBytes inspectMp4 seg bytes isPartial doneFn)).
Proof.
  pose proof (handleDecryptedBytes_effects inspectMp4 seg bytes isPartial
                doneFn) as (_ & _ & _ & Hdone & _).
  cbv zeta in Hdone.
  apply Forall_forall. intros e He.
  rewrite Forall_forall in Hdone. specialize (Hdone e He).
  destruct e; try exact I. discriminate.
Qed.

Lemma step_reports (p : @Pipeline Boxes TrackInfo) ev :
  Forall classified (errors (tracker p)) ->
  Forall classified
    (errors (tracker (fst (step stringToArrayBuffer inspectMp4 p ev))))
  /\ Forall reportsError (snd (step stringToArrayBuffer inspectMp4 p ev)).
Proof.
  intros Hinv.
  destruct ev as [x error request at_ | call | data].
  - destruct (responseHandler stringToArrayBuffer x (segment p) error
                request) as [e seg1 |] eqn:Hh.
    2:{ cbn [step]. rewrite Hh. cbn [fst snd].
        split; [exact Hinv | now repeat constructor]. }
    rewrite (step_response_eq stringToArrayBuffer inspectMp4 p x error
               request at_ e seg1 Hh).
    cbv zeta.
    assert (Herrs : Forall classified
                      (errors (tracker p)
                       ++ match e with Some e' => [e'] | None => [] end)).
    { apply Forall_app. split; [exact Hinv |].
      destruct e as [e' |]; [| constructor].
      constructor; [| constructor].
      now apply (responseHandler_classified x (segment p) error request
                   e' seg1). }
    assert (Haborts : Forall reportsError
                        (match e with
                         | Some _ => abortAll (activeXhrs p)
                         | None => []
                         end)).
    { destruct e; [| constructor].
      unfold abortAll. apply Forall_forall. intros e0 He0.
      apply in_map_iff in He0. now destruct He0 as (y & <- & _). }
    destruct (S (count (tracker p)) =? List.length (activeXhrs p))%nat;
      [| now split].
    destruct (errors (tracker p)
              ++ match e with Some e' => [e'] | None => [] end)
      as [| e1 errs'] eqn:Eerrs.
    + destruct (Segment.encryptedBytes seg1); cbn [fst snd tracker errors].
      * split; [constructor |]. apply Forall_app. split; [exact Haborts |].
        apply decryptSegment_Forall; intros; exact I.
      * split; [constructor |]. apply Forall_app. split; [exact Haborts |].
        unfold dispatchFinal.
        destruct (Segment.bytes _) as [b |]; [| now repeat constructor].
        match goal with
        | |- context [handleDecryptedBytes ?i ?s ?b ?u ?v] =>
            pose proof (handleDecryptedBytes_reports s b u v) as Hd;
            destruct (handleDecryptedBytes i s b u v) as [[n seg'] effects]
        end.
        exact Hd.
    + destruct (getMostImportantError_spec (e1 :: errs'))
        as (worst & Hw & Hmax); [discriminate |].
      rewrite Hw. cbn [fst snd tracker errors].
      split; [exact Herrs |].
      apply Forall_app. split; [exact Haborts |].
      constructor; [| constructor].
      split; [reflexivity |]. exists worst. split; [reflexivity |].
      rewrite Forall_forall in Herrs. apply Herrs.
      now apply first_maximal_In.
  - cbn [step].
    unfold handleProgress.
    destruct (progressParses (segment p)).
    + match goal with
      | |- context [handleDecryptedBytes ?i ?s ?b ?u ?v] =>
          pose proof (handleDecryptedBytes_reports s b u v) as Hd;
          destruct (handleDecryptedBytes i s b u v) as [[n seg'] effects]
      end.
      cbn [fst snd tracker] in *. split; [exact Hinv |].
      apply Forall_app. split; [exact Hd | now repeat constructor].
    + cbn [fst snd tracker]. split; [exact Hinv | now repeat constructor].
  - cbn [step]. unfold onWorkerMessage.
    destruct (Decrypter.registered (decrypter p)
                (Segment.requestId (segment p)));
      [| cbn; split; [exact Hinv | constructor]].
    unfold decryptionHandler.
    destruct (String.eqb (WorkerReply.source data)
                (Segment.requestId (segment p)));
      [| cbn; split; [exact Hinv | constructor]].
    destruct (WorkerReply.byteOffset data + WorkerReply.byteLength data
              <=? List.length (WorkerReply.bytes data))%nat;
      [| cbn; split; [exact Hinv | now repeat constructor]].
    match goal with
    | |- context [handleDecryptedBytes ?i ?s ?b ?u ?v] =>
        pose proof (handleDecryptedBytes_reports s b u v) as Hd;
        destruct (handleDecryptedBytes i s b u v) as [[n seg'] effects]
    end.
    cbn [fst snd tracker] in *. split; [exact Hinv |].
    constructor; [exact I | exact Hd].
Qed.

Lemma run_reports events :
  forall p : @Pipeline Boxes TrackInfo,
    Forall classified (errors (tracker p)) ->
    Forall reportsError (snd (run stringToArrayBuffer inspectMp4 p events)).
Proof.
  induction events as [| ev rest IH]; intros p Hinv; [constructor |].
  cbn [run].
  destruct (step_reports p ev Hinv) as [Hinv1 Hstep].
  destruct (step stringToArrayBuffer inspectMp4 p ev) as [p1 e1].
  cbn [fst snd] in *.
  specialize (IH p1 Hinv1).
  destruct (run stringToArrayBuffer inspectMp4 p1 rest) as [p2 e2].
  cbn [fst snd] in *. apply Forall_app. now split.
Qed.
End DoneFn.

(** X14.  The module itself calls [doneFn] only to report an error:
    whatever responses, progress events and worker replies arrive, every
    call of [doneFn] made by the callbacks carries no result and an error
    record whose code is one of [FAILURE], [TIMEOUT] and [ABORTED].  A
    successful segment reaches [doneFn] only through the [onDone]
    callback handed to the transmuxer. *)
Theorem doneFn_called_directly_only_with_an_error :
  forall (Boxes TrackInfo : Type)
         (stringToArrayBuffer : JsString -> list byte)
         (inspectMp4 : list byte -> bool -> option Boxes
                       -> Mp4Result.t Boxes)
         (segment0 : Segment.t Boxes TrackInfo) (d0 : Decrypter.t)
         (events : list Event),
    Forall reportsError
      (snd (run stringToArrayBuffer inspectMp4 (start d0 segment0) events)).
Proof.
  intros. apply run_reports. constructor.
Qed.

(** ** From the responses to the decrypter *)

Section Decryption.
Context {Boxes TrackInfo : Type}.
Variable stringToArrayBuffer : JsString -> list byte.
Variable inspectMp4 : list byte -> bool -> option Boxes -> Mp4Result.t Boxes.
Variable segment0 : Segment.t Boxes TrackInfo.
Variable d0 : Decrypter.t.
Variable k0 : Key.t.
Variables keyRequest segmentRequest : Request.t.
Hypothesis segment0_key : Segment.key segment0 = Some k0.

Let Seg : Type := Segment.t Boxes TrackInfo.
Let xhrs : list Xhr := mediaSegmentRequest segment0.

Lemma responseHandler_succeeds x (seg : Seg) error request e seg1 :
  succeeds x error request ->
  responseHandler stringToArrayBuffer x seg error request = Forward e seg1 ->
  e = None
  /\ Segment.lastReachedChar seg1 = Segment.lastReachedChar seg
  /\ (x = KeyXhr ->
      exists k words,
        Segment.key seg = Some k
        /\ keyWords (Request.response request) = Some words
        /\ Segment.key seg1 = Some (Key.set_bytes k words))
  /\ (x = SegmentXhr -> Segment.key seg <> None ->
      Segment.encryptedBytes seg1
      = Some (newBytesOf stringToArrayBuffer seg request)).
Proof.
  intros [Herr Hbody].
  destruct x; cbn [responseHandler].
  - unfold handleKeyResponse, keyWords. rewrite Herr, Hbody.
    change (16 =? 16) with true. cbn [negb].
    destruct (getUint32 (Request.response request) 0) as [w0 |];
      [| discriminate].
    destruct (getUint32 (Request.response request) 4) as [w1 |];
      [| discriminate].
    destruct (getUint32 (Request.response request) 8) as [w2 |];
      [| discriminate].
    destruct (getUint32 (Request.response request) 12) as [w3 |];
      [| discriminate].
    destruct (Segment.key seg) as [k |]; [| discriminate].
    intros [= <- <-]. cbn.
    repeat split; try discriminate.
    intros _. exists k, [w0; w1; w2; w3]. repeat split.
  - unfold handleInitSegmentResponse. rewrite Herr.
    apply Z.eqb_neq in Hbody. rewrite Hbody.
    destruct (Segment.map seg); [| discriminate].
    intros [= <- <-]. cbn. repeat split; discriminate.
  - unfold handleSegmentResponse. rewrite Herr.
    cbn [JsNum.strictEquals stringByteLength Segment.set_stats Segment.key].
    destruct (Segment.key seg) eqn:Ek; intros [= <- <-]; cbn;
      repeat split; try discriminate; try congruence.
Qed.

Lemma newBytesOf_cursor (seg seg' : Seg) request :
  Segment.lastReachedChar seg = Segment.lastReachedChar seg' ->
  newBytesOf stringToArrayBuffer seg request
  = newBytesOf stringToArrayBuffer seg' request.
Proof. unfold newBytesOf. now intros ->. Qed.

(** What the worker is sent once every request has succeeded. *)
Let message (words : list Z) : WorkerMessage.t :=
  {| WorkerMessage.source := Segment.requestId segment0;
     WorkerMessage.encrypted :=
       newBytesOf stringToArrayBuffer segment0 segmentRequest;
     WorkerMessage.key := words;
     WorkerMessage.iv := Key.iv k0 |}.

Let gathering (seen : list Xhr) (p : @Pipeline Boxes TrackInfo) : Prop :=
  Segment.requestId (segment p) = Segment.requestId segment0
  /\ Segment.lastReachedChar (segment p) = Segment.lastReachedChar segment0
  /\ errors (tracker p) = []
  /\ (exists k,
        Segment.key (segment p) = Some k
        /\ Key.iv k = Key.iv k0
        /\ (In KeyXhr seen ->
            exists words,
              keyWords (Request.response keyRequest) = Some words
              /\ Key.bytes k = Some words))
  /\ (In SegmentXhr seen ->
      Segment.encryptedBytes (segment p)
      = Some (newBytesOf stringToArrayBuffer segment0 segmentRequest))
  /\ ((List.length seen < List.length xhrs)%nat -> decrypter p = d0)
  /\ (List.length seen = List.length xhrs ->
      exists words,
        keyWords (Request.response keyRequest) = Some words
        /\ decrypter p
           = Decrypter.run d0
               [AddEventListener (Segment.requestId segment0);
                PostMessage (message words)]).

Lemma gathering_response seen (p : @Pipeline Boxes TrackInfo) x error request
    at_ :
  answeredBy keyRequest segmentRequest (Response x error request at_) ->
  consistent segment0 seen p -> gathering seen p -> In x xhrs ->
  (List.length seen < List.length xhrs)%nat ->
  (S (List.length seen) = List.length xhrs ->
   Permutation (seen ++ [x]) xhrs) ->
  gathering (seen ++ [x])
    (fst (step stringToArrayBuffer inspectMp4 p
            (Response x error request at_)))
  /\ Forall (fun _ => True)
       (snd (step stringToArrayBuffer inspectMp4 p
               (Response x error request at_))).
Proof.
  intros (Hok & Hkeyreq & Hsegreq) Hinv
    (Hid & Hcur & Herrs & (k & Hk & Hiv & Hwords) & Henc & Hidle & _)
    Hin Hshort Hlast.
  apply (response_cases stringToArrayBuffer inspectMp4 segment0 seen p x
           error request at_
           (fun p' effects =>
              gathering (seen ++ [x]) p'
              /\ Forall (fun _ => True) effects) Hinv Hin).
  intros e seg1 seg' effects Hh errs aborts seg2 Hcases.
  split; [| apply Forall_forall; trivial].
  destruct (handler_details stringToArrayBuffer x (segment p) error request
              e seg1 Hh)
    as (Hid1 & _ & _ & _ & _ & Hencother & _ & Hkeyother).
  destruct (responseHandler_succeeds x (segment p) error request e seg1
              Hok Hh)
    as (-> & Hcur1 & Hkeyed & Hbody).
  subst errs aborts. rewrite Herrs in *. cbn [app] in *.
  assert (Hk1 : exists k1,
             Segment.key seg1 = Some k1
             /\ Key.iv k1 = Key.iv k0
             /\ (In KeyXhr (seen ++ [x]) ->
                 exists words,
                   keyWords (Request.response keyRequest) = Some words
                   /\ Key.bytes k1 = Some words)).
  { destruct (Xhr_eq_dec x KeyXhr) as [-> | Hne].
    - destruct (Hkeyed eq_refl) as (k' & words & Hk' & Hw & Hk1).
      rewrite Hk in Hk'. injection Hk' as <-.
      exists (Key.set_bytes k words). split; [exact Hk1 |].
      split; [exact Hiv |]. intros _. exists words.
      rewrite <- (Hkeyreq eq_refl). now split.
    - exists k. rewrite (Hkeyother Hne). split; [exact Hk |].
      split; [exact Hiv |]. intros Hseen. apply Hwords.
      apply in_app_or in Hseen. destruct Hseen as [Hs | [-> | []]];
        [exact Hs | congruence]. }
  assert (Henc1 : In SegmentXhr (seen ++ [x]) ->
                  Segment.encryptedBytes seg1
                  = Some (newBytesOf stringToArrayBuffer segment0
                            segmentRequest)).
  { intros Hseen.
    destruct (Xhr_eq_dec x SegmentXhr) as [-> | Hne].
    - rewrite Hbody; [| reflexivity | congruence].
      rewrite (Hsegreq eq_refl).
      f_equal. now apply newBytesOf_cursor.
    - rewrite (Hencother Hne). apply Henc.
      apply in_app_or in Hseen. destruct Hseen as [Hs | [-> | []]];
        [exact Hs | congruence]. }
  unfold gathering. cbn [segment tracker errors decrypter].
  rewrite length_app. cbn [List.length]. unfold xhrs in *.
  destruct Hcases
    as [(Hwait & -> & ->)
       | [(_ & worst & Hnonempty & _)
         | [(Hfull & _ & _ & _ & -> & ->)
           | (Hfull & _ & _ & Hnone & _ & _)]]].
  - repeat split; try congruence; try assumption.
    + intros _. cbn. now apply Hidle.
    + intros Heq. lia.
  - congruence.
  - subst seg2.
    cbn [Segment.requestId Segment.lastReachedChar Segment.key
         Segment.encryptedBytes Segment.set_endOfAllRequests].
    assert (Hkeyseen : In KeyXhr (seen ++ [x])).
    { apply (Permutation_in KeyXhr (Permutation_sym (Hlast Hfull))).
      apply key_issues_request. congruence. }
    assert (Hsegseen : In SegmentXhr (seen ++ [x])).
    { apply (Permutation_in SegmentXhr (Permutation_sym (Hlast Hfull))).
      apply mediaSegmentRequest_segment. }
    repeat split; try congruence; try assumption.
    + intros Hlt. lia.
    + intros _. destruct Hk1 as (k1 & Hk1 & Hiv1 & Hw1).
      destruct (Hw1 Hkeyseen) as (words & Hw & Hb).
      exists words. split; [exact Hw |].
      rewrite (Hidle Hshort).
      unfold decryptSegment.
      cbn [Segment.requestId Segment.key Segment.encryptedBytes
           Segment.set_endOfAllRequests].
      rewrite Hk1, Hb, (Henc1 Hsegseen), Hid1, Hid, Hiv1. reflexivity.
  - exfalso. rewrite Henc1 in Hnone; [discriminate |].
    apply (Permutation_in SegmentXhr (Permutation_sym (Hlast Hfull))).
    apply mediaSegmentRequest_segment.
Qed.
Lemma gathering_progress seen (p : @Pipeline Boxes TrackInfo) call :
  answeredBy keyRequest segmentRequest (Progress call) ->
  consistent segment0 seen p -> gathering seen p ->
  gathering seen (fst (step stringToArrayBuffer inspectMp4 p (Progress call)))
  /\ Forall (fun _ => True)
       (snd (step stringToArrayBuffer inspectMp4 p (Progress call))).
Proof.
  intros _ _
    (Hid & Hcur & Herrs & (k & Hk & Hiv & Hwords) & Henc & Hidle & Hsent).
  split; [| apply Forall_forall; trivial].
  assert (Hkey : Segment.key (segment p) <> None) by congruence.
  destruct (handleProgress_defers_parsing stringToArrayBuffer inspectMp4
              (segment p) (event call) (now call) (firstByteNow call)
              (or_introl Hkey))
    as (_ & _ & Hcur' & _ & Hk' & _ & _ & He' & _).
  pose proof (handleProgress_buffers stringToArrayBuffer inspectMp4
                (segment p) (event call) (now call) (firstByteNow call))
    as (_ & _ & _ & _ & Hid' & _).
  cbn [step].
  destruct (handleProgress stringToArrayBuffer inspectMp4 (segment p)
              (event call) (now call) (firstByteNow call)) as [seg' effects].
  cbn [fst snd] in *. unfold gathering. cbn [segment tracker decrypter].
  rewrite Hid', Hcur', Hk', He'.
  repeat split; try assumption.
  exists k. repeat split; assumption.
Qed.

Lemma gathering_run events :
  Forall (fun ev => isRequestEvent ev = true) events ->
  Forall (answeredBy keyRequest segmentRequest) events ->
  Permutation (responded events) xhrs ->
  Segment.requestId
    (segment (fst (run stringToArrayBuffer inspectMp4 (start d0 segment0)
                     events)))
  = Segment.requestId segment0
  /\ exists words,
      keyWords (Request.response keyRequest) = Some words
      /\ decrypter (fst (run stringToArrayBuffer inspectMp4
                           (start d0 segment0) events))
         = Decrypter.run d0
             [AddEventListener (Segment.requestId segment0);
              PostMessage (message words)].
Proof.
  intros Hreq Hanswered Hperm.
  destruct (run_valid_where stringToArrayBuffer inspectMp4 segment0
              (answeredBy keyRequest segmentRequest) gathering
              (fun _ => True) gathering_response gathering_progress
              events [] (start d0 segment0))
    as (_ & (Hid & _ & _ & _ & _ & _ & Hsent) & _); try assumption.
  - apply start_consistent.
  - unfold gathering. cbn [start segment tracker decrypter errors
                             waitForCompletion List.length].
    repeat split; try reflexivity.
    + exists k0. repeat split; [exact segment0_key | intros []].
    + intros [].
    + intros Hempty. pose proof (mediaSegmentRequest_length segment0) as Hn.
      unfold xhrs in Hempty. lia.
  - cbn [app]. apply (Permutation_NoDup (Permutation_sym Hperm)).
    apply mediaSegmentRequest_NoDup.
  - cbn [app]. intros y Hy. now apply (Permutation_in y Hperm).
  - split; [exact Hid |].
    apply Hsent. cbn [app]. now apply Permutation_length.
Qed.
End Decryption.

(** X15.  What the decrypter is sent.  Let the descriptor carry a key and
    let every request succeed, the key request with a body of 16 bytes;
    progress events and response callbacks may come in any order.  Then
    the invocation registers one listener under the request id and posts
    one message, after the last response: its source is the request id,
    its key is the four words of the key response, its iv is the iv the
    descriptor came with, and its encrypted bytes are those of the final
    response text from the cursor of the descriptor on, which the
    progress events have not moved. *)
Theorem decrypter_is_sent_key_and_body_once
    {Boxes TrackInfo : Type}
    (stringToArrayBuffer : JsString -> list byte)
    (inspectMp4 : list byte -> bool -> option Boxes -> Mp4Result.t Boxes)
    (segment0 : Segment.t Boxes TrackInfo) (d0 : Decrypter.t) (k0 : Key.t)
    (keyRequest segmentRequest : Request.t) (events : list Event) :
  Segment.key segment0 = Some k0 ->
  Forall (fun ev => isRequestEvent ev = true) events ->
  Forall (answeredBy keyRequest segmentRequest) events ->
  Permutation (responded events) (mediaSegmentRequest segment0) ->
  let d := decrypter (fst (run stringToArrayBuffer inspectMp4
                             (start d0 segment0) events)) in
  exists words,
    keyWords (Request.response keyRequest) = Some words
    /\ Decrypter.listeners d
       = Decrypter.listeners d0 ++ [Segment.requestId segment0]
    /\ Decrypter.posted d
       = Decrypter.posted d0
         ++ [{| WorkerMessage.source := Segment.requestId segment0;
                WorkerMessage.encrypted :=
                  newBytesOf stringToArrayBuffer segment0 segmentRequest;
                WorkerMessage.key := words;
                WorkerMessage.iv := Key.iv k0 |}].
Proof.
  intros Hkey Hreq Hanswered Hperm.
  destruct (gathering_run stringToArrayBuffer inspectMp4 segment0 d0 k0
              keyRequest segmentRequest Hkey events Hreq Hanswered Hperm)
    as (_ & words & Hwords & Hd).
  cbv zeta. exists words. rewrite Hd. repeat split; [exact Hwords].
Qed.

Lemma decrypter_is_sent_key_and_body_once_witness :
  exists words,
    keyWords (Request.response SampleRun.keyResponse) = Some words
    /\ Decrypter.listeners
         (decrypter (fst (run SampleProgress.toBytes SampleWorker.noBoxes
                            (start SampleRun.idle SampleRun.keyed)
                            SampleRun.succeeding)))
       = Decrypter.listeners SampleRun.idle
         ++ [Segment.requestId SampleRun.keyed]
    /\ Decrypter.posted
         (decrypter (fst (run SampleProgress.toBytes SampleWorker.noBoxes
                            (start SampleRun.idle SampleRun.keyed)
                            SampleRun.succeeding)))
       = Decrypter.posted SampleRun.idle
         ++ [{| WorkerMessage.source := Segment.requestId SampleRun.keyed;
                WorkerMessage.encrypted :=
                  newBytesOf SampleProgress.toBytes SampleRun.keyed
                    SampleProgress.completed;
                WorkerMessage.key := words;
                WorkerMessage.iv := Key.iv SampleSegment.key |}].
Proof.
  apply (decrypter_is_sent_key_and_body_once SampleProgress.toBytes
           SampleWorker.noBoxes SampleRun.keyed SampleRun.idle
           SampleSegment.key SampleRun.keyResponse SampleProgress.completed
           SampleRun.succeeding eq_refl).
  - repeat constructor.
  - repeat constructor; cbn; try discriminate; try congruence.
  - apply perm_swap.
Defined.

(** ** Looking a box up by its type *)

Section RawDataLookup.
Variable parseBoxType : list byte -> string.
Variable bytes : Uint8Array.t.
Variable boxType : string.

Let shown : list byte := Uint8Array.bytes bytes.
Let typeAt (offset : nat) : string :=
  parseBoxType (subarray shown offset (offset + 4)).

Lemma rawDataLoop_skips k :
  forall rounds offset,
    (forall j, (j < k)%nat ->
               (offset + 4 * j < List.length shown)%nat
               /\ typeAt (offset + 4 * j) <> boxType) ->
    rawDataLoop parseBoxType (k + rounds) bytes boxType offset
    = rawDataLoop parseBoxType rounds bytes boxType (offset + 4 * k).
Proof.
  induction k as [| k IH]; intros rounds offset Hskip.
  - cbn [Nat.add]. f_equal. lia.
  - cbn [Nat.add rawDataLoop].
    destruct (Hskip 0%nat) as [Hin Hother]; [lia |].
    rewrite Nat.mul_0_r, Nat.add_0_r in Hin, Hother.
    apply Nat.ltb_lt in Hin. unfold shown in Hin. rewrite Hin.
    apply String.eqb_neq in Hother. unfold typeAt, shown in Hother.
    rewrite Hother.
    rewrite IH.
    + f_equal. lia.
    + intros j Hj. destruct (Hskip (S j)) as [Hin' Hother']; [lia |].
      replace (offset + 4 + 4 * j)%nat with (offset + 4 * S j)%nat by lia.
      now split.
Qed.

Lemma rawDataLoop_none rounds :
  forall offset,
    (forall j, (offset + 4 * j < List.length shown)%nat ->
               typeAt (offset + 4 * j) <> boxType) ->
    rawDataLoop parseBoxType rounds bytes boxType offset = NotFound.
Proof.
  induction rounds as [| rounds IH]; intros offset Hnone; [reflexivity |].
  cbn [rawDataLoop]. fold shown.
  destruct (offset <? List.length shown)%nat eqn:Hin; [| reflexivity].
  apply Nat.ltb_lt in Hin.
  pose proof (Hnone 0%nat) as Hother.
  rewrite Nat.mul_0_r, Nat.add_0_r in Hother. specialize (Hother Hin).
  apply String.eqb_neq in Hother. unfold typeAt in Hother. rewrite Hother.
  apply IH. intros j Hj.
  replace (offset + 4 + 4 * j)%nat with (offset + 4 * S j)%nat by lia.
  apply Hnone. lia.
Qed.

Lemma subarray_length (l : list byte) begin_ end_ :
  List.length (subarray l begin_ end_)
  = (Nat.min end_ (List.length l) - begin_)%nat.
Proof.
  unfold subarray. rewrite length_firstn, length_skipn. lia.
Qed.
End RawDataLookup.

(** An array that starts at the beginning of its buffer shows a prefix
    of the buffer. *)
Lemma getUint32_bytes_at_start (bytes : Uint8Array.t) (start : nat) :
  Uint8Array.byteOffset bytes = 0%nat ->
  (start + 4 <= List.length (Uint8Array.bytes bytes))%nat ->
  getUint32 (Uint8Array.bytes bytes) start
  = getUint32 (Uint8Array.buffer bytes) start.
Proof.
  intros Hstart Hin. revert Hin.
  unfold Uint8Array.bytes, subarrayView. rewrite Hstart. cbn [skipn].
  rewrite length_firstn. intros Hin. apply getUint32_firstn. lia.
Qed.

(** X16.  [rawDataForBox] of the other revision looks at every fourth
    offset of the array, from 4 on, for four bytes that spell the box
    type, whatever the box structure of the array.  Without such an
    offset it returns [null].  At the first one it reads the size through
    [new DataView(bytes.buffer)], in the four bytes at the same offset
    less 4 counted from the first byte of the buffer, and never fails in
    doing so; these are the four bytes before the type when the array
    starts at the beginning of its buffer.  With [start] the offset of
    those four bytes, it returns the bytes of the array from [start] on
    if the size is 0, and those from [start] up to the offset [size]
    otherwise: the size is used as an end offset, not as a length.  The
    array returned then holds [min size length - start] bytes, none if
    that is negative, so for a box that does not start the array it is
    shorter than the box. *)
Theorem rawDataForBox_returns_up_to_offset_size
    (parseBoxType : list byte -> string) (bytes : Uint8Array.t)
    (boxType : string) :
  let shown := Uint8Array.bytes bytes in
  let typeAt (offset : nat) :=
    parseBoxType (subarray shown offset (offset + 4)) in
  ((forall j, (4 * j + 4 < List.length shown)%nat ->
              typeAt (4 * j + 4)%nat <> boxType) ->
   rawDataForBox parseBoxType bytes boxType = NotFound)
  /\ (forall k,
        (4 * k + 4 < List.length shown)%nat ->
        (forall j, (j < k)%nat -> typeAt (4 * j + 4)%nat <> boxType) ->
        typeAt (4 * k + 4)%nat = boxType ->
        let start := (4 * k)%nat in
        exists size,
          getUint32 (Uint8Array.buffer bytes) start = Some size
          /\ (Uint8Array.byteOffset bytes = 0%nat ->
              getUint32 shown start = Some size)
          /\ rawDataForBox parseBoxType bytes boxType
             = Found (if size =? 0 then skipn start shown
                      else firstn (Z.to_nat size - start)
                             (skipn start shown))
          /\ (size <> 0 ->
              forall rawData,
                rawDataForBox parseBoxType bytes boxType = Found rawData ->
                List.length rawData
                = (Nat.min (Z.to_nat size) (List.length shown)
                   - start)%nat)).
Proof.
  intros shown typeAt. split.
  - intros Hnone. unfold rawDataForBox.
    apply rawDataLoop_none. intros j Hj.
    replace (4 + 4 * j)%nat with (4 * j + 4)%nat in * by lia.
    now apply Hnone.
  - intros k Hin Hskip Hmatch start.
    pose proof (bytes_within_buffer bytes) as Hwithin. fold shown in Hwithin.
    destruct (getUint32 (Uint8Array.buffer bytes) start) as [size |]
      eqn:Hsize.
    2:{ exfalso. revert Hsize. apply getUint32_in_range.
        unfold start. lia. }
    exists size. split; [reflexivity |].
    split.
    { intros Hstart. rewrite <- Hsize.
      apply getUint32_bytes_at_start; [exact Hstart |].
      fold shown. unfold start. lia. }
    assert (Hresult : rawDataForBox parseBoxType bytes boxType
                      = Found (if size =? 0 then skipn start shown
                               else firstn (Z.to_nat size - start)
                                      (skipn start shown))).
    { unfold rawDataForBox. fold shown.
      replace (S (List.length shown))
        with (k + S (List.length shown - k))%nat by lia.
      rewrite rawDataLoop_skips.
      - cbn [rawDataLoop]. fold shown.
        replace (4 + 4 * k)%nat with (4 * k + 4)%nat by lia.
        apply Nat.ltb_lt in Hin. rewrite Hin.
        apply String.eqb_eq in Hmatch. fold (typeAt (4 * k + 4)%nat).
        rewrite Hmatch.
        replace (4 * k + 4 - 4)%nat with start by (unfold start; lia).
        rewrite Hsize. destruct (size =? 0); reflexivity.
      - intros j Hj.
        replace (4 + 4 * j)%nat with (4 * j + 4)%nat by lia.
        split; [fold shown; lia | now apply Hskip]. }
    split; [exact Hresult |].
    intros Hnonzero rawData Hfound.
    rewrite Hresult in Hfound. injection Hfound as <-.
    destruct (size =? 0) eqn:E0; [lia |].
    apply (subarray_length shown start (Z.to_nat size)).
Qed.

Lemma rawDataForBox_returns_up_to_offset_size_witness :
  rawDataForBox SampleRawData.parseType
    (Uint8Array.ofBuffer SampleRawData.segment) "mdat"
  = Found ["000"]%byte
  /\ Uint8Array.bytes SampleRawData.mdat
     = ["000"; "000"; "000"; "009"; "m"; "d"; "a"; "t"; "001"]%byte
  /\ rawDataForBox SampleRawData.parseType SampleRawData.mdat "mdat"
     = Found ["000"; "000"; "000"; "009"; "m"; "d"; "a"; "t"]%byte.
Proof.
  split; [| split; [reflexivity |]].
  - destruct (proj2 (rawDataForBox_returns_up_to_offset_size
                       SampleRawData.parseType
                       (Uint8Array.ofBuffer SampleRawData.segment) "mdat")
                2%nat)
      as (size & Hsize & _ & Hfound & _).
    + cbn. lia.
    + intros j Hj.
      destruct j as [| [| j]]; [discriminate | discriminate | lia].
    + reflexivity.
    + injection Hsize as <-. exact Hfound.
  - destruct (proj2 (rawDataForBox_returns_up_to_offset_size
                       SampleRawData.parseType SampleRawData.mdat "mdat")
                0%nat)
      as (size & Hsize & _ & Hfound & _).
    + cbn. lia.
    + intros j Hj. lia.
    + reflexivity.
    + injection Hsize as <-. exact Hfound.
Defined.

(** ** The function [mediaSegmentRequest] returns *)

Section Abort.
Context {Boxes TrackInfo : Type}.
Variable stringToArrayBuffer : JsString -> list byte.
Variable inspectMp4 : list byte -> bool -> option Boxes -> Mp4Result.t Boxes.

(** No callback pushes on [activeXhrs] or removes from it. *)
Lemma step_activeXhrs (p : @Pipeline Boxes TrackInfo) ev :
  activeXhrs (fst (step stringToArrayBuffer inspectMp4 p ev)) = activeXhrs p.
Proof.
  destruct ev as [x error request at_ | call | data].
  - destruct (responseHandler stringToArrayBuffer x (segment p) error
                request) as [e seg1 |] eqn:Hh.
    + rewrite (step_response_eq stringToArrayBuffer inspectMp4 p x error
                 request at_ e seg1 Hh).
      cbv zeta.
      destruct (S (count (tracker p)) =? List.length (activeXhrs p))%nat;
        [| reflexivity].
      destruct (errors (tracker p)
                ++ match e with Some e' => [e'] | None => [] end).
      * destruct (Segment.encryptedBytes seg1); reflexivity.
      * destruct (getMostImportantError _); reflexivity.
    + cbn [step]. now rewrite Hh.
  - cbn [step].
    destruct (handleProgress stringToArrayBuffer inspectMp4 (segment p)
                (event call) (now call) (firstByteNow call)).
    reflexivity.
  - cbn [step].
    destruct (onWorkerMessage inspectMp4 (decrypter p) (segment p) data)
      as [[d seg] effects].
    reflexivity.
Qed.

Lemma run_activeXhrs events :
  forall p : @Pipeline Boxes TrackInfo,
    activeXhrs (fst (run stringToArrayBuffer inspectMp4 p events))
    = activeXhrs p.
Proof.
  induction events as [| ev rest IH]; intros p; [reflexivity |].
  cbn [run].
  pose proof (step_activeXhrs p ev) as Hstep.
  destruct (step stringToArrayBuffer inspectMp4 p ev) as [p1 e1].
  specialize (IH p1).
  destruct (run stringToArrayBuffer inspectMp4 p1 rest) as [p2 e2].
  cbn [fst] in *. congruence.
Qed.
End Abort.

Lemma mediaSegmentRequest_init
    {Boxes TrackInfo : Type} (segment : Segment.t Boxes TrackInfo) :
  In InitSegmentXhr (mediaSegmentRequest segment)
  <-> exists m, Segment.map segment = Some m /\ Map.bytes m = None.
Proof.
  unfold mediaSegmentRequest, issuesKey, issuesInitSegment.
  destruct (Segment.key segment), (Segment.map segment) as [m |];
    [destruct (Map.bytes m) eqn:Eb | | destruct (Map.bytes m) eqn:Eb |];
    cbn; split;
    try (intros [H | [H | H]]; try discriminate; try contradiction);
    try (intros [H | H]; try discriminate; try contradiction);
    try (intros (m' & [= <-] & Hm'); congruence);
    try (intros (m' & [=] & _));
    try (exists m; now split);
    intros; tauto.
Qed.

(** X17.  The function [mediaSegmentRequest] returns cancels every request
    the invocation issued, and each exactly once, whenever it is called:
    before, between or after the responses, progress events and worker
    replies, whether a request has completed or not.  The media request
    is always among them, the key request if and only if the descriptor
    came with a key, the init-segment request if and only if it came with
    a [map] without [bytes]. *)
Theorem returned_function_aborts_each_issued_request_once :
  forall (Boxes TrackInfo : Type)
         (stringToArrayBuffer : JsString -> list byte)
         (inspectMp4 : list byte -> bool -> option Boxes
                       -> Mp4Result.t Boxes)
         (segment0 : Segment.t Boxes TrackInfo) (d0 : Decrypter.t)
         (events : list Event),
    let aborts :=
      abortAll
        (activeXhrs (fst (run stringToArrayBuffer inspectMp4
                            (start d0 segment0) events))) in
    Forall (fun e => isAbort e = true) aborts
    /\ (forall x, (countEffects (isAbortOf x) aborts <= 1)%nat)
    /\ countEffects (isAbortOf SegmentXhr) aborts = 1%nat
    /\ (countEffects (isAbortOf KeyXhr) aborts = 1%nat
        <-> Segment.key segment0 <> None)
    /\ (countEffects (isAbortOf InitSegmentXhr) aborts = 1%nat
        <-> exists m, Segment.map segment0 = Some m /\ Map.bytes m = None).
Proof.
  intros. subst aborts. rewrite run_activeXhrs. cbn [start activeXhrs].
  pose proof (mediaSegmentRequest_NoDup segment0) as Hnodup.
  assert (Hcount : forall x,
             countEffects (isAbortOf x)
               (abortAll (mediaSegmentRequest segment0))
             = if in_dec Xhr_eq_dec x (mediaSegmentRequest segment0)
               then 1%nat else 0%nat).
  { intros x. rewrite countAborts_abortAll.
    destruct (in_dec Xhr_eq_dec x (mediaSegmentRequest segment0))
      as [Hin | Hout].
    - now apply NoDup_count_occ'.
    - now apply count_occ_not_In. }
  split; [| split; [| split; [| split]]].
  - apply Forall_abortAll. reflexivity.
  - intros x. rewrite Hcount. destruct (in_dec _ _ _); lia.
  - rewrite Hcount.
    destruct (in_dec _ _ _) as [Hin | Hout]; [reflexivity |].
    destruct Hout. apply mediaSegmentRequest_segment.
  - rewrite Hcount.
    destruct (in_dec _ _ _) as [Hin | Hout]; split; intros H;
      try reflexivity; try discriminate.
    + now apply mediaSegmentRequest_key.
    + destruct Hout. unfold mediaSegmentRequest, issuesKey.
      destruct (Segment.key segment0); [now left | congruence].
  - rewrite Hcount.
    destruct (in_dec _ _ _) as [Hin | Hout]; split; intros H;
      try reflexivity; try discriminate.
    + now apply mediaSegmentRequest_init.
    + destruct Hout. now apply mediaSegmentRequest_init.
Qed.

(** ** Range headers *)

Lemma decimal_inj a b : decimal a = decimal b -> a = b.
Proof.
  unfold decimal. intros Heq.
  apply (f_equal NilZero.int_of_string) in Heq.
  assert (Hnorm : forall z, NilZero.int_of_string
                              (NilZero.string_of_int (Z.to_int z))
                            = Some (Z.to_int z)).
  { intros z. apply NilZero.isi.
    - destruct z as [| p | p]; cbn; try discriminate.
      intros [= H]. now apply (DecimalPos.Unsigned.to_uint_nonnil p).
    - destruct z as [| p | p]; cbn; try discriminate.
      intros [= H]. now apply (DecimalPos.Unsigned.to_uint_nonnil p). }
  rewrite !Hnorm in Heq. injection Heq as Heq.
  now apply DecimalZ.to_int_inj.
Qed.

Lemma string_of_uint_noDash d : noDash (NilEmpty.string_of_uint d).
Proof.
  induction d; cbn; (exact I || (split; [discriminate | assumption])).
Qed.

Lemma decimal_noDash a : 0 <= a -> noDash (decimal a).
Proof.
  unfold decimal. destruct a as [| p | p]; intros Hpos; [| | lia].
  - cbn. split; [discriminate | exact I].
  - cbn [Z.to_int NilZero.string_of_int]. unfold NilZero.string_of_uint.
    pose proof (string_of_uint_noDash (Pos.to_uint p)) as Hd.
    destruct (Pos.to_uint p); try exact Hd.
    cbn. split; [discriminate | exact I].
Qed.

(** The first [-] of a string is where its dash-free prefix ends. *)
Lemma append_dash_inj u :
  forall u' s s',
    noDash u -> noDash u' ->
    (u ++ String "-" s)%string = (u' ++ String "-" s')%string ->
    u = u' /\ s = s'.
Proof.
  induction u as [| c u IH]; intros [| c' u'] s s' Hu Hu' Heq;
    cbn in Heq, Hu, Hu'.
  - injection Heq as <-. now split.
  - injection Heq as <- _. now destruct Hu' as [[] _].
  - injection Heq as -> _. now destruct Hu as [[] _].
  - injection Heq as <- Heq.
    destruct (IH u' s s' (proj2 Hu) (proj2 Hu') Heq) as [<- <-].
    now split.
Qed.

Section SafeRanges.
Variable plus minus : Z -> Z -> Z.
Variable numberToString : Z -> string.
Hypothesis exactness : exactOnSafeIntegers plus minus numberToString.

(** On a safe range nothing is rounded: the header spells the offset and
    the offset of the last byte. *)
Lemma byterangeStr_safe (r : Byterange.t) :
  safeRange r ->
  byterangeStr plus minus numberToString r
  = ("bytes=" ++ decimal (Byterange.offset r) ++ "-"
     ++ decimal (Byterange.offset r + Byterange.length r - 1))%string.
Proof.
  destruct exactness as (Hplus & Hminus & Hstring).
  intros (Hoffset & Hlength & Hend). unfold byterangeStr. cbv zeta.
  assert (Hpow : 0 < 2 ^ 53) by reflexivity.
  rewrite Hplus by (unfold safeInteger; lia).
  rewrite Hminus by (unfold safeInteger; lia).
  rewrite !Hstring by (unfold safeInteger; lia).
  reflexivity.
Qed.

Lemma byterangeStr_inj (r r' : Byterange.t) :
  safeRange r -> safeRange r' ->
  byterangeStr plus minus numberToString r
  = byterangeStr plus minus numberToString r' ->
  r = r'.
Proof.
  intros Hr Hr'. rewrite !byterangeStr_safe by assumption.
  destruct r as [o l], r' as [o' l'].
  destruct Hr as (Ho & _), Hr' as (Ho' & _).
  cbn [Byterange.offset Byterange.length] in *. cbn [String.append].
  intros [= Heq].
  apply append_dash_inj in Heq; try now apply decimal_noDash.
  destruct Heq as [Hstart Hend].
  apply decimal_inj in Hstart, Hend.
  f_equal; lia.
Qed.
End SafeRanges.

(** X18.  Distinct byte ranges never give the same [Range] header, as
    far as the numbers of the ranges are integers a double holds
    exactly.  [byterangeStr] adds and subtracts doubles and writes them
    with [Number::toString]; all that is assumed of the three is that
    they are exact on safe integers (those of absolute value at most
    2^53).  For ranges of non-negative offset and length that end at or
    before 2^53, the header then spells the offset and the offset of the
    last byte in decimal digits, two different ranges have different
    headers, and so have two requests of which one has a byte range the
    other has not.  Nothing is said of ranges that reach beyond 2^53,
    where the addition rounds. *)
Theorem byterangeStr_determines_the_range
    (plus minus : Z -> Z -> Z) (numberToString : Z -> string)
    (r1 r2 : Byterange.t) (b1 b2 : option Byterange.t) :
  exactOnSafeIntegers plus minus numberToString ->
  safeRange r1 ->
  safeRange r2 ->
  (forall r, b1 = Some r -> safeRange r) ->
  (forall r, b2 = Some r -> safeRange r) ->
  byterangeStr plus minus numberToString r1
  = ("bytes=" ++ decimal (Byterange.offset r1) ++ "-"
     ++ decimal (Byterange.offset r1 + Byterange.length r1 - 1))%string
  /\ (r1 <> r2 ->
      byterangeStr plus minus numberToString r1
      <> byterangeStr plus minus numberToString r2)
  /\ (b1 <> b2 ->
      segmentXhrHeaders plus minus numberToString b1
      <> segmentXhrHeaders plus minus numberToString b2).
Proof.
  intros Hexact H1 H2 Hb1 Hb2.
  split; [now apply byterangeStr_safe |].
  split.
  - intros Hne Heq. apply Hne.
    now apply (byterangeStr_inj plus minus numberToString Hexact).
  - intros Hne Heq. apply Hne.
    destruct b1 as [r |], b2 as [r' |]; cbn [segmentXhrHeaders] in Heq;
      try discriminate Heq; [| reflexivity].
    f_equal.
    apply (byterangeStr_inj plus minus numberToString Hexact);
      [now apply Hb1 | now apply Hb2 | congruence].
Qed.

Lemma byterangeStr_determines_the_range_witness :
  byterangeStr Z.add Z.sub decimal
    {| Byterange.offset := 0; Byterange.length := 512 |}
  = "bytes=0-511"%string
  /\ byterangeStr Z.add Z.sub decimal
       {| Byterange.offset := 0; Byterange.length := 512 |}
     <> byterangeStr Z.add Z.sub decimal
          {| Byterange.offset := 512; Byterange.length := 64 |}
  /\ segmentXhrHeaders Z.add Z.sub decimal
       (Some {| Byterange.offset := 512; Byterange.length := 64 |})
     <> segmentXhrHeaders Z.add Z.sub decimal None.
Proof.
  assert (Hexact : exactOnSafeIntegers Z.add Z.sub decimal)
    by (repeat split; reflexivity).
  assert (Hpow : 2 ^ 53 = 9007199254740992) by reflexivity.
  assert (H1 : safeRange {| Byterange.offset := 0; Byterange.length := 512 |})
    by (unfold safeRange; cbn [Byterange.offset Byterange.length]; lia).
  assert (H2 : safeRange {| Byterange.offset := 512; Byterange.length := 64 |})
    by (unfold safeRange; cbn [Byterange.offset Byterange.length]; lia).
  destruct (byterangeStr_determines_the_range Z.add Z.sub decimal
              {| Byterange.offset := 0; Byterange.length := 512 |}
              {| Byterange.offset := 512; Byterange.length := 64 |}
              (Some {| Byterange.offset := 512; Byterange.length := 64 |})
              None Hexact H1 H2)
    as (Hheader & Hranges & Hheaders).
  - intros r [= <-]. exact H2.
  - intros r [=].
  - split; [exact Hheader |].
    split; [apply Hranges | apply Hheaders]; discriminate.
Defined.

(** ** The reply of the decrypter *)

(** The final call of the dispatcher: the box parser is given the bytes
    the array shows, the transmuxer the buffer behind the array. *)
Lemma handleDecryptedBytes_final_call
    {Boxes TrackInfo : Type}
    (inspectMp4 : list byte -> bool -> option Boxes -> Mp4Result.t Boxes)
    (segment : Segment.t Boxes TrackInfo) (bytes : Uint8Array.t) :
  let effects :=
    snd (handleDecryptedBytes inspectMp4 segment bytes false true) in
  if hasMap segment
  then In (InspectMp4 (Uint8Array.bytes bytes) true) effects
  else effects = [Transmux (Uint8Array.buffer bytes) false true].
Proof.
  unfold handleDecryptedBytes, hasMap.
  destruct (Segment.map segment); cbn.
  - unfold parseMp4AndNotify. cbn. now left.
  - reflexivity.
Qed.

Section Reply.
Context {Boxes TrackInfo : Type}.
Variable stringToArrayBuffer : JsString -> list byte.
Variable inspectMp4 : list byte -> bool -> option Boxes -> Mp4Result.t Boxes.

Lemma step_matching_reply (p : @Pipeline Boxes TrackInfo) (d0 : Decrypter.t)
    (data : WorkerReply.t) :
  Decrypter.listeners (decrypter p)
  = Decrypter.listeners d0 ++ [Segment.requestId (segment p)] ->
  Decrypter.registered d0 (Segment.requestId (segment p)) = false ->
  WorkerReply.source data = Segment.requestId (segment p) ->
  (WorkerReply.byteOffset data + WorkerReply.byteLength data
   <= List.length (WorkerReply.bytes data))%nat ->
  let payload := decryptedView data in
  let p' := fst (step stringToArrayBuffer inspectMp4 p (WorkerReplied data)) in
  let effects :=
    snd (step stringToArrayBuffer inspectMp4 p (WorkerReplied data)) in
  countEffects isDispatch effects = 1%nat
  /\ (if hasMap (segment p)
      then In (InspectMp4 (Uint8Array.bytes payload) true) effects
      else In (Transmux (WorkerReply.bytes data) false true) effects)
  /\ Segment.bytes (segment p') = Some payload
  /\ Decrypter.listeners (decrypter p') = Decrypter.listeners d0
  /\ Decrypter.posted (decrypter p') = Decrypter.posted (decrypter p).
Proof.
  intros Hlisteners Hfresh Hsource Hview payload.
  cbn [step]. unfold onWorkerMessage, Decrypter.registered.
  rewrite Hlisteners, registered_last.
  unfold decryptionHandler. rewrite Hsource, String.eqb_refl.
  apply Nat.leb_le in Hview. rewrite Hview. fold (decryptedView data).
  fold payload.
  pose proof (handleDecryptedBytes_effects inspectMp4
                (Segment.set_bytes (segment p) payload) payload false true)
    as (Hone & _ & Hworker & _ & _ & _ & _).
  pose proof (handleDecryptedBytes_final_call inspectMp4
                (Segment.set_bytes (segment p) payload) payload) as Hcall.
  change (hasMap (Segment.set_bytes (segment p) payload))
    with (hasMap (segment p)) in Hcall.
  cbv zeta in Hcall.
  pose proof (handleDecryptedBytes_segment inspectMp4
                (Segment.set_bytes (segment p) payload) payload false true)
    as (_ & _ & _ & _ & Hbytes & _).
  destruct (handleDecryptedBytes inspectMp4
              (Segment.set_bytes (segment p) payload) payload false true)
    as [[n seg'] effects].
  cbn [fst snd segment decrypter] in *.
  change (Decrypter.run (decrypter p)
            (RemoveEventListener (Segment.requestId (segment p)) :: effects))
    with (Decrypter.run
            (Decrypter.call (decrypter p)
               (RemoveEventListener (Segment.requestId (segment p))))
            effects).
  rewrite (run_no_worker_calls _ effects Hworker).
  cbn [Decrypter.call Decrypter.listeners Decrypter.posted].
  rewrite Hlisteners, (remove_first_last _ _ Hfresh).
  repeat split.
  - unfold countEffects in *. cbn [filter isDispatch]. exact Hone.
  - destruct (hasMap (segment p)); [now right |].
    rewrite Hcall. right. now left.
  - exact Hbytes.
Qed.
End Reply.

(** X19.  An encrypted segment is parsed exactly once, from the decrypted
    bytes.  Let the descriptor carry a key, let every request succeed,
    in any order and with any progress events, and let the decrypter
    then reply under the request id with a payload lying within its
    buffer.  Over the whole invocation the parsing collaborators are
    called once, as the end of the segment: for a segment with an init
    segment the box parser, with the bytes of the payload; for one
    without, the transmuxer, which is handed [bytes.buffer], the whole
    buffer of the reply, whatever offset and length the payload has in
    it.  The payload is stored as [segment.bytes], and the listener is
    off the channel again. *)
Theorem encrypted_segment_parsed_once_from_decrypted_bytes
    {Boxes TrackInfo : Type}
    (stringToArrayBuffer : JsString -> list byte)
    (inspectMp4 : list byte -> bool -> option Boxes -> Mp4Result.t Boxes)
    (segment0 : Segment.t Boxes TrackInfo) (d0 : Decrypter.t) (k0 : Key.t)
    (keyRequest segmentRequest : Request.t) (events : list Event)
    (reply : WorkerReply.t) :
  Segment.key segment0 = Some k0 ->
  Decrypter.registered d0 (Segment.requestId segment0) = false ->
  Forall (fun ev => isRequestEvent ev = true) events ->
  Forall (answeredBy keyRequest segmentRequest) events ->
  Permutation (responded events) (mediaSegmentRequest segment0) ->
  WorkerReply.source reply = Segment.requestId segment0 ->
  (WorkerReply.byteOffset reply + WorkerReply.byteLength reply
   <= List.length (WorkerReply.bytes reply))%nat ->
  let payload :=
    {| Uint8Array.buffer := WorkerReply.bytes reply;
       Uint8Array.byteOffset := WorkerReply.byteOffset reply;
       Uint8Array.length := WorkerReply.byteLength reply |} in
  let p := fst (run stringToArrayBuffer inspectMp4 (start d0 segment0)
                  (events ++ [WorkerReplied reply])) in
  let effects :=
    snd (run stringToArrayBuffer inspectMp4 (start d0 segment0)
           (events ++ [WorkerReplied reply])) in
  countEffects isDispatch effects = 1%nat
  /\ match Segment.map segment0 with
     | Some _ => In (InspectMp4 (Uint8Array.bytes payload) true) effects
     | None => In (Transmux (WorkerReply.bytes reply) false true) effects
     end
  /\ Segment.bytes (segment p) = Some payload
  /\ Decrypter.listeners (decrypter p) = Decrypter.listeners d0.
Proof.
  intros Hkey Hfresh Hreq Hanswered Hperm Hsource Hview payload.
  assert (Hnodup : NoDup (responded events)).
  { apply (Permutation_NoDup (Permutation_sym Hperm)).
    apply mediaSegmentRequest_NoDup. }
  assert (Hincl : incl (responded events) (mediaSegmentRequest segment0)).
  { intros y Hy. now apply (Permutation_in y Hperm). }
  assert (Hkey' : Segment.key segment0 <> None) by congruence.
  pose proof (keyed_run stringToArrayBuffer inspectMp4 segment0 d0 events
                Hkey' Hreq Hnodup Hincl) as Hquiet.
  destruct (gathering_run stringToArrayBuffer inspectMp4 segment0 d0 k0
              keyRequest segmentRequest Hkey events Hreq Hanswered Hperm)
    as (Hid & words & _ & Hd).
  pose proof (proj1 (run_routed stringToArrayBuffer inspectMp4 events
                       (start d0 segment0))) as Hrouted.
  change (segment (start d0 segment0)) with segment0 in Hrouted.
  rewrite run_app. cbn [fst snd run].
  set (p1 := fst (run stringToArrayBuffer inspectMp4 (start d0 segment0)
                    events)) in *.
  destruct (step_matching_reply stringToArrayBuffer inspectMp4 p1 d0 reply)
    as (Hone & Hcall & Hbytes & Hlisteners & _).
  { rewrite Hd, Hid. reflexivity. }
  { now rewrite Hid. }
  { now rewrite Hid. }
  { exact Hview. }
  rewrite Hrouted in Hcall. unfold hasMap in Hcall.
  destruct (step stringToArrayBuffer inspectMp4 p1 (WorkerReplied reply))
    as [p2 e2].
  cbn [fst snd] in *. rewrite app_nil_r.
  repeat split.
  - rewrite countEffects_app, Hone.
    assert (Hzero : countEffects isDispatch
                      (snd (run stringToArrayBuffer inspectMp4
                              (start d0 segment0) events)) = 0%nat).
    { unfold countEffects.
      induction Hquiet as [| e l He _ IH]; [reflexivity |].
      cbn [filter]. now rewrite He. }
    now rewrite Hzero.
  - destruct (Segment.map segment0); apply in_or_app; now right.
  - exact Hbytes.
  - exact Hlisteners.
Qed.

Lemma encrypted_segment_parsed_once_from_decrypted_bytes_witness :
  countEffects isDispatch
    (snd (run SampleProgress.toBytes SampleWorker.noBoxes
            (start SampleRun.idle SampleRun.keyed)
            (SampleRun.succeeding ++ [WorkerReplied SampleWorker.reply])))
  = 1%nat
  /\ In (Transmux ["000"; "071"; "064"]%byte false true)
       (snd (run SampleProgress.toBytes SampleWorker.noBoxes
               (start SampleRun.idle SampleRun.keyed)
               (SampleRun.succeeding ++ [WorkerReplied SampleWorker.reply])))
  /\ Segment.bytes
       (segment (fst (run SampleProgress.toBytes SampleWorker.noBoxes
                        (start SampleRun.idle SampleRun.keyed)
                        (SampleRun.succeeding
                         ++ [WorkerReplied SampleWorker.reply]))))
     = Some {| Uint8Array.buffer := ["000"; "071"; "064"]%byte;
               Uint8Array.byteOffset := 1;
               Uint8Array.length := 2 |}
  /\ Decrypter.listeners
       (decrypter (fst (run SampleProgress.toBytes SampleWorker.noBoxes
                          (start SampleRun.idle SampleRun.keyed)
                          (SampleRun.succeeding
                           ++ [WorkerReplied SampleWorker.reply]))))
     = Decrypter.listeners SampleRun.idle.
Proof.
  apply (encrypted_segment_parsed_once_from_decrypted_bytes
           SampleProgress.toBytes SampleWorker.noBoxes SampleRun.keyed
           SampleRun.idle SampleSegment.key SampleRun.keyResponse
           SampleProgress.completed SampleRun.succeeding SampleWorker.reply
           eq_refl eq_refl).
  - repeat constructor.
  - repeat constructor; cbn; try discriminate; try congruence.
  - apply perm_swap.
  - reflexivity.
  - cbn. lia.
Defined.

(** ** The two revisions *)

(** X20.  The two revisions of the progress handler differ on segments
    with an init segment and no key only.  On a segment with a key both
    leave parsing to the completion and only refresh the statistics; on a
    segment with neither key nor init segment both push the bytes
    received since the cursor to the transmuxer as a partial chunk and
    move the cursor past them.  In both cases descriptor and calls are
    the same. *)
Theorem revisions_agree_on_progress_without_init_segment
    {Boxes TrackInfo : Type}
    (stringToArrayBuffer : JsString -> list byte)
    (inspectMp4 : list byte -> bool -> option Boxes -> Mp4Result.t Boxes)
    (collectBoxes :
       option Boxes -> Uint8Array.t -> Z
       -> option Boxes * option (list byte))
    (segment : Segment.t Boxes TrackInfo) (ev : ProgressEvent.t)
    (at_ firstAt : Z) :
  Segment.key segment <> None \/ Segment.map segment = None ->
  Part000.handleProgress stringToArrayBuffer collectBoxes segment ev
    at_ firstAt
  = handleProgress stringToArrayBuffer inspectMp4 segment ev at_ firstAt
  /\ (Segment.key segment = None ->
      In (Transmux
            (newBytesOf stringToArrayBuffer segment (ProgressEvent.target ev))
            true false)
        (snd (handleProgress stringToArrayBuffer inspectMp4 segment ev
                at_ firstAt))).
Proof.
  intros Hcase.
  unfold Part000.handleProgress, handleProgress, progressParses,
    Part000.handleDecryptedBytes, handleDecryptedBytes.
  destruct (Segment.key segment) as [k |] eqn:Ek.
  - split; [reflexivity | discriminate].
  - destruct Hcase as [Hkey | Hmap]; [congruence |].
    rewrite Hmap. cbn. split; [reflexivity | intros _; now left].
Qed.

Lemma revisions_agree_on_progress_without_init_segment_witness :
  Part000.handleProgress SampleProgress.toBytes SampleBoxes.collect
    (SampleSegment.fresh None None) (event (SampleProgress.call 3 1010))
    1010 1010
  = handleProgress SampleProgress.toBytes SampleWorker.noBoxes
      (SampleSegment.fresh None None) (event (SampleProgress.call 3 1010))
      1010 1010
  /\ (Segment.key (SampleSegment.fresh None None) = None ->
      In (Transmux
            (newBytesOf SampleProgress.toBytes (SampleSegment.fresh None None)
               (ProgressEvent.target (event (SampleProgress.call 3 1010))))
            true false)
        (snd (handleProgress SampleProgress.toBytes SampleWorker.noBoxes
                (SampleSegment.fresh None None)
                (event (SampleProgress.call 3 1010)) 1010 1010))).
Proof.
  apply (revisions_agree_on_progress_without_init_segment
           SampleProgress.toBytes SampleWorker.noBoxes SampleBoxes.collect
           (SampleSegment.fresh None None)
           (event (SampleProgress.call 3 1010)) 1010 1010).
  right. reflexivity.
Defined.

(** ** Termination of the box scanner *)

Lemma completeBoxesLoop_enough rounds :
  forall view reachesEndOfFile offset remaining more,
    0 <= remaining ->
    (Z.to_nat remaining < rounds)%nat ->
    Part000.completeBoxesLoop (more + rounds) view reachesEndOfFile offset
      remaining
    = Part000.completeBoxesLoop rounds view reachesEndOfFile offset
        remaining.
Proof.
  intros view eof offset remaining more Hpos Hlt.
  induction more as [| more IH]; [reflexivity |].
  cbn [Nat.add]. rewrite completeBoxesLoop_rounds; [exact IH | exact Hpos |].
  lia.
Qed.

Lemma scanBoxes_ends rounds :
  forall view reachesEndOfFile offset remaining,
    0 <= offset -> 0 <= remaining ->
    offset + remaining <= byteLength view ->
    (Z.to_nat remaining < rounds)%nat ->
    scanBoxes rounds view reachesEndOfFile offset remaining
    = Offset (Part000.completeBoxesLoop rounds view reachesEndOfFile offset
                remaining).
Proof.
  induction rounds as [| rounds IH];
    intros view eof offset remaining Hoff Hpos Hsum Hlt; [lia |].
  cbn [scanBoxes Part000.completeBoxesLoop].
  destruct (remaining >=? 8) eqn:E8; [| reflexivity].
  destruct (getUint32 view (Z.to_nat offset)) as [size |] eqn:Esize.
  2:{ exfalso. revert Esize. apply getUint32_in_range.
      unfold byteLength in Hsum. lia. }
  destruct ((size =? 0) && negb eof); [reflexivity |].
  set (boxLength := if size =? 0 then remaining else size).
  destruct (remaining <? boxLength) eqn:Elen; [reflexivity |].
  apply Z.ltb_ge in Elen.
  assert (1 <= boxLength).
  { apply getUint32_range in Esize. subst boxLength.
    destruct (size =? 0) eqn:E0; [| apply Z.eqb_neq in E0]; lia. }
  apply IH; lia.
Qed.

(** X21.  [completeMp4BoxesOffset] ends on every array, without reading
    past the end of its buffer.  Run for more rounds than the array has
    bytes, the loop has left through one of its exits, no read of a size
    field has raised a [RangeError], and the offset returned is at most
    the length of the array. *)
Theorem completeMp4BoxesOffset_ends_within_the_buffer
    (bytes : Uint8Array.t) (reachesEndOfFile : bool) (rounds : nat) :
  (List.length (Uint8Array.bytes bytes) < rounds)%nat ->
  scanBoxes rounds (Uint8Array.buffer bytes) reachesEndOfFile 0
    (Uint8Array.byteLength bytes)
  = Offset (Part000.completeMp4BoxesOffset bytes reachesEndOfFile)
  /\ 0 <= Part000.completeMp4BoxesOffset bytes reachesEndOfFile
       <= Uint8Array.byteLength bytes.
Proof.
  intros Hrounds.
  split; [| apply completeMp4BoxesOffset_bounds].
  pose proof (bytes_within_buffer bytes) as Hwithin.
  assert (Hpos : 0 <= Uint8Array.byteLength bytes)
    by (unfold Uint8Array.byteLength; lia).
  rewrite scanBoxes_ends;
    [| lia | exact Hpos
     | unfold Uint8Array.byteLength, byteLength; lia
     | unfold Uint8Array.byteLength; lia].
  f_equal. unfold Part000.completeMp4BoxesOffset.
  replace rounds
    with ((rounds - S (List.length (Uint8Array.bytes bytes)))
          + S (List.length (Uint8Array.bytes bytes)))%nat
    by lia.
  apply completeBoxesLoop_enough;
    [exact Hpos | unfold Uint8Array.byteLength; lia].
Qed.

Lemma completeMp4BoxesOffset_ends_within_the_buffer_witness :
  (scanBoxes 18 SampleRawData.segment true 0
     (byteLength SampleRawData.segment)
   = Offset (Part000.completeMp4BoxesOffset
               (Uint8Array.ofBuffer SampleRawData.segment) true)
   /\ 0 <= Part000.completeMp4BoxesOffset
             (Uint8Array.ofBuffer SampleRawData.segment) true
        <= byteLength SampleRawData.segment)
  /\ (scanBoxes 10 SampleRawData.segment false 0 9
      = Offset (Part000.completeMp4BoxesOffset SampleRawData.mdat false)
      /\ 0 <= Part000.completeMp4BoxesOffset SampleRawData.mdat false <= 9).
Proof.
  split.
  - apply (completeMp4BoxesOffset_ends_within_the_buffer
             (Uint8Array.ofBuffer SampleRawData.segment) true 18).
    cbn. lia.
  - apply (completeMp4BoxesOffset_ends_within_the_buffer
             SampleRawData.mdat false 10).
    cbn. lia.
Defined.
